(** * ts.c: the CODAR time-series transcoder (tsdump / tsgen)

    A shallow embedding of [src/ts.c].  The block list ([struct node]) is a
    Rocq list of records, memory is a list of bytes addressed from the
    pointer it is reached through, and the C integer types are [Z] with
    their wrap-around written out.  The platform (byte order, the C
    library's scanning, printing and allocator, double arithmetic) is a
    record that every operation takes as its first argument. *)

From Stdlib Require Import String Ascii Strings.Byte.
From Stdlib Require Import ZArith Floats Bool Lia List.
From Stdlib Require DecimalString HexadecimalString DecimalPos DecimalN.
Import ListNotations.
Open Scope Z_scope.

(* ================================================================== *)
(** * Part I: definitions                                              *)
(* ================================================================== *)

(** ** Bytes and memory *)

Definition Z_of_byte (b : byte) : Z := Z.of_N (Byte.to_N b).

Definition byte_of_Z (z : Z) : byte :=
  match Byte.of_N (Z.to_N (z mod 256)) with
  | Some b => b
  | None => x00
  end.

(** [p[i]] read through a pointer [p] whose accessible memory is [mem]. *)
Definition peek (mem : list byte) (i : nat) : byte := nth i mem x00.

(** [p[i] = b]. *)
Fixpoint poke (mem : list byte) (i : nat) (b : byte) : list byte :=
  match mem, i with
  | [], _ => []
  | _ :: t, O => b :: t
  | h :: t, S j => h :: poke t j b
  end.

(** The bytes [p[off .. off+n)]. *)
Definition slice (mem : list byte) (off n : nat) : list byte :=
  firstn n (skipn off mem).

(** A store of [src] at [p + off] into the block [mem].  The callers store
    inside the block, or check the store first ([read_field]); should
    [src] reach past the end of [mem], the result holds the bytes that lie
    in the block. *)
Definition blit (mem : list byte) (off : nat) (src : list byte) : list byte :=
  firstn off mem ++ firstn (length mem - off) src
    ++ skipn (off + length src) mem.

(** ** Fixed-width integers *)

Definition wrap16s (z : Z) : Z := (z + 32768) mod 65536 - 32768.
Definition wrap32 (z : Z) : Z := z mod 4294967296.
Definition wrap32s (z : Z) : Z := (z + 2147483648) mod 4294967296 - 2147483648.
Definition wrap64 (z : Z) : Z := z mod 18446744073709551616.

(** Big-endian and little-endian images of an unsigned integer on [n]
    bytes. *)
Fixpoint bytes_le (n : nat) (v : Z) : list byte :=
  match n with
  | O => []
  | S m => byte_of_Z v :: bytes_le m (v / 256)
  end.

Fixpoint Z_of_le (bs : list byte) : Z :=
  match bs with
  | [] => 0
  | b :: t => Z_of_byte b + 256 * Z_of_le t
  end.

(** The host's in-memory image of an [n]-byte unsigned integer, and back. *)
Definition store_uint (le : bool) (n : nat) (v : Z) : list byte :=
  if le then bytes_le n v else rev (bytes_le n v).

Definition load_uint (le : bool) (bs : list byte) : Z :=
  if le then Z_of_le bs else Z_of_le (rev bs).

Definition load_u32 (le : bool) (mem : list byte) (off : nat) : Z :=
  load_uint le (slice mem off 4).

Definition load_i32 (le : bool) (mem : list byte) (off : nat) : Z :=
  wrap32s (load_u32 le mem off).

Definition load_i16 (le : bool) (mem : list byte) (off : nat) : Z :=
  wrap16s (load_uint le (slice mem off 2)).

Definition load_u64 (le : bool) (mem : list byte) (off : nat) : Z :=
  load_uint le (slice mem off 8).

(** ** The endian normalizer: [swapcopy2/4/8], [swapcopy], [endian_fixup] *)

Definition swapcopy2 (dest source : list byte) : list byte :=
  let dest := poke dest 0 (peek source 1) in
  poke dest 1 (peek source 0).

Definition swapcopy4 (dest source : list byte) : list byte :=
  let dest := poke dest 0 (peek source 3) in
  let dest := poke dest 1 (peek source 2) in
  let dest := poke dest 2 (peek source 1) in
  poke dest 3 (peek source 0).

Definition swapcopy8 (dest source : list byte) : list byte :=
  let dest := poke dest 0 (peek source 7) in
  let dest := poke dest 1 (peek source 6) in
  let dest := poke dest 2 (peek source 5) in
  let dest := poke dest 3 (peek source 4) in
  let dest := poke dest 4 (peek source 3) in
  let dest := poke dest 5 (peek source 2) in
  let dest := poke dest 6 (peek source 1) in
  poke dest 7 (peek source 0).

(** The [switch] has the three cases and no [default]. *)
Definition swapcopy (dest source : list byte) (size : Z) : list byte :=
  if size =? 2 then swapcopy2 dest source
  else if size =? 4 then swapcopy4 dest source
  else if size =? 8 then swapcopy8 dest source
  else dest.

(** [endian_fixup(original, size)] under [Global_flag_little_endian = le]:
    [tmp] receives the first [size] bytes ([memcpy]; [tmp] holds 8 bytes, so
    the embedding is that of the C code for [0 <= size <= 8]), then
    [swapcopy] writes back through [original].  The result is the memory
    reached through [original] after the call. *)
Definition endian_fixup (le : bool) (original : list byte) (size : Z)
  : list byte :=
  if le then
    let tmp := firstn (Z.to_nat size) original in
    swapcopy original tmp size
  else original.

(** [endian_fixup(p + off, size)] seen from [p]: the call on a field of a
    packed struct. *)
Definition endian_fixup_at (le : bool) (mem : list byte) (off : nat) (size : Z)
  : list byte :=
  firstn off mem ++ endian_fixup le (skipn off mem) size.

(** [endian_fixup(&x, 4)] on an integer variable or struct member [x] of
    four bytes, by way of its image in memory. *)
Definition fixup_u32 (le : bool) (x : Z) : Z :=
  load_uint le (endian_fixup le (store_uint le 4 x) 4).

Definition supported_width (size : Z) : bool :=
  (size =? 2) || (size =? 4) || (size =? 8).

(** ** Results of a call

    The C functions return 0 or 1.  [Err] is a return of 1, tagged with the
    kind of failure whose diagnostic the code prints; [Fault] is a memory
    error, which the C standard leaves undefined: an access outside the
    memory a pointer may reach, the use of a pointer that was never set,
    [free] of what [malloc] did not return. *)

Inductive error : Set :=
| UnknownBlockType     (* "Bad key (zero!)", "Cannot locate functions for key" *)
| TruncatedBlock       (* "Block '%s' is truncated" *)
| MissingContext       (* "Unknown bin_type '%s' (%x) at index %d" *)
| MalformedParameter   (* "Cannot find parameter '%s'", "Failed to read ..." *)
| OddSampleCount       (* "Cannot deal with an odd number of lines" *)
| MissingContainer.    (* [fixup_sizes] returning 1 *)

Inductive outcome (A : Type) : Type :=
| Ok (a : A)
| Err (e : error)
| Fault.

Arguments Ok {A} a.
Arguments Err {A} e.
Arguments Fault {A}.

Definition bind {A B : Type} (m : outcome A) (f : A -> outcome B) : outcome B :=
  match m with
  | Ok a => f a
  | Err e => Err e
  | Fault => Fault
  end.

Notation "x <- m ;; k" := (bind m (fun x => k))
  (at level 61, m at next level, right associativity).

Notation "' p <- m ;; k" := (bind m (fun p => k))
  (at level 61, p pattern, m at next level, right associativity).

(** ** The platform *)

(** Double arithmetic as the sample codec uses it. *)
Record arith : Type := {
  double : Type;
  fdiv : double -> double -> double;
  fmul : double -> double -> double;
  double_of_int : Z -> double;   (* [(double)n] for an [int] n *)
  int_of_round : double -> Z     (* [int k = round(x)] *)
}.

Record platform : Type := {
  (** [Global_flag_little_endian], as [check_little_endian] sets it: the
      host's own byte order. *)
  little_endian : bool;
  ar : arith;
  (** The double whose 8-byte image is the given 64-bit pattern. *)
  double_of_bits : Z -> double ar;
  (** [sscanf(line, format, buffer)] for a format with one conversion: the
      value returned and the bytes stored through [buffer] (none when the
      conversion did not take place). *)
  sscanf : string -> string -> Z * list byte;
  (** [printf("%.20lf", x)]. *)
  printf_lf : double ar -> string;
  (** [ctime(&t)]. *)
  ctime : Z -> string;
  (** [malloc_usable_size] of the block [malloc] returns for a request of
      the given number of bytes: the bytes of the allocation.  The C
      standard gives a program the bytes it asked for and no more; an
      allocator that rounds requests up leaves bytes behind them that
      belong to no other object. *)
  malloc_usable_size : nat -> nat
}.

(** ** Keys and nodes *)

Definition KEY_AQLV : Z := 0x4151564c.
Definition KEY_HEAD : Z := 0x48454144.
Definition KEY_sign : Z := 0x7369676e.
Definition KEY_mcda : Z := 0x6d636461.
Definition KEY_cnst : Z := 0x636e7374.
Definition KEY_swep : Z := 0x73776570.
Definition KEY_fbin : Z := 0x6662696e.
Definition KEY_BODY : Z := 0x424f4459.
Definition KEY_gtag : Z := 0x67746167.
Definition KEY_atag : Z := 0x61746167.
Definition KEY_indx : Z := 0x696e6478.
Definition KEY_scal : Z := 0x7363616c.
Definition KEY_alvl : Z := 0x616c766c.
Definition KEY_END : Z := 0x454e4420.

Definition SIZE_DESCRIPTION : nat := 64.
Definition SIZE_OWNERNAME : nat := 64.
Definition SIZE_COMMENT : nat := 64.

Definition BINFORMAT_CVIQ : Z := 0x63766971.
Definition BINTYPE_FLT4 : Z := 0x666c7434.
Definition BINTYPE_FIX2 : Z := 0x66697832.
Definition BINTYPE_FIX3 : Z := 0x66697833.
Definition BINTYPE_FIX4 : Z := 0x66697834.

(** [struct node] without its [next] link: the list of nodes is a Rocq
    list.  [data] is the memory the node's [data] pointer reaches (empty
    for [NULL]). *)
Record node : Type := {
  key : Z;
  size : Z;
  data : list byte
}.

Definition sizeof_block_header : Z := 8.
Definition sizeof_block_sign : Z := 208.
Definition sizeof_block_mcda : Z := 4.
Definition sizeof_block_cnst : Z := 16.
Definition sizeof_block_swep : Z := 32.
Definition sizeof_block_fbin : Z := 8.
Definition sizeof_block_gtag : Z := 4.
Definition sizeof_block_atag : Z := 4.
Definition sizeof_block_indx : Z := 4.
Definition sizeof_block_scal : Z := 16.
Definition sizeof_block_alvl : Z := 4.

(** The fields of [struct config] that the program reads or writes. *)
Record config (h : platform) : Type := {
  bin_type : Z;
  scalar_one : double (ar h);
  scalar_two : double (ar h)
}.

Arguments bin_type {h} c.
Arguments scalar_one {h} c.
Arguments scalar_two {h} c.

(** [memset(&config, 0, sizeof(struct config))]. *)
Definition config_zero (h : platform) : config h :=
  {| bin_type := 0;
     scalar_one := double_of_bits h 0;
     scalar_two := double_of_bits h 0 |}.

(** [memset(newnode, 0, sizeof(struct node))]. *)
Definition node_zero : node := {| key := 0; size := 0; data := [] |}.

Definition superblock (k : Z) : bool :=
  if k =? KEY_AQLV then true
  else if k =? KEY_HEAD then true
  else if k =? KEY_BODY then true
  else if k =? KEY_END then true
  else false.

(** ** The size reconciler: [calculate_head_size], [calculate_body_size],
       [set_block_size], [fixup_sizes] *)

(** The [while] loop of [calculate_body_size] from a node on, with the
    values [in_body] and [size] have there. *)
Fixpoint calculate_body_size_from (in_body : bool) (sz : Z) (lst : list node)
  : Z :=
  match lst with
  | [] => sz
  | n :: next =>
      let in_body := if key n =? KEY_END then false else in_body in
      let sz := if in_body then wrap32 (sz + (size n + sizeof_block_header))
                else sz in
      let in_body := if key n =? KEY_BODY then true else in_body in
      calculate_body_size_from in_body sz next
  end.

Definition calculate_body_size (lst : list node) : Z :=
  calculate_body_size_from false 0 lst.

Fixpoint calculate_head_size_from (in_head : bool) (sz : Z) (lst : list node)
  : Z :=
  match lst with
  | [] => sz
  | n :: next =>
      let in_head := if key n =? KEY_END then false else in_head in
      let in_head := if key n =? KEY_BODY then false else in_head in
      let sz := if in_head then wrap32 (sz + (size n + sizeof_block_header))
                else sz in
      let in_head := if key n =? KEY_HEAD then true else in_head in
      calculate_head_size_from in_head sz next
  end.

Definition calculate_head_size (lst : list node) : Z :=
  calculate_head_size_from false 0 lst.

(** Returns 1 for failure, 0 for success, and the list as it is left. *)
Fixpoint set_block_size (lst : list node) (k : Z) (sz : Z)
  : Z * list node :=
  match lst with
  | [] => (1, [])
  | n :: next =>
      if key n =? k then
        (0, {| key := key n; size := sz; data := data n |} :: next)
      else
        let (err, next') := set_block_size next k sz in
        (err, n :: next')
  end.

Definition fixup_sizes (lst : list node) : Z * list node :=
  let head_size := calculate_head_size lst in
  if head_size =? 0 then (1, lst) else
  let body_size := calculate_body_size lst in
  if body_size =? 0 then (1, lst) else
  let aqlv_size :=
    wrap32 (head_size + sizeof_block_header + body_size + sizeof_block_header) in
  let (e1, l1) := set_block_size lst KEY_AQLV aqlv_size in
  if negb (e1 =? 0) then (1, l1) else
  let (e2, l2) := set_block_size l1 KEY_HEAD head_size in
  if negb (e2 =? 0) then (1, l2) else
  let (e3, l3) := set_block_size l2 KEY_BODY body_size in
  if negb (e3 =? 0) then (1, l3) else
  (0, l3).

(** *** The bracket regions, as the data model describes them

    These follow the specification's words, to be compared with the two
    scans above: the header region is opened by a header-open marker and
    closed by a body-open or an end marker; the body region is opened by a
    body-open marker and closed by an end marker.  [before] is the part of
    the sequence in front of the block looked at. *)

Definition header_marker (n : node) : bool :=
  (key n =? KEY_HEAD) || (key n =? KEY_BODY) || (key n =? KEY_END).

Definition body_marker (n : node) : bool :=
  (key n =? KEY_BODY) || (key n =? KEY_END).

(** The nearest marker in front is a header-open one. *)
Definition header_open (before : list node) : bool :=
  match find header_marker (rev before) with
  | Some m => key m =? KEY_HEAD
  | None => false
  end.

Definition body_open (before : list node) : bool :=
  match find body_marker (rev before) with
  | Some m => key m =? KEY_BODY
  | None => false
  end.

Definition in_header_region (before : list node) (n : node) : bool :=
  header_open before && negb (key n =? KEY_BODY) && negb (key n =? KEY_END).

Definition in_body_region (before : list node) (n : node) : bool :=
  body_open before && negb (key n =? KEY_END).

(** The sum of (payload length + 8) over the blocks of [rest] that lie in
    a region, [before] being what precedes [rest]. *)
Fixpoint region_total (inside : list node -> node -> bool)
    (before rest : list node) : Z :=
  match rest with
  | [] => 0
  | n :: t =>
      (if inside before n then size n + 8 else 0)
      + region_total inside (before ++ [n]) t
  end.

Definition header_total (l : list node) : Z :=
  wrap32 (region_total in_header_region [] l).

Definition body_total (l : list node) : Z :=
  wrap32 (region_total in_body_region [] l).

(** The declared length of the first block with a given key. *)
Definition first_size (k : Z) (l : list node) : option Z :=
  option_map size (find (fun n => key n =? k) l).

Definition has_key (k : Z) (l : list node) : bool :=
  existsb (fun n => key n =? k) l.

(** A block differs from another in its declared length at most, and
    only if its key is one of [keys]. *)
Definition resized (keys : list Z) (n n' : node) : Prop :=
  key n' = key n /\ data n' = data n /\
  (size n' = size n \/ In (key n) keys).

(** The block [n'] at position [i] of a sequence against the block [n] at
    position [i] of [l]: the same key and payload, and the same declared
    length unless [n] is the first block of [l] with its key and that key
    is one of [keys]. *)
Definition first_resized (keys : list Z) (l : list node) (i : nat)
    (n n' : node) : Prop :=
  key n' = key n /\ data n' = data n /\
  (size n' = size n \/
   (In (key n) keys /\ has_key (key n) (firstn i l) = false)).

(** ** The per-block operations: normalize ([fixup_data_*]) *)

(** [endian_fixup(&(s->field), w)] for the field at offset [off] of the
    struct at [mem]; a field outside the memory [mem] is a [Fault]. *)
Definition fix_at (le : bool) (off : nat) (w : Z) (mem : list byte)
  : outcome (list byte) :=
  if (off + Z.to_nat w <=? length mem)%nat
  then Ok (endian_fixup_at le mem off w)
  else Fault.

(** Each [fixup_data_*] returns the memory at [node->data] as it leaves
    it. *)
Definition fixup_data_aqlv (h : platform) (n : node) : outcome (list byte) :=
  Ok (data n).

Definition fixup_data_head (h : platform) (n : node) : outcome (list byte) :=
  Ok (data n).

Definition fixup_data_body (h : platform) (n : node) : outcome (list byte) :=
  Ok (data n).

Definition fixup_data_end (h : platform) (n : node) : outcome (list byte) :=
  Ok (data n).

Definition fixup_data_sign (h : platform) (n : node) : outcome (list byte) :=
  let le := little_endian h in
  if size n <? sizeof_block_sign then Err TruncatedBlock else
  mem <- fix_at le 0 4 (data n) ;;     (* version *)
  mem <- fix_at le 4 4 mem ;;          (* filetype *)
  mem <- fix_at le 8 4 mem ;;          (* sitecode *)
  fix_at le 12 4 mem.                  (* userflags *)

Definition fixup_data_mcda (h : platform) (n : node) : outcome (list byte) :=
  let le := little_endian h in
  if size n <? sizeof_block_mcda then Err TruncatedBlock else
  fix_at le 0 4 (data n).              (* timestamp *)

Definition fixup_data_cnst (h : platform) (n : node) : outcome (list byte) :=
  let le := little_endian h in
  if size n <? sizeof_block_cnst then Err TruncatedBlock else
  mem <- fix_at le 0 4 (data n) ;;     (* nchannels *)
  mem <- fix_at le 4 4 mem ;;          (* nsweeps *)
  mem <- fix_at le 8 4 mem ;;          (* nsamples *)
  fix_at le 12 4 mem.                  (* iqindicator *)

Definition fixup_data_swep (h : platform) (n : node) : outcome (list byte) :=
  let le := little_endian h in
  if size n <? sizeof_block_swep then Err TruncatedBlock else
  mem <- fix_at le 0 4 (data n) ;;     (* samplespersweep *)
  mem <- fix_at le 4 8 mem ;;          (* sweepstart *)
  mem <- fix_at le 12 8 mem ;;         (* sweepbandwidth *)
  mem <- fix_at le 20 8 mem ;;         (* sweeprate *)
  fix_at le 28 4 mem.                  (* rangeoffset *)

Definition fixup_data_fbin (h : platform) (n : node) : outcome (list byte) :=
  let le := little_endian h in
  if size n <? sizeof_block_fbin then Err TruncatedBlock else
  mem <- fix_at le 0 4 (data n) ;;     (* bin_format *)
  fix_at le 4 4 mem.                   (* bin_type *)

Definition fixup_data_gtag (h : platform) (n : node) : outcome (list byte) :=
  let le := little_endian h in
  if size n <? sizeof_block_gtag then Err TruncatedBlock else
  fix_at le 0 4 (data n).

Definition fixup_data_atag (h : platform) (n : node) : outcome (list byte) :=
  let le := little_endian h in
  if size n <? sizeof_block_atag then Err TruncatedBlock else
  fix_at le 0 4 (data n).

Definition fixup_data_indx (h : platform) (n : node) : outcome (list byte) :=
  let le := little_endian h in
  if size n <? sizeof_block_indx then Err TruncatedBlock else
  fix_at le 0 4 (data n).

Definition fixup_data_scal (h : platform) (n : node) : outcome (list byte) :=
  let le := little_endian h in
  if size n <? sizeof_block_scal then Err TruncatedBlock else
  mem <- fix_at le 0 8 (data n) ;;     (* scalar_one *)
  fix_at le 8 8 mem.                   (* scalar_two *)

(** The [for] loop over the samples: [loops] iterations are left and
    [alvl] stands at offset [off]. *)
Fixpoint fixup_alvl_loop (le : bool) (loops : nat) (off : nat)
    (mem : list byte) : outcome (list byte) :=
  match loops with
  | O => Ok mem
  | S k =>
      mem <- fix_at le off 2 mem ;;          (* isample *)
      mem <- fix_at le (off + 2) 2 mem ;;    (* qsample *)
      fixup_alvl_loop le k (off + 4) mem
  end.

Definition fixup_data_alvl (h : platform) (n : node) : outcome (list byte) :=
  let le := little_endian h in
  if size n <? sizeof_block_alvl then Err TruncatedBlock else
  let nsamples := size n / sizeof_block_alvl in
  fixup_alvl_loop le (Z.to_nat nsamples) 0 (data n).

(** ** The per-block operations: serialize ([gen_block_*])

    [outfile] is the list of the bytes written so far; [fwrite] is taken to
    succeed.  Each [gen_block_*] returns the node as it leaves it and the
    bytes it wrote. *)

(** [fwrite(&x, 4, 1, outfile)] for a four-byte integer [x]. *)
Definition fwrite_u32 (le : bool) (x : Z) : list byte := store_uint le 4 x.

(** The first four statements of every [gen_block_*]: key and size are
    byte-swapped where they stand in the node, then written. *)
Definition gen_header (le : bool) (n : node) : Z * Z * list byte :=
  let k := fixup_u32 le (key n) in
  let out := fwrite_u32 le k in
  let s := fixup_u32 le (size n) in
  (k, s, out ++ fwrite_u32 le s).

(** [endian_fixup(&(s->field), w); fwrite(&(s->field), w, 1, outfile)]. *)
Definition put (le : bool) (off : nat) (w : Z) (st : list byte * list byte)
  : outcome (list byte * list byte) :=
  let (mem, out) := st in
  mem' <- fix_at le off w mem ;;
  Ok (mem', out ++ slice mem' off (Z.to_nat w)).

(** [fwrite(&(s->field), w, 1, outfile)] alone. *)
Definition put_raw (off : nat) (w : nat) (st : list byte * list byte)
  : outcome (list byte * list byte) :=
  let (mem, out) := st in
  if (off + w <=? length mem)%nat
  then Ok (mem, out ++ slice mem off w)
  else Fault.

Definition gen_done (k s : Z) (st : list byte * list byte)
  : outcome (node * list byte) :=
  Ok ({| key := k; size := s; data := fst st |}, snd st).

Definition gen_superblock (h : platform) (n : node) : outcome (node * list byte) :=
  let '(k, s, out) := gen_header (little_endian h) n in
  gen_done k s (data n, out).

Definition gen_block_aqlv := gen_superblock.
Definition gen_block_head := gen_superblock.
Definition gen_block_body := gen_superblock.
Definition gen_block_end := gen_superblock.

(** The four [endian_fixup] calls on the payload are commented out in the
    source. *)
Definition gen_block_sign (h : platform) (n : node) : outcome (node * list byte) :=
  let '(k, s, out) := gen_header (little_endian h) n in
  st <- put_raw 0 4 (data n, out) ;;                 (* version *)
  st <- put_raw 4 4 st ;;                            (* filetype *)
  st <- put_raw 8 4 st ;;                            (* sitecode *)
  st <- put_raw 12 4 st ;;                           (* userflags *)
  st <- put_raw 16 SIZE_DESCRIPTION st ;;
  st <- put_raw 80 SIZE_OWNERNAME st ;;
  st <- put_raw 144 SIZE_COMMENT st ;;
  gen_done k s st.

(** [gen_block_mcda], [gen_block_gtag], [gen_block_atag], [gen_block_indx]:
    one four-byte field. *)
Definition gen_block_u32 (h : platform) (n : node) : outcome (node * list byte) :=
  let le := little_endian h in
  let '(k, s, out) := gen_header le n in
  st <- put le 0 4 (data n, out) ;;
  gen_done k s st.

Definition gen_block_mcda := gen_block_u32.
Definition gen_block_gtag := gen_block_u32.
Definition gen_block_atag := gen_block_u32.
Definition gen_block_indx := gen_block_u32.

Definition gen_block_cnst (h : platform) (n : node) : outcome (node * list byte) :=
  let le := little_endian h in
  let '(k, s, out) := gen_header le n in
  st <- put le 0 4 (data n, out) ;;
  st <- put le 4 4 st ;;
  st <- put le 8 4 st ;;
  st <- put le 12 4 st ;;
  gen_done k s st.

Definition gen_block_swep (h : platform) (n : node) : outcome (node * list byte) :=
  let le := little_endian h in
  let '(k, s, out) := gen_header le n in
  st <- put le 0 4 (data n, out) ;;
  st <- put le 4 8 st ;;
  st <- put le 12 8 st ;;
  st <- put le 20 8 st ;;
  st <- put le 28 4 st ;;
  gen_done k s st.

Definition gen_block_fbin (h : platform) (n : node) : outcome (node * list byte) :=
  let le := little_endian h in
  let '(k, s, out) := gen_header le n in
  st <- put le 0 4 (data n, out) ;;
  st <- put le 4 4 st ;;
  gen_done k s st.

Definition gen_block_scal (h : platform) (n : node) : outcome (node * list byte) :=
  let le := little_endian h in
  let '(k, s, out) := gen_header le n in
  st <- put le 0 8 (data n, out) ;;
  st <- put le 8 8 st ;;
  gen_done k s st.

Fixpoint gen_alvl_loop (le : bool) (loops : nat) (off : nat)
    (st : list byte * list byte) : outcome (list byte * list byte) :=
  match loops with
  | O => Ok st
  | S k =>
      st <- put le off 2 st ;;           (* isample *)
      st <- put le (off + 2) 2 st ;;     (* qsample *)
      gen_alvl_loop le k (off + 4) st
  end.

(** [int actual_size = node->size] is taken before the size is swapped;
    [actual_size/sizeof(struct block_alvl)] is a division in [size_t]
    stored into an [int]. *)
Definition gen_block_alvl (h : platform) (n : node) : outcome (node * list byte) :=
  let le := little_endian h in
  let actual_size := wrap32s (size n) in
  let '(k, s, out) := gen_header le n in
  let sample_count := wrap32s (wrap64 actual_size / sizeof_block_alvl) in
  st <- gen_alvl_loop le (Z.to_nat sample_count) 0 (data n, out) ;;
  gen_done k s st.

(** ** Text: lines, C strings and [printf] conversions *)

Definition nl : string := String (ascii_of_nat 10) EmptyString.

(** The bytes of a C string: up to the first NUL. *)
Fixpoint cstring (bs : list byte) : list byte :=
  match bs with
  | [] => []
  | b :: t => if Byte.eqb b x00 then [] else b :: cstring t
  end.

Definition text_of (bs : list byte) : string := string_of_list_byte (cstring bs).

(** [strkey(name)]: the four bytes of [name] as it lies in memory, passed
    through [endian_fixup], as a C string. *)
Definition strkey (h : platform) (name : Z) : string :=
  let le := little_endian h in
  text_of (endian_fixup le (store_uint le 4 name) 4).

(** ["%u"] and ["%lu"], ["%d"], ["%x"]. *)
Definition fmt_u (v : Z) : string :=
  DecimalString.NilZero.string_of_uint (N.to_uint (Z.to_N v)).

Definition fmt_d (v : Z) : string :=
  DecimalString.NilZero.string_of_int (Z.to_int v).

Definition fmt_x (v : Z) : string :=
  HexadecimalString.NilZero.string_of_uint (N.to_hex_uint (Z.to_N v)).

(** [printf("%.*s", n, p)]. *)
Definition fmt_chars (n : nat) (mem : list byte) (off : nat) : string :=
  text_of (slice mem off n).

(** [struct block_*] must lie inside the memory [node->data] reaches. *)
Definition within (bytes : Z) (mem : list byte) : outcome unit :=
  if (Z.to_nat bytes <=? length mem)%nat then Ok tt else Fault.

Definition load_double (h : platform) (mem : list byte) (off : nat)
  : double (ar h) :=
  double_of_bits h (load_u64 (little_endian h) mem off).

(** ** The per-block operations: render ([dump_block_*])

    Each returns the context as it leaves it and the text it printed to
    [outfile]. *)

Definition dump_block_aqlv (h : platform) (n : node) (c : config h)
  : outcome (config h * string) :=
  Ok (c, strkey h KEY_AQLV ++ nl ++ nl)%string.

Definition dump_block_head (h : platform) (n : node) (c : config h)
  : outcome (config h * string) :=
  Ok (c, strkey h KEY_HEAD ++ nl ++ nl)%string.

Definition dump_block_body (h : platform) (n : node) (c : config h)
  : outcome (config h * string) :=
  Ok (c, strkey h KEY_BODY ++ nl ++ nl)%string.

Definition dump_block_end (h : platform) (n : node) (c : config h)
  : outcome (config h * string) :=
  Ok (c, strkey h KEY_END ++ nl)%string.

Definition dump_block_sign (h : platform) (n : node) (c : config h)
  : outcome (config h * string) :=
  let le := little_endian h in
  if size n <? sizeof_block_sign then Err TruncatedBlock else
  _ <- within sizeof_block_sign (data n) ;;
  let sign := data n in
  Ok (c,
      strkey h KEY_sign ++ nl
      ++ "version:" ++ strkey h (load_u32 le sign 0) ++ nl
      ++ "filetype:" ++ strkey h (load_u32 le sign 4) ++ nl
      ++ "sitecode:" ++ strkey h (load_u32 le sign 8) ++ nl
      ++ "userflags:" ++ fmt_x (load_u32 le sign 12) ++ nl
      ++ "description:" ++ fmt_chars SIZE_DESCRIPTION sign 16 ++ nl
      ++ "ownername:" ++ fmt_chars SIZE_OWNERNAME sign 80 ++ nl
      ++ "comment:" ++ fmt_chars SIZE_OWNERNAME sign 144 ++ nl
      ++ nl)%string.

(** [time_t] is a signed 64-bit integer and ["%lu"] prints it as an
    unsigned one. *)
Definition dump_block_mcda (h : platform) (n : node) (c : config h)
  : outcome (config h * string) :=
  let le := little_endian h in
  if size n <? sizeof_block_mcda then Err TruncatedBlock else
  _ <- within sizeof_block_mcda (data n) ;;
  let mcda_time := load_u32 le (data n) 0 in
  let t := mcda_time in
  let stamp :=
    if negb (t =? 0) then
      let t := t - 2082844800 in
      ("timestamp:" ++ fmt_u (wrap64 t)
       ++ " (NB: seconds since 1970) ("
       ++ substring 0 24 (ctime h t) ++ ")" ++ nl)%string
    else ""%string in
  Ok (c, strkey h KEY_mcda ++ nl ++ stamp ++ nl)%string.

Definition dump_block_cnst (h : platform) (n : node) (c : config h)
  : outcome (config h * string) :=
  let le := little_endian h in
  if size n <? sizeof_block_cnst then Err TruncatedBlock else
  _ <- within sizeof_block_cnst (data n) ;;
  let cnst := data n in
  Ok (c,
      strkey h KEY_cnst ++ nl
      ++ "nchannels:" ++ fmt_d (load_i32 le cnst 0) ++ nl
      ++ "nsweeps:" ++ fmt_d (load_i32 le cnst 4) ++ nl
      ++ "nsamples:" ++ fmt_d (load_i32 le cnst 8) ++ nl
      ++ "iqindicator:" ++ fmt_d (load_i32 le cnst 12) ++ nl
      ++ nl)%string.

Definition dump_block_swep (h : platform) (n : node) (c : config h)
  : outcome (config h * string) :=
  let le := little_endian h in
  if size n <? sizeof_block_swep then Err TruncatedBlock else
  _ <- within sizeof_block_swep (data n) ;;
  let swep := data n in
  Ok (c,
      strkey h KEY_swep ++ nl
      ++ "samplespersweep:" ++ fmt_d (load_i32 le swep 0) ++ nl
      ++ "sweepstart:" ++ printf_lf h (load_double h swep 4) ++ nl
      ++ "sweepbandwidth:" ++ printf_lf h (load_double h swep 12) ++ nl
      ++ "sweeprate:" ++ printf_lf h (load_double h swep 20) ++ nl
      ++ "rangeoffset:" ++ fmt_d (load_i32 le swep 28) ++ nl
      ++ nl)%string.

Definition dump_block_fbin (h : platform) (n : node) (c : config h)
  : outcome (config h * string) :=
  let le := little_endian h in
  if size n <? sizeof_block_fbin then Err TruncatedBlock else
  _ <- within sizeof_block_fbin (data n) ;;
  let fbin := data n in
  let c := {| bin_type := load_u32 le fbin 4;   (* remember this for alvl *)
              scalar_one := scalar_one c;
              scalar_two := scalar_two c |} in
  Ok (c,
      strkey h KEY_fbin ++ nl
      ++ "format:" ++ strkey h (load_u32 le fbin 0) ++ nl
      ++ "type:" ++ strkey h (load_u32 le fbin 4) ++ nl
      ++ nl)%string.

Definition dump_block_gtag (h : platform) (n : node) (c : config h)
  : outcome (config h * string) :=
  let le := little_endian h in
  if size n <? sizeof_block_gtag then Err TruncatedBlock else
  _ <- within sizeof_block_gtag (data n) ;;
  Ok (c,
      strkey h KEY_gtag ++ nl
      ++ "gtag:" ++ fmt_u (load_u32 le (data n) 0) ++ nl
      ++ nl)%string.

Definition dump_block_atag (h : platform) (n : node) (c : config h)
  : outcome (config h * string) :=
  let le := little_endian h in
  if size n <? sizeof_block_atag then Err TruncatedBlock else
  _ <- within sizeof_block_atag (data n) ;;
  Ok (c,
      strkey h KEY_atag ++ nl
      ++ "atag:" ++ fmt_u (load_u32 le (data n) 0) ++ nl
      ++ nl)%string.

Definition dump_block_indx (h : platform) (n : node) (c : config h)
  : outcome (config h * string) :=
  let le := little_endian h in
  if size n <? sizeof_block_indx then Err TruncatedBlock else
  _ <- within sizeof_block_indx (data n) ;;
  Ok (c,
      strkey h KEY_indx ++ nl
      ++ "index:" ++ fmt_u (load_u32 le (data n) 0) ++ nl
      ++ nl)%string.

Definition dump_block_scal (h : platform) (n : node) (c : config h)
  : outcome (config h * string) :=
  if size n <? sizeof_block_scal then Err TruncatedBlock else
  _ <- within sizeof_block_scal (data n) ;;
  let scal := data n in
  let c := {| bin_type := bin_type c;
              scalar_one := load_double h scal 0;    (* remember these *)
              scalar_two := load_double h scal 8 |} in
  Ok (c,
      strkey h KEY_scal ++ nl
      ++ "scalar_one:" ++ printf_lf h (load_double h scal 0) ++ nl
      ++ "scalar_two:" ++ printf_lf h (load_double h scal 8) ++ nl
      ++ nl)%string.

(** *** The scaled sample codec *)

(** The [switch] on [config->bin_type]: the full-scale value, or nothing
    in the [default] case. *)
Definition bin_factor (a : arith) (bt : Z) : option (double a) :=
  if bt =? BINTYPE_FLT4 then Some (double_of_int a 1)
  else if bt =? BINTYPE_FIX2 then Some (double_of_int a 0x7FFF)
  else if bt =? BINTYPE_FIX3 then Some (double_of_int a 0x7FFFFF)
  else if bt =? BINTYPE_FIX4 then Some (double_of_int a 0x7FFFFFFF)
  else None.

(** [(double)isample/factor*config->scalar_one]. *)
Definition decode_sample (a : arith) (factor scalar : double a) (sample : Z)
  : double a :=
  fmul a (fdiv a (double_of_int a sample) factor) scalar.

(** [i_scaled = (i/config->scalar_one)*factor; int i_int = round(i_scaled);
    alvl_data->isample = i_int]: the value the 16-bit field then holds. *)
Definition encode_sample (a : arith) (factor scalar : double a) (v : double a)
  : Z :=
  let scaled := fmul a (fdiv a v scalar) factor in
  let i_int := int_of_round a scaled in
  wrap16s i_int.

Fixpoint dump_alvl_loop (h : platform) (factor : double (ar h)) (c : config h)
    (loops : nat) (off : nat) (mem : list byte) : string :=
  match loops with
  | O => ""
  | S k =>
      let le := little_endian h in
      let isample := load_i16 le mem off in
      let qsample := load_i16 le mem (off + 2) in
      let scaled_i := decode_sample (ar h) factor (scalar_one c) isample in
      let scaled_q := decode_sample (ar h) factor (scalar_two c) qsample in
      ("i:" ++ printf_lf h scaled_i ++ nl
       ++ "q:" ++ printf_lf h scaled_q ++ nl
       ++ dump_alvl_loop h factor c k (off + 4) mem)%string
  end.

Definition dump_block_alvl (h : platform) (n : node) (c : config h)
  : outcome (config h * string) :=
  if size n <? sizeof_block_alvl then Err TruncatedBlock else
  match bin_factor (ar h) (bin_type c) with
  | None => Err MissingContext
  | Some factor =>
      let nsamples := size n / sizeof_block_alvl in
      _ <- within (nsamples * sizeof_block_alvl) (data n) ;;
      Ok (c,
          strkey h KEY_alvl ++ nl
          ++ dump_alvl_loop h factor c (Z.to_nat nsamples) 0 (data n)
          ++ nl)%string
  end.

(** ** The per-block operations: build ([make_node_*])

    The text file is the list of its lines from the file position on, each
    without its newline (every line is taken to end in a newline and to be
    shorter than [SIZE_LINE]).  Every [make_node_*] that succeeds leaves the
    file position where it found it ([read_parameter],
    [count_alvl_lines] and [read_alvl_samples] seek back), so the lines are
    only read.  Each returns the new node and the context as it leaves it. *)

Definition strlen (line : string) : Z := Z.of_nat (String.length line).

(** [read_parameter(fd, format, buffer)]: the value returned and the bytes
    stored through [buffer].  At the end of the file [err] is still 0. *)
Fixpoint read_parameter (h : platform) (fd : list string) (format : string)
  : Z * list byte :=
  match fd with
  | [] => (0, [])
  | line :: rest =>
      if strlen line =? 0 then (1, [])       (* stop on blank line *)
      else
        let (count, stored) := sscanf h line format in
        if negb (count =? 0) then (0, stored)
        else read_parameter h rest format
  end.

(** *** Formats *)

Definition digit_of (base : Z) (c : ascii) : option Z :=
  let n := Z.of_nat (nat_of_ascii c) in
  let v :=
    if (48 <=? n) && (n <=? 57) then n - 48
    else if (97 <=? n) && (n <=? 102) then n - 87
    else if (65 <=? n) && (n <=? 70) then n - 55
    else 99 in
  if v <? base then Some v else None.

(** The digits at the front of [cs]: their value, their number, the rest. *)
Fixpoint take_digits (base : Z) (acc : Z) (count : nat) (cs : list ascii)
  : Z * nat * list ascii :=
  match cs with
  | c :: t =>
      match digit_of base c with
      | Some v => take_digits base (acc * base + v) (S count) t
      | None => (acc, count, cs)
      end
  | [] => (acc, count, [])
  end.

(** The literal text of a format up to its ["%"], and the conversion
    behind it. *)
Fixpoint split_format (fmt : list ascii) : list ascii * list ascii :=
  match fmt with
  | [] => ([], [])
  | c :: t =>
      if Ascii.eqb c "%" then ([], t)
      else let (lit, conv) := split_format t in (c :: lit, conv)
  end.

(** The object [sscanf] stores through for the one conversion of a
    format: four bytes for ["%u"], ["%d"] and ["%x"] (an [unsigned] or an
    [int]), eight for ["%lf"], [N] for ["%Nc"], and [N + 1] for ["%Ns"],
    which stores up to [N] characters and a terminating NUL. *)
Definition conversion_size (format : string) : nat :=
  let (_, conv) := split_format (list_ascii_of_string format) in
  let '(width, count, kind) := take_digits 10 0 0 conv in
  let width := if (count =? 0)%nat then 1%nat else Z.to_nat width in
  match kind with
  | ["u"%char] => 4%nat
  | ["d"%char] => 4%nat
  | ["x"%char] => 4%nat
  | ["l"%char; "f"%char] => 8%nat
  | ["c"%char] => width
  | ["s"%char] => S width
  | _ => 0%nat
  end.

(** [if( read_parameter(fd, format, &(s->field)) ) return 1 ;] for the field
    at offset [off] of the struct at [mem], a block of [length mem] bytes
    that [malloc] returned.  [sscanf] stores no more than the object of the
    conversion.  A store that ends behind the bytes the code asked [malloc]
    for is outside the block: a [Fault], unless the allocation itself holds
    the bytes ([malloc_usable_size]); the block keeps what lies inside
    it. *)
Definition read_field (h : platform) (fd : list string) (format : string)
    (off : nat) (mem : list byte) : outcome (list byte) :=
  let (err, stored) := read_parameter h fd format in
  let stored := firstn (conversion_size format) stored in
  let allocated := Nat.max (length mem) (malloc_usable_size h (length mem)) in
  if negb (length stored =? 0)%nat && (allocated <? off + length stored)%nat
  then Fault
  else if negb (err =? 0) then Err MalformedParameter
  else Ok (blit mem off stored).

(** [malloc] and [memset(.., 0, ..)] of a data block. *)
Definition zeros (bytes : Z) : list byte := repeat x00 (Z.to_nat bytes).

Definition make_superblock (k : Z) (h : platform) (c : config h)
    (fd : list string) : outcome (node * config h) :=
  Ok ({| key := k; size := 0; data := [] |}, c).

Definition make_node_aqlv := make_superblock KEY_AQLV.
Definition make_node_head := make_superblock KEY_HEAD.
Definition make_node_body := make_superblock KEY_BODY.
Definition make_node_end := make_superblock KEY_END.

Definition make_node_sign (h : platform) (c : config h) (fd : list string)
  : outcome (node * config h) :=
  let sign := zeros sizeof_block_sign in
  sign <- read_field h fd "version:%4c" 0 sign ;;
  sign <- read_field h fd "filetype:%4c" 4 sign ;;
  sign <- read_field h fd "sitecode:%4c" 8 sign ;;
  sign <- read_field h fd "userflags:%x" 12 sign ;;
  sign <- read_field h fd "description:%64c" 16 sign ;;
  sign <- read_field h fd "ownername:%64c" 80 sign ;;
  sign <- read_field h fd "comment:%64c" 144 sign ;;
  Ok ({| key := KEY_sign; size := sizeof_block_sign; data := sign |}, c).

Definition make_node_mcda (h : platform) (c : config h) (fd : list string)
  : outcome (node * config h) :=
  let le := little_endian h in
  let mcda := zeros sizeof_block_mcda in
  mcda <- read_field h fd "timestamp:%u" 0 mcda ;;
  (* mcda->timestamp += 2082844800 *)
  let timestamp := wrap32 (load_u32 le mcda 0 + 2082844800) in
  let mcda := blit mcda 0 (store_uint le 4 timestamp) in
  Ok ({| key := KEY_mcda; size := sizeof_block_mcda; data := mcda |}, c).

Definition make_node_cnst (h : platform) (c : config h) (fd : list string)
  : outcome (node * config h) :=
  let cnst := zeros sizeof_block_cnst in
  cnst <- read_field h fd "nchannels:%d" 0 cnst ;;
  cnst <- read_field h fd "nsweeps:%d" 4 cnst ;;
  cnst <- read_field h fd "nsamples:%d" 8 cnst ;;
  cnst <- read_field h fd "iqindicator:%d" 12 cnst ;;
  Ok ({| key := KEY_cnst; size := sizeof_block_cnst; data := cnst |}, c).

Definition make_node_swep (h : platform) (c : config h) (fd : list string)
  : outcome (node * config h) :=
  let swep := zeros sizeof_block_swep in
  swep <- read_field h fd "samplespersweep:%d" 0 swep ;;
  swep <- read_field h fd "sweepstart:%lf" 4 swep ;;
  swep <- read_field h fd "sweepbandwidth:%lf" 12 swep ;;
  swep <- read_field h fd "sweeprate:%lf" 20 swep ;;
  swep <- read_field h fd "rangeoffset:%d" 28 swep ;;
  Ok ({| key := KEY_swep; size := sizeof_block_swep; data := swep |}, c).

(** The two fields are read as strings of four characters, then
    byte-swapped into integers.  [sscanf] stores the characters and a
    terminating NUL: five bytes for a word of four.  The NUL of
    [bin_format] lands on the first byte of [bin_type], which is read next;
    the NUL of [bin_type] lands one byte behind the
    [sizeof(struct block_fbin)] bytes of the block ([read_field]). *)
Definition make_node_fbin (h : platform) (c : config h) (fd : list string)
  : outcome (node * config h) :=
  let le := little_endian h in
  let fbin := zeros sizeof_block_fbin in
  fbin <- read_field h fd "format:%4s" 0 fbin ;;
  let fbin := endian_fixup_at le fbin 0 4 in
  fbin <- read_field h fd "type:%4s" 4 fbin ;;
  let fbin := endian_fixup_at le fbin 4 4 in
  let c := {| bin_type := load_u32 le fbin 4;     (* remember this for alvl *)
              scalar_one := scalar_one c;
              scalar_two := scalar_two c |} in
  Ok ({| key := KEY_fbin; size := sizeof_block_fbin; data := fbin |}, c).

Definition make_node_gtag (h : platform) (c : config h) (fd : list string)
  : outcome (node * config h) :=
  let gtag := zeros sizeof_block_gtag in
  gtag <- read_field h fd "gtag:%u" 0 gtag ;;
  Ok ({| key := KEY_gtag; size := sizeof_block_gtag; data := gtag |}, c).

Definition make_node_atag (h : platform) (c : config h) (fd : list string)
  : outcome (node * config h) :=
  let atag := zeros sizeof_block_atag in
  atag <- read_field h fd "atag:%u" 0 atag ;;
  Ok ({| key := KEY_atag; size := sizeof_block_atag; data := atag |}, c).

Definition make_node_indx (h : platform) (c : config h) (fd : list string)
  : outcome (node * config h) :=
  let indx := zeros sizeof_block_indx in
  indx <- read_field h fd "index:%u" 0 indx ;;
  Ok ({| key := KEY_indx; size := sizeof_block_indx; data := indx |}, c).

Definition make_node_scal (h : platform) (c : config h) (fd : list string)
  : outcome (node * config h) :=
  let scal := zeros sizeof_block_scal in
  scal <- read_field h fd "scalar_one:%lf" 0 scal ;;
  scal <- read_field h fd "scalar_two:%lf" 8 scal ;;
  let c := {| bin_type := bin_type c;
              scalar_one := load_double h scal 0;    (* remember these *)
              scalar_two := load_double h scal 8 |} in
  Ok ({| key := KEY_scal; size := sizeof_block_scal; data := scal |}, c).

(** [count_alvl_lines]: the lines before the next empty line.  The source
    counts in an [int]: the embedding is that of the C code for a stanza
    of less than 2^31 lines. *)
Fixpoint count_alvl_lines (fd : list string) : Z :=
  match fd with
  | [] => 0
  | line :: rest =>
      if strlen line <? 1 then 0 else 1 + count_alvl_lines rest
  end.

(** ["i:%lf"] and ["q:%lf"] must convert one value. *)
Definition scan_double (h : platform) (line format : string)
  : outcome (double (ar h)) :=
  let (convert_count, stored) := sscanf h line format in
  if negb (convert_count =? 1) then Err MalformedParameter
  else Ok (double_of_bits h (load_uint (little_endian h) stored)).

(** The [for] loop of [read_alvl_samples]: [samples] pairs are left and
    [alvl_data] stands at offset [off]. *)
Fixpoint read_alvl_loop (h : platform) (factor : double (ar h)) (c : config h)
    (samples : nat) (off : nat) (fd : list string) (mem : list byte)
  : outcome (list byte) :=
  match samples with
  | O => Ok mem
  | S k =>
      match fd with
      | line1 :: line2 :: rest =>
          if strlen line1 =? 0 then Err MalformedParameter
          else if strlen line2 =? 0 then Err MalformedParameter
          else
            i <- scan_double h line1 "i:%lf" ;;
            q <- scan_double h line2 "q:%lf" ;;
            let le := little_endian h in
            let isample := encode_sample (ar h) factor (scalar_one c) i in
            let qsample := encode_sample (ar h) factor (scalar_two c) q in
            let mem := blit mem off (store_uint le 2 isample) in
            let mem := blit mem (off + 2) (store_uint le 2 qsample) in
            read_alvl_loop h factor c k (off + 4) rest mem
      | _ => Err MalformedParameter          (* [fgets] returned NULL *)
      end
  end.

Definition read_alvl_samples (h : platform) (alvl_data : list byte)
    (alvl_samples : Z) (c : config h) (fd : list string)
  : outcome (list byte) :=
  match bin_factor (ar h) (bin_type c) with
  | None => Err MissingContext
  | Some factor =>
      read_alvl_loop h factor c (Z.to_nat alvl_samples) 0 fd alvl_data
  end.

Definition make_node_alvl (h : platform) (c : config h) (fd : list string)
  : outcome (node * config h) :=
  let alvl_lines := count_alvl_lines fd in
  if alvl_lines <=? 0 then Err MalformedParameter
  else if alvl_lines mod 2 =? 1 then Err OddSampleCount
  else
    let alvl_samples := alvl_lines / 2 in
    let alvl_size := alvl_samples * sizeof_block_alvl in
    let alvl_data := zeros alvl_size in
    alvl_data <- read_alvl_samples h alvl_data alvl_samples c fd ;;
    Ok ({| key := KEY_alvl; size := wrap32 alvl_size; data := alvl_data |}, c).

(** ** The block type registry: [Global_function_dictionary],
       [find_block_functions] *)

Record block_functions (h : platform) : Type := {
  bf_key : Z;
  fixup : node -> outcome (list byte);
  make : config h -> list string -> outcome (node * config h);
  dump : node -> config h -> outcome (config h * string);
  gen : node -> outcome (node * list byte)
}.

Arguments bf_key {h} b.
Arguments fixup {h} b.
Arguments make {h} b.
Arguments dump {h} b.
Arguments gen {h} b.

Definition Global_function_dictionary (h : platform)
  : list (block_functions h) :=
  [ {| bf_key := KEY_alvl; fixup := fixup_data_alvl h; make := make_node_alvl h;
       dump := dump_block_alvl h; gen := gen_block_alvl h |};
    {| bf_key := KEY_gtag; fixup := fixup_data_gtag h; make := make_node_gtag h;
       dump := dump_block_gtag h; gen := gen_block_gtag h |};
    {| bf_key := KEY_atag; fixup := fixup_data_atag h; make := make_node_atag h;
       dump := dump_block_atag h; gen := gen_block_atag h |};
    {| bf_key := KEY_indx; fixup := fixup_data_indx h; make := make_node_indx h;
       dump := dump_block_indx h; gen := gen_block_indx h |};
    {| bf_key := KEY_scal; fixup := fixup_data_scal h; make := make_node_scal h;
       dump := dump_block_scal h; gen := gen_block_scal h |};
    {| bf_key := KEY_sign; fixup := fixup_data_sign h; make := make_node_sign h;
       dump := dump_block_sign h; gen := gen_block_sign h |};
    {| bf_key := KEY_mcda; fixup := fixup_data_mcda h; make := make_node_mcda h;
       dump := dump_block_mcda h; gen := gen_block_mcda h |};
    {| bf_key := KEY_cnst; fixup := fixup_data_cnst h; make := make_node_cnst h;
       dump := dump_block_cnst h; gen := gen_block_cnst h |};
    {| bf_key := KEY_swep; fixup := fixup_data_swep h; make := make_node_swep h;
       dump := dump_block_swep h; gen := gen_block_swep h |};
    {| bf_key := KEY_fbin; fixup := fixup_data_fbin h; make := make_node_fbin h;
       dump := dump_block_fbin h; gen := gen_block_fbin h |};
    {| bf_key := KEY_AQLV; fixup := fixup_data_aqlv h; make := make_node_aqlv h;
       dump := dump_block_aqlv h; gen := gen_block_aqlv h |};
    {| bf_key := KEY_HEAD; fixup := fixup_data_head h; make := make_node_head h;
       dump := dump_block_head h; gen := gen_block_head h |};
    {| bf_key := KEY_BODY; fixup := fixup_data_body h; make := make_node_body h;
       dump := dump_block_body h; gen := gen_block_body h |};
    {| bf_key := KEY_END; fixup := fixup_data_end h; make := make_node_end h;
       dump := dump_block_end h; gen := gen_block_end h |} ].

Definition find_block_functions (h : platform) (k : Z)
  : option (block_functions h) :=
  if k =? 0 then None
  else find (fun bf => k =? bf_key bf) (Global_function_dictionary h).

Definition fixup_data (h : platform) (n : node) : outcome (list byte) :=
  match find_block_functions h (key n) with
  | None => Err UnknownBlockType
  | Some block_functions => fixup block_functions n
  end.

(** ** The binary decoder: [parse_block], [parse_file]

    [buffer] is the file buffer from the pointer [buffer] to its end and
    [len] the [unsigned long length] (64 bits).  The result is the list of
    the nodes linked behind [root] and the buffer as the in-place fix-ups
    leave it.  Each node keeps the [size] bytes its [data] points at.  The
    recursion of the source is not structural: [fuel] bounds the number of
    nested calls and loop iterations, and [None] is its exhaustion. *)
Fixpoint parse_block (h : platform) (fuel : nat) (buffer : list byte) (len : Z)
  : option (outcome (list node * list byte)) :=
  match fuel with
  | O => None
  | S fuel =>
      if negb (len >? 0) then Some (Ok ([], buffer))
      else if (length buffer <? 8)%nat then Some Fault   (* header outside *)
      else
        let le := little_endian h in
        let buffer := endian_fixup_at le buffer 0 4 in
        let k := load_u32 le buffer 0 in
        let buffer := endian_fixup_at le buffer 4 4 in
        let sz := load_u32 le buffer 4 in
        let header := firstn 8 buffer in
        let len := wrap64 (len - sizeof_block_header) in
        let buffer := skipn 8 buffer in
        let sz := if sz >? len then len else sz in   (* truncated *)
        let newnode := {| key := k; size := sz; data := buffer |} in
        let inner :=
          if superblock k then parse_block h fuel buffer sz
          else
            Some (mem <- fixup_data h newnode ;; Ok ([], mem)) in
        match inner with
        | None => None
        | Some (Err e) => Some (Err e)
        | Some Fault => Some Fault
        | Some (Ok (sub, buffer)) =>
            let block := firstn (Z.to_nat sz) buffer in
            let len := wrap64 (len - sz) in
            match parse_block h fuel (skipn (Z.to_nat sz) buffer) len with
            | None => None
            | Some (Err e) => Some (Err e)
            | Some Fault => Some Fault
            | Some (Ok (rest, buffer')) =>
                Some (Ok ({| key := k; size := sz; data := block |}
                            :: sub ++ rest,
                          header ++ block ++ buffer'))
            end
        end
  end.

(** [parse_file(buffer, length)] with [length] the size of [buffer], as
    [tsdump] calls it.  [dummy_root] is a local variable that nothing
    initialises: when [parse_block] links no node behind it (the buffer is
    empty), the [dummy_root.next] that is returned was never set. *)
Definition parse_file (h : platform) (buffer : list byte)
  : outcome (list node) :=
  match parse_block h (S (length buffer)) buffer (Z.of_nat (length buffer)) with
  | Some (Ok ([], _)) => Fault
  | Some (Ok (nodes, _)) => Ok nodes
  | Some (Err e) => Err e
  | Some Fault => Fault
  | None => Fault
  end.

(** ** The text renderer: [dump_list] *)

(** The loop of [dump_list] from a node on, with the context as it is
    there: how the call ends, and the text printed.  The function pointer
    compared with [dump_block_body] belongs to the entry of [KEY_BODY]
    alone. *)
Fixpoint dump_list_from (h : platform) (c : config h) (lst : list node)
    (just_header : bool) : outcome unit * string :=
  match lst with
  | [] => (Ok tt, ""%string)
  | n :: next =>
      match find_block_functions h (key n) with
      | None => (Err UnknownBlockType, ""%string)
      | Some block_functions =>
          if just_header && (bf_key block_functions =? KEY_BODY)
          then (Ok tt, ""%string)
          else
            match dump block_functions n c with
            | Ok (c, text) =>
                let (status, more) := dump_list_from h c next just_header in
                (status, (text ++ more)%string)
            | Err e => (Err e, ""%string)
            | Fault => (Fault, ""%string)
            end
      end
  end.

Definition dump_list (h : platform) (lst : list node) (just_header : bool)
  : outcome unit * string :=
  dump_list_from h (config_zero h) lst just_header.

(** ** The binary serializer: [ts_write] *)

(** How the call ends, the bytes written to [outfile], and the list as
    the call leaves it. *)
Fixpoint ts_write (h : platform) (lst : list node)
  : outcome unit * list byte * list node :=
  match lst with
  | [] => (Ok tt, [], [])
  | n :: next =>
      match find_block_functions h (key n) with
      | None => (Err UnknownBlockType, [], lst)
      | Some block_functions =>
          match gen block_functions n with
          | Ok (n', bytes) =>
              let '(status, more, next') := ts_write h next in
              (status, bytes ++ more, n' :: next')
          | Err e => (Err e, [], lst)
          | Fault => (Fault, [], lst)
          end
      end
  end.

(** ** The two passes: [tsgen] and [tsdump] *)

Definition has_colon (line : string) : bool :=
  existsb (Ascii.eqb ":"%char) (list_ascii_of_string line).

(** [fourcc key = *(fourcc * )line; endian_fixup(&key, sizeof(key))]: the
    first four bytes of the line buffer, which holds the line, then NULs
    in place of its newline and behind it. *)
Definition key_of_line (h : platform) (line : string) : Z :=
  let le := little_endian h in
  let buf := list_byte_of_string line ++ [x00; x00] in
  load_uint le (endian_fixup le (firstn 4 buf) 4).

(** The [while( fgets(..) )] loop of [tsgen]: the nodes appended behind
    [root] and the context. *)
Fixpoint tsgen_loop (h : platform) (c : config h) (infile : list string)
  : outcome (list node * config h) :=
  match infile with
  | [] => Ok ([], c)
  | line :: rest =>
      if strlen line <=? 1 then tsgen_loop h c rest       (* empty lines *)
      else if has_colon line then tsgen_loop h c rest     (* parameters *)
      else
        let k := key_of_line h line in
        match find_block_functions h k with
        | None => Err UnknownBlockType
        | Some block_functions =>
            '(n, c) <- make block_functions c rest ;;
            '(nodes, c) <- tsgen_loop h c rest ;;
            Ok (n :: nodes, c)
        end
  end.

(** [tsgen(infile, outfile)]: how it ends and the bytes written.  The value
    [fixup_sizes] returns is not looked at.  When the loop ends [list]
    stands on the last node built, or still on [root], a local variable,
    when no node was built: [free_all_nodes_and_data(list)] then hands
    [free] the address of [root]. *)
Definition tsgen (h : platform) (infile : list string)
  : outcome unit * list byte :=
  match tsgen_loop h (config_zero h) infile with
  | Err e => (Err e, [])
  | Fault => (Fault, [])
  | Ok (nodes, _) =>
      let root := node_zero in
      let (_, lst) := fixup_sizes (root :: nodes) in
      let '(err, out, _) := ts_write h (tl lst) in
      match nodes with
      | [] => (Fault, out)          (* free(&root) *)
      | _ :: _ => (err, out)
      end
  end.

(** [tsdump] past the reading of the file into its buffer (which [malloc]
    is taken to have returned, also for an empty file): [check_header] on
    a file longer than a block header, [parse_file], [dump_list].  A file
    that fails [check_header] or [parse_file] makes [tsdump] return 0 with
    nothing written. *)
Definition check_header (h : platform) (buffer : list byte) : bool :=
  let le := little_endian h in
  let k := load_uint le (endian_fixup le (firstn 4 buffer) 4) in
  negb (k =? KEY_AQLV).

Definition tsdump (h : platform) (filedata : list byte) (just_header : bool)
  : outcome unit * string :=
  if (8 <? length filedata)%nat && check_header h filedata
  then (Ok tt, ""%string)
  else
    match parse_file h filedata with
    | Ok lst => dump_list h lst just_header
    | Err _ => (Ok tt, ""%string)
    | Fault => (Fault, ""%string)
    end.

(** ** The double arithmetic, and a reference platform

    [ieee] is IEEE-754 binary64 as the kernel's primitive floats compute
    it; an out-of-range conversion to [int] gives the value x86-64 gives
    (the most negative [int]).  [reference] is a platform for running the
    model on concrete inputs: its [sscanf] handles the formats the program
    uses, on decimal input, and its allocator rounds requests up as the
    GNU C library does on 64 bits (chunks of a multiple of 16 bytes, 8 of
    them the allocator's own, 24 usable bytes at least). *)

(** [m * 2^e] rounded to the nearest integer, halves away from zero. *)
Definition round_half_away (m : positive) (e : Z) : Z :=
  if 0 <=? e then Zpos m * 2 ^ e
  else
    let d := 2 ^ (- e) in
    let q := Zpos m / d in
    let r := Zpos m mod d in
    if 2 * r >=? d then q + 1 else q.

Definition ieee_int_of_round (x : float) : Z :=
  match Prim2SF x with
  | S754_zero _ => 0
  | S754_finite s m e =>
      let r := round_half_away m e in
      let v := if s then - r else r in
      if (-2147483648 <=? v) && (v <=? 2147483647) then v else -2147483648
  | _ => -2147483648
  end.

Definition ieee_of_int (z : Z) : float :=
  if z <? 0 then PrimFloat.opp (PrimFloat.of_uint63 (Uint63.of_Z (- z)))
  else PrimFloat.of_uint63 (Uint63.of_Z z).

Definition ieee : arith :=
  {| double := float;
     fdiv := PrimFloat.div;
     fmul := PrimFloat.mul;
     double_of_int := ieee_of_int;
     int_of_round := ieee_int_of_round |}.

(** The binary64 value of a 64-bit pattern. *)
Definition ieee_of_bits (b : Z) : float :=
  let s := Z.testbit b 63 in
  let ex := (b / 2 ^ 52) mod 2048 in
  let frac := b mod 2 ^ 52 in
  if ex =? 2047 then
    if frac =? 0 then (if s then neg_infinity else infinity) else nan
  else if ex =? 0 then
    match frac with
    | Zpos p => SF2Prim (S754_finite s p (-1074))
    | _ => SF2Prim (S754_zero s)
    end
  else
    match (2 ^ 52 + frac)%Z with
    | Zpos p => SF2Prim (S754_finite s p (ex - 1075)%Z)
    | _ => nan
    end.

(** [n / (d * 2^e)] rounded to the nearest integer, halves to even. *)
Definition rne (n d e : Z) : Z :=
  let num := if e <? 0 then n * 2 ^ (- e) else n in
  let den := if e <? 0 then d else d * 2 ^ e in
  let q := num / den in
  let r := num mod den in
  if 2 * r <? den then q
  else if den <? 2 * r then q + 1
  else if Z.even q then q else q + 1.

(** The 64-bit pattern of the binary64 nearest to [(-1)^neg * n / d]
    ([0 <= n], [0 < d]). *)
Definition bits_of_ratio (neg : bool) (n d : Z) : Z :=
  let sign := if neg then 2 ^ 63 else 0 in
  if n =? 0 then sign
  else
    let e0 := Z.max (Z.log2 n - Z.log2 d - 53) (-1074) in
    let e :=
      if rne n d e0 <? 2 ^ 53 then e0
      else if rne n d (e0 + 1) <? 2 ^ 53 then e0 + 1
      else e0 + 2 in
    let m := rne n d e in
    if 971 <? e then sign + 2047 * 2 ^ 52
    else if m <? 2 ^ 52 then sign + m
    else sign + (e + 1075) * 2 ^ 52 + (m - 2 ^ 52).

Definition is_space (c : ascii) : bool :=
  let n := nat_of_ascii c in
  (n =? 32)%nat || ((9 <=? n)%nat && (n <=? 13)%nat).

Fixpoint skip_spaces (cs : list ascii) : list ascii :=
  match cs with
  | c :: t => if is_space c then skip_spaces t else cs
  | [] => []
  end.

Definition take_sign (cs : list ascii) : bool * list ascii :=
  match cs with
  | "-"%char :: t => (true, t)
  | "+"%char :: t => (false, t)
  | _ => (false, cs)
  end.

(** The result of one conversion: the bytes stored, a matching failure
    ([sscanf] returns 0), or the end of the input ([EOF], -1). *)
Inductive conversion : Type :=
| Stored (bs : list byte)
| NoMatch
| EndOfInput.

(** ["%u"], ["%d"] and ["%x"]: [strtoul] or [strtol] on 64 bits, the value
    then cut to the four bytes of the field. *)
Definition scan_integer (le : bool) (base : Z) (signed : bool)
    (cs : list ascii) : conversion :=
  match skip_spaces cs with
  | [] => EndOfInput
  | cs =>
      let (neg, cs) := take_sign cs in
      let cs :=
        match cs with
        | "0"%char :: x :: d :: t =>
            if (base =? 16) && (Ascii.eqb x "x" || Ascii.eqb x "X")
               && (match digit_of 16 d with Some _ => true | None => false end)
            then d :: t else cs
        | _ => cs
        end in
      let '(v, count, _) := take_digits base 0 0 cs in
      if (count =? 0)%nat then NoMatch
      else
        let v :=
          if signed then
            (if neg then Z.max (- v) (- 2 ^ 63) else Z.min v (2 ^ 63 - 1))
          else
            (if 2 ^ 64 <=? v then 2 ^ 64 - 1 else if neg then - v else v) in
        Stored (store_uint le 4 (wrap32 v))
  end.

Definition bytes_of_chars (cs : list ascii) : list byte :=
  map byte_of_ascii cs.

(** ["%Nc"]: up to [n] characters, no terminator. *)
Definition scan_chars (n : nat) (cs : list ascii) : conversion :=
  match cs with
  | [] => EndOfInput
  | _ => Stored (bytes_of_chars (firstn n cs))
  end.

Fixpoint take_word (n : nat) (cs : list ascii) : list ascii :=
  match n, cs with
  | S k, c :: t => if is_space c then [] else c :: take_word k t
  | _, _ => []
  end.

(** ["%Ns"]: up to [n] characters that are not spaces, and a NUL. *)
Definition scan_word (n : nat) (cs : list ascii) : conversion :=
  match skip_spaces cs with
  | [] => EndOfInput
  | cs => Stored (bytes_of_chars (take_word n cs) ++ [x00])
  end.

(** ["%lf"] on decimal input: sign, digits, fraction, exponent. *)
Definition scan_float (le : bool) (cs : list ascii) : conversion :=
  match skip_spaces cs with
  | [] => EndOfInput
  | cs =>
      let (neg, cs) := take_sign cs in
      let '(ip, icount, cs) := take_digits 10 0 0 cs in
      let '(fp, fcount, cs) :=
        match cs with
        | "."%char :: t => take_digits 10 ip 0 t
        | _ => (ip, O, cs)
        end in
      if ((icount + fcount)%nat =? 0)%nat then NoMatch
      else
        let ex :=
          match cs with
          | e :: t =>
              if Ascii.eqb e "e" || Ascii.eqb e "E" then
                let (eneg, t) := take_sign t in
                let '(ev, ecount, _) := take_digits 10 0 0 t in
                if (ecount =? 0)%nat then 0 else if eneg then - ev else ev
              else 0
          | [] => 0
          end in
        let ex := ex - Z.of_nat fcount in
        let n := if 0 <=? ex then fp * 10 ^ ex else fp in
        let d := if 0 <=? ex then 1 else 10 ^ (- ex) in
        Stored (store_uint le 8 (bits_of_ratio neg n d))
  end.

(** The literal text against the line: [None] on a character that
    differs, [Some None] when the line ends first, and the rest of the
    line otherwise. *)
Fixpoint match_literal (lit line : list ascii)
  : option (option (list ascii)) :=
  match lit, line with
  | [], _ => Some (Some line)
  | _ :: _, [] => Some None
  | c :: lit', d :: line' =>
      if Ascii.eqb c d then match_literal lit' line' else None
  end.

Definition reference_conversion (le : bool) (conv : list ascii)
    (cs : list ascii) : conversion :=
  let '(width, count, kind) := take_digits 10 0 0 conv in
  let width := if (count =? 0)%nat then 1%nat else Z.to_nat width in
  match kind with
  | ["u"%char] => scan_integer le 10 false cs
  | ["d"%char] => scan_integer le 10 true cs
  | ["x"%char] => scan_integer le 16 false cs
  | ["c"%char] => scan_chars width cs
  | ["s"%char] => scan_word width cs
  | ["l"%char; "f"%char] => scan_float le cs
  | _ => NoMatch
  end.

Definition reference_sscanf (le : bool) (line format : string)
  : Z * list byte :=
  let (lit, conv) := split_format (list_ascii_of_string format) in
  match match_literal lit (list_ascii_of_string line) with
  | None => (0, [])
  | Some None => (-1, [])
  | Some (Some rest) =>
      match reference_conversion le conv rest with
      | Stored bs => (1, bs)
      | NoMatch => (0, [])
      | EndOfInput => (-1, [])
      end
  end.

(** [n] in decimal on at least [width] digits. *)
Definition pad_digits (width : nat) (n : Z) : string :=
  let s := fmt_u n in
  (string_of_list_ascii (repeat "0"%char (width - String.length s)) ++ s)%string.

Definition pad_spaces (width : nat) (s : string) : string :=
  (string_of_list_ascii (repeat " "%char (width - String.length s)) ++ s)%string.

(** ["%.20lf"] of a binary64: its exact value on twenty decimals, halves to
    even. *)
Definition reference_printf_lf (x : float) : string :=
  match Prim2SF x with
  | S754_nan => "nan"%string
  | S754_infinity s => if s then "-inf"%string else "inf"%string
  | S754_zero s =>
      ((if s then "-" else "") ++ "0." ++ pad_digits 20 0)%string
  | S754_finite s m e =>
      let n := rne (Zpos m * 10 ^ 20) 1 (- e) in
      ((if s then "-" else "") ++ fmt_u (n / 10 ^ 20) ++ "."
       ++ pad_digits 20 (n mod 10 ^ 20))%string
  end.

(** [ctime] in the time zone UTC. *)
Definition reference_ctime (t : Z) : string :=
  let days := t / 86400 in
  let secs := t mod 86400 in
  let z := days + 719468 in
  let era := z / 146097 in
  let doe := z - era * 146097 in
  let yoe := (doe - doe / 1460 + doe / 36524 - doe / 146096) / 365 in
  let doy := doe - (365 * yoe + yoe / 4 - yoe / 100) in
  let mp := (5 * doy + 2) / 153 in
  let d := doy - (153 * mp + 2) / 5 + 1 in
  let m := if mp <? 10 then mp + 3 else mp - 9 in
  let y := yoe + era * 400 + (if m <=? 2 then 1 else 0) in
  let wday := nth (Z.to_nat ((days + 4) mod 7))
                ["Sun"; "Mon"; "Tue"; "Wed"; "Thu"; "Fri"; "Sat"]%string
                "???"%string in
  let mon := nth (Z.to_nat (m - 1))
               ["Jan"; "Feb"; "Mar"; "Apr"; "May"; "Jun";
                "Jul"; "Aug"; "Sep"; "Oct"; "Nov"; "Dec"]%string
               "???"%string in
  (wday ++ " " ++ mon ++ pad_spaces 3 (fmt_u d) ++ " "
   ++ pad_digits 2 (secs / 3600) ++ ":"
   ++ pad_digits 2 (secs mod 3600 / 60) ++ ":"
   ++ pad_digits 2 (secs mod 60) ++ " " ++ fmt_d y ++ nl)%string.

Definition reference (le : bool) : platform :=
  {| little_endian := le;
     ar := ieee;
     double_of_bits := ieee_of_bits;
     sscanf := reference_sscanf le;
     printf_lf := reference_printf_lf;
     ctime := reference_ctime;
     malloc_usable_size := fun n => Nat.max 24 ((n + 23) / 16 * 16 - 8) |}.


(** ** Payload layouts

    The scalar fields of each payload struct, by their widths in layout
    order, and what the per-block operations amount to on them. *)

(** The memory with the [w] bytes at [off] in reverse order. *)
Definition swap_at (off w : nat) (mem : list byte) : list byte :=
  firstn off mem ++ rev (slice mem off w) ++ skipn (off + w) mem.

(** The fields of the given widths, laid out from [off] on, each reversed
    on a little-endian host and left alone on a big-endian one. *)
Fixpoint swap_fields (le : bool) (off : nat) (widths : list nat)
    (mem : list byte) : list byte :=
  match widths with
  | [] => mem
  | w :: ws =>
      swap_fields le (off + w) ws (if le then swap_at off w mem else mem)
  end.

Definition total (widths : list nat) : nat := fold_right Nat.add O widths.

(** The widths of the scalars the program swaps. *)
Definition field_width (w : nat) : Prop :=
  w = 2%nat \/ w = 4%nat \/ w = 8%nat.

(** [fix_at] and [put] along a layout. *)
Fixpoint fix_fields (le : bool) (off : nat) (widths : list nat)
    (mem : list byte) : outcome (list byte) :=
  match widths with
  | [] => Ok mem
  | w :: ws =>
      mem <- fix_at le off (Z.of_nat w) mem ;;
      fix_fields le (off + w) ws mem
  end.

Fixpoint put_fields (le : bool) (off : nat) (widths : list nat)
    (st : list byte * list byte) : outcome (list byte * list byte) :=
  match widths with
  | [] => Ok st
  | w :: ws =>
      st <- put le off (Z.of_nat w) st ;;
      put_fields le (off + w) ws st
  end.

(** The scalar fields of [struct block_*] for a key, the samples of an
    [alvl] block of the declared length [sz] being pairs of two bytes. *)
Definition scalar_fields (k sz : Z) : list nat :=
  if k =? KEY_sign then [4; 4; 4; 4]%nat
  else if k =? KEY_mcda then [4]%nat
  else if k =? KEY_cnst then [4; 4; 4; 4]%nat
  else if k =? KEY_swep then [4; 8; 8; 8; 4]%nat
  else if k =? KEY_fbin then [4; 4]%nat
  else if k =? KEY_gtag then [4]%nat
  else if k =? KEY_atag then [4]%nat
  else if k =? KEY_indx then [4]%nat
  else if k =? KEY_scal then [8; 8]%nat
  else if k =? KEY_alvl then repeat 2%nat (2 * Z.to_nat (sz / 4))
  else [].

(** The number of payload bytes a [gen_block_*] writes: [sizeof] of the
    struct, or the whole samples of an [alvl] block. *)
Definition payload_bytes (k sz : Z) : nat :=
  if k =? KEY_sign then 208%nat else total (scalar_fields k sz).

(** The fields a [gen_block_*] swaps before it writes them: the signature
    block's are written as they are. *)
Definition written_fields (k sz : Z) : list nat :=
  if k =? KEY_sign then [] else scalar_fields k sz.

Definition known_key (k : Z) : bool :=
  existsb (Z.eqb k)
    [ KEY_alvl; KEY_gtag; KEY_atag; KEY_indx; KEY_scal; KEY_sign; KEY_mcda;
      KEY_cnst; KEY_swep; KEY_fbin; KEY_AQLV; KEY_HEAD; KEY_BODY; KEY_END ].

(** A node [ts_write] can take: a key of the registry, a length that fits
    an [int], and payload memory that holds what will be written. *)
Definition serializable (n : node) : bool :=
  known_key (key n) && (0 <=? size n) && (size n <? 2 ^ 31)
  && (payload_bytes (key n) (size n) <=? length (data n))%nat.

(** The integer a four-byte integer becomes when its bytes are reversed
    where it lies. *)
Definition byte_swapped32 (x : Z) : Z := Z_of_le (rev (bytes_le 4 x)).

(** The node as [ts_write] leaves it on a little-endian host. *)
Definition swapped_node (n : node) : node :=
  {| key := byte_swapped32 (key n);
     size := byte_swapped32 (size n);
     data := swap_fields true 0 (written_fields (key n) (size n)) (data n) |}.

(** A [gen_block_*] as the header followed by the fields of a layout. *)
Definition gen_fields (h : platform) (ws : list nat) (n : node)
  : outcome (node * list byte) :=
  let le := little_endian h in
  let '(k, s, out) := gen_header le n in
  st <- put_fields le 0 ws (data n, out) ;;
  gen_done k s st.

(** The node as [ts_write] leaves it, and the bytes it writes for it. *)
Definition written_node (le : bool) (n : node) : node :=
  {| key := fixup_u32 le (key n);
     size := fixup_u32 le (size n);
     data := swap_fields le 0 (written_fields (key n) (size n)) (data n) |}.

Definition written_bytes (le : bool) (n : node) : list byte :=
  rev (bytes_le 4 (key n)) ++ rev (bytes_le 4 (size n))
  ++ firstn (payload_bytes (key n) (size n)) (data (written_node le n)).

(** The least payload length a [fixup_data_*] accepts for a key:
    [sizeof] of its struct. *)
Definition min_size (k : Z) : Z :=
  if k =? KEY_sign then sizeof_block_sign
  else if k =? KEY_mcda then sizeof_block_mcda
  else if k =? KEY_cnst then sizeof_block_cnst
  else if k =? KEY_swep then sizeof_block_swep
  else if k =? KEY_fbin then sizeof_block_fbin
  else if k =? KEY_gtag then sizeof_block_gtag
  else if k =? KEY_atag then sizeof_block_atag
  else if k =? KEY_indx then sizeof_block_indx
  else if k =? KEY_scal then sizeof_block_scal
  else if k =? KEY_alvl then sizeof_block_alvl
  else 0.

(** What [fixup_data] amounts to on a node. *)
Definition normalized (h : platform) (n : node) : outcome (list byte) :=
  if negb (known_key (key n)) then Err UnknownBlockType
  else if superblock (key n) then Ok (data n)
  else if size n <? min_size (key n) then Err TruncatedBlock
  else
    let ws := scalar_fields (key n) (size n) in
    if (total ws <=? length (data n))%nat
    then Ok (swap_fields (little_endian h) 0 ws (data n))
    else Fault.

(** ** Well-framed sequences

    The data model's invariant, on the flat sequence: every block has a
    key of the registry; a block that is no container carries the payload
    its type lays out, no more and no less; a container's length is the
    number of bytes the blocks it encloses take in the stream. *)

(** The unsigned integer a stream holds, most significant byte first, in
    the four bytes at [off]. *)
Definition be32 (mem : list byte) (off : nat) : Z :=
  Z_of_le (rev (slice mem off 4)).

Definition leaf_block (n : node) : Prop :=
  superblock (key n) = false /\
  known_key (key n) = true /\
  min_size (key n) <= size n < 2 ^ 31 /\
  size n = Z.of_nat (payload_bytes (key n) (size n)) /\
  length (data n) = payload_bytes (key n) (size n).

(** The bytes a sequence takes in the stream. *)
Fixpoint span (l : list node) : Z :=
  match l with
  | [] => 0
  | n :: t => 8 + Z.of_nat (payload_bytes (key n) (size n)) + span t
  end.

Inductive framed : list node -> Prop :=
| framed_nil : framed []
| framed_leaf (n : node) (rest : list node) :
    leaf_block n -> framed rest -> framed (n :: rest)
| framed_container (n : node) (inner rest : list node) :
    superblock (key n) = true ->
    size n = span inner ->
    size n < 2 ^ 31 ->
    framed inner -> framed rest -> framed (n :: inner ++ rest).

(** What the round trip keeps of a block: the tag and the length, and the
    payload of a block that is no container; of the signature block's
    payload, the three text fields behind its four scalars. *)
Definition same_block (n n' : node) : Prop :=
  key n' = key n /\ size n' = size n /\
  (superblock (key n) = false ->
   if key n =? KEY_sign then skipn 16 (data n') = skipn 16 (data n)
   else data n' = data n).

(** The serializer's output alone. *)
Definition serialize (h : platform) (l : list node) : list byte :=
  snd (fst (ts_write h l)).

(** The blocks in front of the first body-open marker. *)
Fixpoint header_part (l : list node) : list node :=
  match l with
  | [] => []
  | n :: t => if key n =? KEY_BODY then [] else n :: header_part t
  end.

(** ** Decoded sequences

    What [parse_block] establishes of every node it links: a key of the
    registry, a length that is not below the size of the struct of its
    type, and payload memory of exactly that length. *)
Definition decoded_block (n : node) : Prop :=
  known_key (key n) = true /\
  min_size (key n) <= size n /\
  0 <= size n /\
  length (data n) = Z.to_nat (size n).

(** The bytes of the stream a flat sequence accounts for: a header for
    every block and the payload of every block that is no container. *)
Fixpoint stream_bytes (l : list node) : Z :=
  match l with
  | [] => 0
  | n :: t => 8 + (if superblock (key n) then 0 else size n) + stream_bytes t
  end.

(** A node as a [make_node_*] that succeeds leaves it: a container with
    no length yet and no data, or a block with exactly the payload its
    type lays out. *)
Definition built (n : node) : Prop :=
  (superblock (key n) = true /\ size n = 0 /\ data n = []) \/ leaf_block n.

(** ** Decimal numerals

    The characters of a decimal numeral, and the value [take_digits] gives
    them when it reads them behind the value [acc]. *)
Definition digit_chars (d : Decimal.uint) : list ascii :=
  list_ascii_of_string (DecimalString.NilEmpty.string_of_uint d).

Fixpoint decimal_value (d : Decimal.uint) (acc : Z) : Z :=
  match d with
  | Decimal.Nil => acc
  | Decimal.D0 d => decimal_value d (acc * 10 + 0)
  | Decimal.D1 d => decimal_value d (acc * 10 + 1)
  | Decimal.D2 d => decimal_value d (acc * 10 + 2)
  | Decimal.D3 d => decimal_value d (acc * 10 + 3)
  | Decimal.D4 d => decimal_value d (acc * 10 + 4)
  | Decimal.D5 d => decimal_value d (acc * 10 + 5)
  | Decimal.D6 d => decimal_value d (acc * 10 + 6)
  | Decimal.D7 d => decimal_value d (acc * 10 + 7)
  | Decimal.D8 d => decimal_value d (acc * 10 + 8)
  | Decimal.D9 d => decimal_value d (acc * 10 + 9)
  end.

(** The lines [tsgen] takes for the header of a stanza: longer than one
    character and without a colon. *)
Definition stanza_header (line : string) : bool :=
  negb (strlen line <=? 1) && negb (has_colon line).

(** ** Line buffers: [chomp]

    [line] is the memory the line buffer's pointer reaches. *)

(** [index(s, c)] for a character [c] other than NUL: the offset of the
    first [c] in the C string at [s], if there is one.  A string with no
    NUL inside the memory makes the search read on behind it. *)
Fixpoint index_char (s : list byte) (c : byte) : outcome (option nat) :=
  match s with
  | [] => Fault
  | b :: t =>
      if Byte.eqb b c then Ok (Some O)
      else if Byte.eqb b x00 then Ok None
      else r <- index_char t c ;; Ok (option_map S r)
  end.

(** [line[max-1] = '\0'; nl = index(line, 0x0a); if( nl ) *nl = '\0']. *)
Definition chomp (line : list byte) (max : Z) : outcome (list byte) :=
  if (0 <? max) && (max <=? Z.of_nat (length line)) then
    let line := poke line (Z.to_nat (max - 1)) x00 in
    nl <- index_char line x0a ;;
    match nl with
    | Some i => Ok (poke line i x00)
    | None => Ok line
    end
  else Fault.

(** The bytes in front of the first NUL or newline. *)
Fixpoint line_text (bs : list byte) : list byte :=
  match bs with
  | [] => []
  | b :: t =>
      if Byte.eqb b x00 || Byte.eqb b x0a then [] else b :: line_text t
  end.

(** ** Sequences used as concrete inputs *)

Definition block (k : Z) (bs : list byte) : node :=
  {| key := k; size := Z.of_nat (length bs); data := bs |}.

(** Outer, header with a timestamp block, body with a tag block, end. *)
Definition small_sequence : list node :=
  [ block KEY_AQLV []; block KEY_HEAD [];
    block KEY_mcda [xd5; x8d; xdf; x80];
    block KEY_BODY []; block KEY_gtag [x00; x00; x00; x07];
    block KEY_END [] ].

(** The same with nothing between the header-open and the body-open
    marker. *)
Definition empty_header_sequence : list node :=
  [ block KEY_AQLV []; block KEY_HEAD [];
    block KEY_BODY []; block KEY_gtag [x00; x00; x00; x07];
    block KEY_END [] ].

(** A signature block as [make_node_sign] builds it on a little-endian
    host from version CSv4, file type AQLV, site BML1 and user flags 1f. *)
Definition sign_block : node :=
  block KEY_sign
    (list_byte_of_string "CSv4AQLVBML1" ++ [x1f; x00; x00; x00]
     ++ repeat x00 192).

(** [small_sequence] with the container lengths reconciliation gives. *)
Definition reconciled_sequence : list node :=
  [ {| key := KEY_AQLV; size := 40; data := [] |};
    {| key := KEY_HEAD; size := 12; data := [] |};
    block KEY_mcda [xd5; x8d; xdf; x80];
    {| key := KEY_BODY; size := 12; data := [] |};
    block KEY_gtag [x00; x00; x00; x07];
    block KEY_END [] ].

(** A tag block whose header declares 100 bytes of payload, with two bytes
    behind the header; and an outer container that declares 100 bytes,
    with three bytes behind the header. *)
Definition truncated_gtag_file : list byte :=
  list_byte_of_string "gtag" ++ [x00; x00; x00; x64] ++ [x01; x02].



(** A text with a format stanza and a sample stanza, and no scaling stanza
    in front of the samples. *)
Definition unscaled_text : list string :=
  [ "AQVL"; ""; "HEAD"; ""; "gtag"; "gtag:7"; ""; "BODY"; "";
    "fbin"; "format:cviq"; "type:fix2"; "";
    "alvl"; "i:0.5"; "q:0.25"; "";
    "END " ]%string.

(** A scaling stanza, and the two lines of one sample pair. *)
Definition scal_stanza : list string :=
  [ "scal"; "scalar_one:1.0"; "scalar_two:1.0"; "" ]%string.

Definition one_pair : list string := [ "i:0.5"; "q:0.25"; "" ]%string.

(** A text with no outer container stanza. *)
Definition no_container_text : list string :=
  [ "HEAD"; ""; "gtag"; "gtag:7"; ""; "BODY"; ""; "atag"; "atag:9"; "";
    "END " ]%string.

(** The file [tsgen] writes for [reconciled_sequence], and its first five
    bytes alone. *)
Definition small_file : list byte :=
  list_byte_of_string "AQVL" ++ [x00; x00; x00; x28]
  ++ list_byte_of_string "HEAD" ++ [x00; x00; x00; x0c]
  ++ list_byte_of_string "mcda" ++ [x00; x00; x00; x04; xd5; x8d; xdf; x80]
  ++ list_byte_of_string "BODY" ++ [x00; x00; x00; x0c]
  ++ list_byte_of_string "gtag" ++ [x00; x00; x00; x04; x00; x00; x00; x07]
  ++ list_byte_of_string "END " ++ [x00; x00; x00; x00].

Definition short_file : list byte := firstn 5 small_file.


(** A text whose sample stanza stands under a given width selector and
    scale factors of 1. *)
Definition sample_text (selector : string) : list string :=
  [ "AQVL"; ""; "HEAD"; ""; "gtag"; "gtag:7"; ""; "BODY"; "";
    "fbin"; "format:cviq"; ("type:" ++ selector); "";
    "scal"; "scalar_one:1.0"; "scalar_two:1.0"; "";
    "alvl"; "i:1.0"; "q:0.25"; "";
    "END " ]%string.

(** The text of [sample_text] as the renderer prints it, with the two
    sample values as given. *)
Definition rendered_sample_text (selector i q : string) : string :=
  ("AQVL" ++ nl ++ nl
   ++ "HEAD" ++ nl ++ nl
   ++ "gtag" ++ nl ++ "gtag:7" ++ nl ++ nl
   ++ "BODY" ++ nl ++ nl
   ++ "fbin" ++ nl ++ "format:cviq" ++ nl ++ "type:" ++ selector ++ nl ++ nl
   ++ "scal" ++ nl ++ "scalar_one:1.00000000000000000000" ++ nl
   ++ "scalar_two:1.00000000000000000000" ++ nl ++ nl
   ++ "alvl" ++ nl ++ "i:" ++ i ++ nl ++ "q:" ++ q ++ nl ++ nl
   ++ "END " ++ nl)%string.

(* ================================================================== *)
(** * Part II: theorems                                                *)
(* ================================================================== *)

(** ** Bytes and integers *)

Lemma Z_of_byte_range (b : byte) : 0 <= Z_of_byte b < 256.
Proof.
  unfold Z_of_byte. pose proof (Byte.to_N_bounded b). lia.
Qed.

Lemma byte_of_Z_of_byte (b : byte) : byte_of_Z (Z_of_byte b) = b.
Proof.
  unfold byte_of_Z. pose proof (Z_of_byte_range b) as R.
  rewrite Z.mod_small by exact R.
  unfold Z_of_byte. rewrite N2Z.id, Byte.of_to_N. reflexivity.
Qed.

Lemma Z_of_byte_of_Z (z : Z) : Z_of_byte (byte_of_Z z) = z mod 256.
Proof.
  unfold byte_of_Z, Z_of_byte.
  pose proof (Z.mod_pos_bound z 256 ltac:(lia)) as R.
  destruct (Byte.of_N (Z.to_N (z mod 256))) as [b|] eqn:E.
  - apply Byte.to_of_N in E. rewrite E. lia.
  - apply Byte.of_N_None_iff in E. lia.
Qed.

Lemma length_bytes_le (n : nat) (v : Z) : length (bytes_le n v) = n.
Proof.
  revert v. induction n as [|n IH]; intros v; simpl; [reflexivity|].
  now rewrite IH.
Qed.

Lemma Z_of_le_bytes_le (n : nat) (v : Z) :
  Z_of_le (bytes_le n v) = v mod 256 ^ Z.of_nat n.
Proof.
  revert v. induction n as [|n IH]; intros v.
  - simpl. now rewrite Z.mod_1_r.
  - cbn [bytes_le Z_of_le]. rewrite IH, Z_of_byte_of_Z.
    rewrite Nat2Z.inj_succ, Z.pow_succ_r by lia.
    rewrite Z.rem_mul_r by lia. reflexivity.
Qed.

Lemma bytes_le_Z_of_le (bs : list byte) :
  bytes_le (length bs) (Z_of_le bs) = bs.
Proof.
  induction bs as [|b t IH]; [reflexivity|].
  cbn [length bytes_le Z_of_le].
  pose proof (Z_of_byte_range b) as R.
  replace (byte_of_Z (Z_of_byte b + 256 * Z_of_le t)) with b.
  - f_equal.
    replace ((Z_of_byte b + 256 * Z_of_le t) / 256) with (Z_of_le t); [exact IH|].
    rewrite Z.mul_comm, Z.div_add by lia.
    rewrite Z.div_small by exact R. reflexivity.
  - rewrite <- (byte_of_Z_of_byte b) at 1. unfold byte_of_Z.
    rewrite Z.mul_comm, Z.mod_add by lia. reflexivity.
Qed.

Lemma length_store_uint (le : bool) (n : nat) (v : Z) :
  length (store_uint le n v) = n.
Proof.
  unfold store_uint. destruct le; [|rewrite length_rev]; apply length_bytes_le.
Qed.

(** What the host reads back from the image of an integer. *)
Lemma load_store_uint (le : bool) (n : nat) (v : Z) :
  load_uint le (store_uint le n v) = v mod 256 ^ Z.of_nat n.
Proof.
  unfold load_uint, store_uint. destruct le.
  - apply Z_of_le_bytes_le.
  - rewrite rev_involutive. apply Z_of_le_bytes_le.
Qed.

Lemma store_load_uint (le : bool) (bs : list byte) :
  store_uint le (length bs) (load_uint le bs) = bs.
Proof.
  unfold load_uint, store_uint. destruct le.
  - apply bytes_le_Z_of_le.
  - rewrite <- (length_rev bs), bytes_le_Z_of_le. apply rev_involutive.
Qed.

(** ** The endian normalizer *)

Lemma swapcopy2_rev (a b : byte) (rest : list byte) :
  swapcopy2 (a :: b :: rest) [a; b] = [b; a] ++ rest.
Proof. reflexivity. Qed.

Lemma swapcopy4_rev (a b c d : byte) (rest : list byte) :
  swapcopy4 (a :: b :: c :: d :: rest) [a; b; c; d] = [d; c; b; a] ++ rest.
Proof. reflexivity. Qed.

Lemma swapcopy8_rev (a b c d e f g i : byte) (rest : list byte) :
  swapcopy8 (a :: b :: c :: d :: e :: f :: g :: i :: rest)
            [a; b; c; d; e; f; g; i]
  = [i; g; f; e; d; c; b; a] ++ rest.
Proof. reflexivity. Qed.

(** The normalizer on a little-endian host, for the three widths the
    program uses: the scalar at the front of the memory is reversed and
    what follows it is left alone. *)
Lemma endian_fixup_le (w : Z) (buf : list byte) :
  supported_width w = true ->
  (Z.to_nat w <= length buf)%nat ->
  endian_fixup true buf w
  = rev (firstn (Z.to_nat w) buf) ++ skipn (Z.to_nat w) buf.
Proof.
  unfold supported_width. intros S L.
  assert (W : w = 2 \/ w = 4 \/ w = 8) by lia.
  destruct W as [-> | [-> | ->]]; unfold endian_fixup, swapcopy; simpl Z.eqb; cbv iota.
  - destruct buf as [|a [|b rest]]; simpl in L; try lia. reflexivity.
  - destruct buf as [|a [|b [|c [|d rest]]]]; simpl in L; try lia. reflexivity.
  - destruct buf as [|a [|b [|c [|d [|e [|f [|g [|i rest]]]]]]]];
      simpl in L; try lia. reflexivity.
Qed.

Lemma endian_fixup_be (w : Z) (buf : list byte) : endian_fixup false buf w = buf.
Proof. reflexivity. Qed.

Lemma endian_fixup_unsupported (le : bool) (w : Z) (buf : list byte) :
  supported_width w = false -> endian_fixup le buf w = buf.
Proof.
  unfold supported_width, endian_fixup, swapcopy. intros S.
  destruct le; [|reflexivity].
  destruct (w =? 2); [discriminate|].
  destruct (w =? 4); [discriminate|].
  destruct (w =? 8); [discriminate|]. reflexivity.
Qed.

(** C6 (amended).  For a width of 2, 4 or 8 bytes the normalizer reverses
    the scalar in place exactly when the host is little-endian, and is a
    no-op on a big-endian host; for every other width it returns with the
    memory unchanged on either host: a silent no-op, there is no assertion. *)
Theorem endian_fixup_contract (le : bool) (w : Z) (buf : list byte) :
  0 <= w <= 8 ->
  (Z.to_nat w <= length buf)%nat ->
  endian_fixup le buf w =
    if le && supported_width w
    then rev (firstn (Z.to_nat w) buf) ++ skipn (Z.to_nat w) buf
    else buf.
Proof.
  intros _ L. destruct le; cbn [andb].
  - destruct (supported_width w) eqn:S.
    + now apply endian_fixup_le.
    + now apply endian_fixup_unsupported.
  - reflexivity.
Qed.

Lemma endian_fixup_contract_witness :
  (0 <= 4 <= 8) /\ (Z.to_nat 4 <= length [x01; x02; x03; x04; x05])%nat /\
  endian_fixup true [x01; x02; x03; x04; x05] 4 = [x04; x03; x02; x01; x05].
Proof.
  assert (R : 0 <= 4 <= 8) by lia.
  assert (L : (Z.to_nat 4 <= length [x01; x02; x03; x04; x05])%nat)
    by (simpl; lia).
  split; [exact R|]. split; [exact L|].
  exact (endian_fixup_contract true 4 [x01; x02; x03; x04; x05] R L).
Defined.

(** C6, as stated, fails: on a little-endian host a call with the
    unsupported width 3 returns normally and leaves the three bytes as
    they were. *)
Lemma endian_fixup_width3_silent :
  endian_fixup true [x01; x02; x03] 3 = [x01; x02; x03].
Proof. reflexivity. Qed.

(** ** The size reconciler *)

Lemma wrap32_range (z : Z) : 0 <= wrap32 z < 4294967296.
Proof. unfold wrap32. apply Z.mod_pos_bound. lia. Qed.

Lemma wrap32_add_l (a b : Z) : wrap32 (wrap32 a + b) = wrap32 (a + b).
Proof. unfold wrap32. apply Z.add_mod_idemp_l. lia. Qed.

Lemma wrap32_small (z : Z) : 0 <= z < 4294967296 -> wrap32 z = z.
Proof. unfold wrap32. apply Z.mod_small. Qed.

(** How the two flags move when one more block is put behind [before]. *)
Lemma header_open_snoc (before : list node) (n : node) :
  header_open (before ++ [n]) =
    if key n =? KEY_HEAD then true
    else if (key n =? KEY_BODY) || (key n =? KEY_END) then false
    else header_open before.
Proof.
  unfold header_open. rewrite rev_app_distr. cbn [rev app find].
  unfold header_marker at 1.
  destruct (key n =? KEY_HEAD) eqn:EH; cbn [orb]; [exact EH|].
  destruct (key n =? KEY_BODY) eqn:EB; cbn [orb]; [exact EH|].
  destruct (key n =? KEY_END) eqn:EE; cbn [orb]; [exact EH|]. reflexivity.
Qed.

Lemma body_open_snoc (before : list node) (n : node) :
  body_open (before ++ [n]) =
    if key n =? KEY_BODY then true
    else if key n =? KEY_END then false
    else body_open before.
Proof.
  unfold body_open. rewrite rev_app_distr. cbn [rev app find].
  unfold body_marker at 1.
  destruct (key n =? KEY_BODY) eqn:EB; cbn [orb]; [exact EB|].
  destruct (key n =? KEY_END) eqn:EE; cbn [orb]; [exact EB|]. reflexivity.
Qed.

Lemma key_END_not_BODY (k : Z) : (k =? KEY_END) = true -> (k =? KEY_BODY) = false.
Proof. intros E. apply Z.eqb_eq in E. subst k. reflexivity. Qed.

Lemma key_END_not_HEAD (k : Z) : (k =? KEY_END) = true -> (k =? KEY_HEAD) = false.
Proof. intros E. apply Z.eqb_eq in E. subst k. reflexivity. Qed.

Lemma key_BODY_not_HEAD (k : Z) : (k =? KEY_BODY) = true -> (k =? KEY_HEAD) = false.
Proof. intros E. apply Z.eqb_eq in E. subst k. reflexivity. Qed.

(** The scan of [calculate_head_size], resumed behind [before] with the
    flag the header region gives there, adds up the header region. *)
Lemma calculate_head_size_from_total (rest before : list node) (sz : Z) :
  0 <= sz < 4294967296 ->
  calculate_head_size_from (header_open before) sz rest
  = wrap32 (sz + region_total in_header_region before rest).
Proof.
  revert before sz. induction rest as [|n rest IH]; intros before sz R.
  - cbn. rewrite Z.add_0_r. symmetry. now apply wrap32_small.
  - cbn [calculate_head_size_from region_total].
    specialize (IH (before ++ [n])). rewrite header_open_snoc in IH.
    change (in_header_region before n)
      with (header_open before && negb (key n =? KEY_BODY)
            && negb (key n =? KEY_END)).
    unfold sizeof_block_header.
    destruct (key n =? KEY_END) eqn:EE.
    + rewrite (key_END_not_BODY _ EE), (key_END_not_HEAD _ EE) in *.
      cbn [orb negb andb] in *. rewrite andb_false_r, IH by exact R.
      f_equal.
    + destruct (key n =? KEY_BODY) eqn:EB.
      * rewrite (key_BODY_not_HEAD _ EB) in *.
        cbn [orb negb andb] in *. rewrite andb_false_r, IH by exact R.
        f_equal.
      * cbn [orb negb andb] in *. rewrite !andb_true_r.
        destruct (header_open before) eqn:HO.
        -- assert (E : (if key n =? KEY_HEAD then true else true) = true)
             by (destruct (key n =? KEY_HEAD); reflexivity).
           rewrite E in *. rewrite IH by apply wrap32_range.
           rewrite wrap32_add_l. f_equal. lia.
        -- rewrite IH by exact R. f_equal.
Qed.

Lemma calculate_body_size_from_total (rest before : list node) (sz : Z) :
  0 <= sz < 4294967296 ->
  calculate_body_size_from (body_open before) sz rest
  = wrap32 (sz + region_total in_body_region before rest).
Proof.
  revert before sz. induction rest as [|n rest IH]; intros before sz R.
  - cbn. rewrite Z.add_0_r. symmetry. now apply wrap32_small.
  - cbn [calculate_body_size_from region_total].
    specialize (IH (before ++ [n])). rewrite body_open_snoc in IH.
    change (in_body_region before n)
      with (body_open before && negb (key n =? KEY_END)).
    unfold sizeof_block_header.
    destruct (key n =? KEY_END) eqn:EE.
    + rewrite (key_END_not_BODY _ EE) in *.
      cbn [negb] in *. rewrite andb_false_r, IH by exact R. f_equal.
    + cbn [negb]. rewrite andb_true_r.
      destruct (body_open before) eqn:BO.
      * assert (E : (if key n =? KEY_BODY then true else true) = true)
          by (destruct (key n =? KEY_BODY); reflexivity).
        rewrite E in *. rewrite IH by apply wrap32_range.
        rewrite wrap32_add_l. f_equal. lia.
      * rewrite IH by exact R. f_equal.
Qed.

(** The two scans compute the totals of the two bracket regions. *)
Lemma calculate_head_size_total (l : list node) :
  calculate_head_size l = header_total l.
Proof.
  unfold calculate_head_size, header_total.
  change false with (header_open []).
  rewrite calculate_head_size_from_total by lia. reflexivity.
Qed.

Lemma calculate_body_size_total (l : list node) :
  calculate_body_size l = body_total l.
Proof.
  unfold calculate_body_size, body_total.
  change false with (body_open []).
  rewrite calculate_body_size_from_total by lia. reflexivity.
Qed.

Lemma resized_refl (keys : list Z) (l : list node) : Forall2 (resized keys) l l.
Proof.
  induction l; constructor; [|assumption]. unfold resized. tauto.
Qed.

Lemma resized_trans (keys : list Z) (l1 l2 l3 : list node) :
  Forall2 (resized keys) l1 l2 -> Forall2 (resized keys) l2 l3 ->
  Forall2 (resized keys) l1 l3.
Proof.
  intros H12. revert l3. induction H12 as [|a b l1 l2 Hab _ IH]; intros l3 H23.
  - inversion H23. constructor.
  - inversion H23 as [|b' c l2' l3' Hbc H23']; subst. constructor; [|now apply IH].
    unfold resized in *. destruct Hab as (K1 & D1 & S1), Hbc as (K2 & D2 & S2).
    repeat split; try congruence.
    destruct S1 as [S1|S1]; [|now right].
    destruct S2 as [S2|S2]; [left; congruence|right; congruence].
Qed.

Lemma resized_mono (keys keys' : list Z) (l l' : list node) :
  incl keys keys' -> Forall2 (resized keys) l l' -> Forall2 (resized keys') l l'.
Proof.
  intros I H. induction H as [|a b l l' Hab _ IH]; constructor; [|exact IH].
  unfold resized in *. destruct Hab as (K & D & [S|S]); auto.
Qed.

(** [set_block_size] on a list that holds the key: it succeeds, the first
    block with that key gets the length, every block keeps its key and
    data, and a block with another key keeps its length. *)
Lemma set_block_size_found (l : list node) (k sz : Z) :
  has_key k l = true ->
  exists l', set_block_size l k sz = (0, l') /\
             first_size k l' = Some sz /\
             Forall2 (resized [k]) l l' /\
             (forall k', k' <> k -> first_size k' l' = first_size k' l).
Proof.
  unfold has_key, first_size. induction l as [|n l IH]; cbn [existsb]; intros H.
  - discriminate.
  - cbn [set_block_size]. destruct (key n =? k) eqn:E.
    + eexists. split; [reflexivity|]. cbn [find key]. rewrite E. cbn.
      split; [reflexivity|]. split.
      * constructor; [|apply resized_refl]. unfold resized. cbn.
        apply Z.eqb_eq in E. repeat split. right. now left.
      * intros k' Hk'. apply Z.eqb_eq in E.
        destruct (key n =? k') eqn:E'; [apply Z.eqb_eq in E'; congruence|].
        reflexivity.
    + cbn [orb] in H. destruct (IH H) as (l' & HS & HF & HR & HO).
      rewrite HS. eexists. split; [reflexivity|]. cbn [find]. rewrite E.
      split; [exact HF|]. split.
      * constructor; [|exact HR]. unfold resized. tauto.
      * intros k' Hk'. destruct (key n =? k'); [reflexivity|]. now apply HO.
Qed.

Lemma resized_has_key (keys : list Z) (l l' : list node) (k : Z) :
  Forall2 (resized keys) l l' -> has_key k l' = has_key k l.
Proof.
  unfold has_key. induction 1 as [|a b l l' (K & _ & _) _ IH]; [reflexivity|].
  cbn [existsb]. now rewrite K, IH.
Qed.

Lemma set_block_size_first (l : list node) (k sz : Z) :
  forall l' : list node,
    set_block_size l k sz = (0, l') ->
    length l' = length l /\
    map key l' = map key l /\
    forall (i : nat) (n n' : node),
      nth_error l i = Some n -> nth_error l' i = Some n' ->
      key n' = key n /\ data n' = data n /\
      (size n' = size n \/ (key n = k /\ has_key k (firstn i l) = false)).
Proof.
  induction l as [|m l IH]; intros l'; cbn [set_block_size].
  - discriminate.
  - destruct (key m =? k) eqn:E.
    + intros [= <-]. split; [reflexivity|]. split; [reflexivity|].
      intros [|i] n n'; cbn [nth_error].
      * intros [= <-] [= <-]. cbn [key data size firstn].
        apply Z.eqb_eq in E. repeat split. right. split; [exact E|reflexivity].
      * intros A B. rewrite A in B. injection B as <-. tauto.
    + destruct (set_block_size l k sz) as [e l1] eqn:S.
      intros [= -> <-]. destruct (IH l1 eq_refl) as (L & K & P).
      split; [cbn [length]; now rewrite L|].
      split; [cbn [map]; now rewrite K|].
      intros [|i] n n'; cbn [nth_error].
      * intros [= <-] [= <-]. tauto.
      * intros A B. destruct (P i n n' A B) as (P1 & P2 & P3).
        split; [exact P1|]. split; [exact P2|].
        destruct P3 as [P3|[P3 P4]]; [now left|right].
        split; [exact P3|]. cbn [firstn]. unfold has_key in *.
        cbn [existsb]. now rewrite E, P4.
Qed.

Lemma has_key_firstn_keys (k : Z) (i : nat) :
  forall l l' : list node,
    map key l' = map key l ->
    has_key k (firstn i l') = has_key k (firstn i l).
Proof.
  unfold has_key.
  induction i as [|i IH]; intros l l' M; [reflexivity|].
  destruct l as [|a l], l' as [|b l']; try discriminate; [reflexivity|].
  cbn [map] in M. injection M as A B. cbn [firstn existsb].
  now rewrite A, (IH l l' B).
Qed.

Lemma first_resized_chain (l l1 l2 l3 : list node) (k1 k2 k3 s1 s2 s3 : Z) :
  set_block_size l k1 s1 = (0, l1) ->
  set_block_size l1 k2 s2 = (0, l2) ->
  set_block_size l2 k3 s3 = (0, l3) ->
  length l3 = length l /\
  forall (i : nat) (n n' : node),
    nth_error l i = Some n -> nth_error l3 i = Some n' ->
    first_resized [k1; k2; k3] l i n n'.
Proof.
  intros S1 S2 S3.
  destruct (set_block_size_first l k1 s1 l1 S1) as (L1 & K1 & P1).
  destruct (set_block_size_first l1 k2 s2 l2 S2) as (L2 & K2 & P2).
  destruct (set_block_size_first l2 k3 s3 l3 S3) as (L3 & K3 & P3).
  split; [congruence|].
  intros i n n3 A D.
  assert (I : (i < length l)%nat) by (apply nth_error_Some; congruence).
  destruct (nth_error l1 i) as [n1|] eqn:B;
    [|apply nth_error_None in B; lia].
  destruct (nth_error l2 i) as [n2|] eqn:C;
    [|apply nth_error_None in C; lia].
  destruct (P1 i n n1 A B) as (A1 & A2 & A3).
  destruct (P2 i n1 n2 B C) as (B1 & B2 & B3).
  destruct (P3 i n2 n3 C D) as (C1 & C2 & C3).
  rewrite (has_key_firstn_keys k2 i l l1 K1) in B3.
  rewrite (has_key_firstn_keys k3 i l1 l2 K2),
          (has_key_firstn_keys k3 i l l1 K1) in C3.
  unfold first_resized.
  split; [congruence|]. split; [congruence|].
  destruct A3 as [A3|[A3 A4]];
    [|right; split; [rewrite A3; cbn; tauto|now rewrite A3]].
  destruct B3 as [B3|[B3 B4]];
    [|right; rewrite <- A1, B3; split; [cbn; tauto|exact B4]].
  destruct C3 as [C3|[C3 C4]];
    [left; congruence|].
  right. rewrite <- A1, <- B1, C3. split; [cbn; tauto|exact C4].
Qed.

(** C3 (amended).  When the sequence holds the three container blocks and
    neither region total is zero modulo 2^32, reconciliation succeeds and
    gives the first header container the header-region total, the first
    body container the body-region total and the first outer container
    header_total + 8 + body_total + 8 (all modulo 2^32, the totals taken
    over the lengths the sequence had before).  The sequence keeps its
    blocks, every block its key and its payload, and every block its
    length unless it is the first block with the key of the outer, the
    header or the body container.  When a region total is zero,
    reconciliation returns failure and leaves the sequence as it is. *)
Theorem fixup_sizes_reconciles (l : list node) :
  (header_total l = 0 \/ body_total l = 0 -> fixup_sizes l = (1, l)) /\
  (has_key KEY_AQLV l = true ->
   has_key KEY_HEAD l = true ->
   has_key KEY_BODY l = true ->
   header_total l <> 0 ->
   body_total l <> 0 ->
   exists l',
     fixup_sizes l = (0, l') /\
     first_size KEY_HEAD l' = Some (header_total l) /\
     first_size KEY_BODY l' = Some (body_total l) /\
     first_size KEY_AQLV l'
       = Some (wrap32 (header_total l + 8 + body_total l + 8)) /\
     length l' = length l /\
     forall (i : nat) (n n' : node),
       nth_error l i = Some n -> nth_error l' i = Some n' ->
       first_resized [KEY_AQLV; KEY_HEAD; KEY_BODY] l i n n').
Proof.
  split.
  { intros Z0. unfold fixup_sizes.
    rewrite calculate_head_size_total, calculate_body_size_total.
    destruct (Z.eqb_spec (header_total l) 0); [reflexivity|].
    destruct (Z.eqb_spec (body_total l) 0); [reflexivity|].
    destruct Z0; contradiction. }
  intros HA HH HB NH NB. unfold fixup_sizes.
  rewrite calculate_head_size_total, calculate_body_size_total.
  apply Z.eqb_neq in NH, NB. rewrite NH, NB. unfold sizeof_block_header.
  destruct (set_block_size_found l KEY_AQLV
              (wrap32 (header_total l + 8 + body_total l + 8)) HA)
    as (l1 & S1 & F1 & R1 & O1).
  rewrite S1. cbn [Z.eqb negb].
  rewrite <- (resized_has_key _ _ _ KEY_HEAD R1) in HH.
  destruct (set_block_size_found l1 KEY_HEAD (header_total l) HH)
    as (l2 & S2 & F2 & R2 & O2).
  rewrite S2. cbn [Z.eqb negb].
  rewrite <- (resized_has_key _ _ _ KEY_BODY R1) in HB.
  rewrite <- (resized_has_key _ _ _ KEY_BODY R2) in HB.
  destruct (set_block_size_found l2 KEY_BODY (body_total l) HB)
    as (l3 & S3 & F3 & R3 & O3).
  rewrite S3. cbn [Z.eqb negb].
  exists l3. split; [reflexivity|].
  split; [rewrite O3 by discriminate; exact F2|].
  split; [exact F3|].
  split; [rewrite O3, O2 by discriminate; exact F1|].
  exact (first_resized_chain l l1 l2 l3 _ _ _ _ _ _ S1 S2 S3).
Qed.

Lemma fixup_sizes_reconciles_witness :
  (header_total empty_header_sequence = 0 /\
   fixup_sizes empty_header_sequence = (1, empty_header_sequence)) /\
  has_key KEY_AQLV small_sequence = true /\
  has_key KEY_HEAD small_sequence = true /\
  has_key KEY_BODY small_sequence = true /\
  header_total small_sequence <> 0 /\
  body_total small_sequence <> 0 /\
  exists l',
    fixup_sizes small_sequence = (0, l') /\
    first_size KEY_HEAD l' = Some (header_total small_sequence) /\
    first_size KEY_BODY l' = Some (body_total small_sequence) /\
    first_size KEY_AQLV l'
      = Some (wrap32 (header_total small_sequence + 8
                      + body_total small_sequence + 8)) /\
    length l' = length small_sequence /\
    forall (i : nat) (n n' : node),
      nth_error small_sequence i = Some n -> nth_error l' i = Some n' ->
      first_resized [KEY_AQLV; KEY_HEAD; KEY_BODY] small_sequence i n n'.
Proof.
  assert (Z0 : header_total empty_header_sequence = 0) by reflexivity.
  assert (HA : has_key KEY_AQLV small_sequence = true) by reflexivity.
  assert (HH : has_key KEY_HEAD small_sequence = true) by reflexivity.
  assert (HB : has_key KEY_BODY small_sequence = true) by reflexivity.
  assert (NH : header_total small_sequence <> 0) by (vm_compute; discriminate).
  assert (NB : body_total small_sequence <> 0) by (vm_compute; discriminate).
  split.
  { split; [exact Z0|].
    exact (proj1 (fixup_sizes_reconciles empty_header_sequence)
             (or_introl Z0)). }
  repeat (split; [assumption|]).
  exact (proj2 (fixup_sizes_reconciles small_sequence) HA HH HB NH NB).
Defined.

(** C3, as stated, fails: the sequence holds the three containers, its body
    region holds one block of 4 + 8 bytes, and reconciliation returns 1
    with the body container's length still 0, because the header region is
    empty. *)
Lemma fixup_sizes_empty_header_region :
  has_key KEY_AQLV empty_header_sequence = true /\
  has_key KEY_HEAD empty_header_sequence = true /\
  has_key KEY_BODY empty_header_sequence = true /\
  body_total empty_header_sequence = 12 /\
  fixup_sizes empty_header_sequence = (1, empty_header_sequence) /\
  first_size KEY_BODY (snd (fixup_sizes empty_header_sequence)) = Some 0.
Proof. repeat split. Qed.

(** ** Payload layouts *)

Lemma slice_length (mem : list byte) (off n : nat) :
  (off + n <= length mem)%nat -> length (slice mem off n) = n.
Proof.
  intros L. unfold slice. rewrite length_firstn, length_skipn. lia.
Qed.

Lemma swap_at_shift (p m : list byte) (off w : nat) :
  swap_at (length p + off) w (p ++ m) = p ++ swap_at off w m.
Proof.
  unfold swap_at, slice.
  rewrite firstn_app, !skipn_app.
  rewrite (firstn_all2 p (n := length p + off)) by lia.
  rewrite (skipn_all2 p (n := length p + off)) by lia.
  rewrite (skipn_all2 p (n := length p + off + w)) by lia.
  replace (length p + off - length p)%nat with off by lia.
  replace (length p + off + w - length p)%nat with (off + w)%nat by lia.
  cbn [app]. now rewrite <- app_assoc.
Qed.

Lemma swap_at_0 (w : nat) (m : list byte) :
  swap_at 0 w m = rev (firstn w m) ++ skipn w m.
Proof. reflexivity. Qed.

Lemma swap_fields_shift (le : bool) (p m : list byte) (off : nat)
    (ws : list nat) :
  swap_fields le (length p + off) ws (p ++ m) = p ++ swap_fields le off ws m.
Proof.
  revert off m. induction ws as [|w ws IH]; intros off m; [reflexivity|].
  cbn [swap_fields]. rewrite <- Nat.add_assoc.
  destruct le; [rewrite swap_at_shift|]; apply IH.
Qed.

Lemma swap_fields_from (le : bool) (off : nat) (ws : list nat)
    (mem : list byte) :
  (off <= length mem)%nat ->
  swap_fields le off ws mem
  = firstn off mem ++ swap_fields le 0 ws (skipn off mem).
Proof.
  intros L. rewrite <- (firstn_skipn off mem) at 1.
  replace off with (length (firstn off mem) + 0)%nat at 1
    by (rewrite length_firstn; lia).
  apply swap_fields_shift.
Qed.

Lemma length_swap_at (off w : nat) (mem : list byte) :
  (off + w <= length mem)%nat -> length (swap_at off w mem) = length mem.
Proof.
  intros L. unfold swap_at. rewrite !length_app, length_rev, slice_length by lia.
  rewrite length_firstn, length_skipn. lia.
Qed.

Lemma length_swap_fields (le : bool) (ws : list nat) (off : nat)
    (mem : list byte) :
  (off + total ws <= length mem)%nat ->
  length (swap_fields le off ws mem) = length mem.
Proof.
  revert off mem. induction ws as [|w ws IH]; intros off mem L; [reflexivity|].
  cbn [swap_fields total fold_right] in *. fold (total ws) in L.
  destruct le.
  - rewrite IH; rewrite length_swap_at; lia.
  - apply IH. lia.
Qed.

Lemma swap_fields_app (le : bool) (p m : list byte) (n : nat)
    (ws : list nat) :
  n = length p ->
  swap_fields le n ws (p ++ m) = p ++ swap_fields le 0 ws m.
Proof.
  intros ->. rewrite <- (Nat.add_0_r (length p)) at 1.
  apply swap_fields_shift.
Qed.

Lemma swap_at_0_app (p x : list byte) (w : nat) :
  w = length p -> swap_at 0 w (p ++ x) = rev p ++ x.
Proof.
  intros ->. rewrite swap_at_0.
  rewrite firstn_app, skipn_app, Nat.sub_diag, firstn_all, skipn_all.
  cbn [firstn skipn app]. now rewrite app_nil_r.
Qed.

(** Swapping the fields of a layout twice gives the memory back. *)
Lemma swap_fields_0_involutive (le : bool) (ws : list nat) (m : list byte) :
  (total ws <= length m)%nat ->
  swap_fields le 0 ws (swap_fields le 0 ws m) = m.
Proof.
  revert m. induction ws as [|w ws IH]; intros m L; [reflexivity|].
  cbn [total fold_right] in L. fold (total ws) in L.
  assert (LB : length (firstn w m) = w) by (rewrite length_firstn; lia).
  assert (LC : (total ws <= length (skipn w m))%nat)
    by (rewrite length_skipn; lia).
  rewrite <- (firstn_skipn w m) at 1.
  cbn [swap_fields Nat.add]. destruct le.
  - rewrite swap_at_0_app by (symmetry; exact LB).
    rewrite swap_fields_app by (rewrite length_rev; symmetry; exact LB).
    rewrite swap_at_0_app by (rewrite length_rev; symmetry; exact LB).
    rewrite rev_involutive.
    rewrite swap_fields_app by (symmetry; exact LB).
    rewrite IH by exact LC. apply firstn_skipn.
  - rewrite swap_fields_app by (symmetry; exact LB).
    rewrite swap_fields_app by (symmetry; exact LB).
    rewrite IH by exact LC. apply firstn_skipn.
Qed.

Lemma skipn_swap_fields_0 (le : bool) (ws : list nat) (m : list byte) :
  (total ws <= length m)%nat ->
  skipn (total ws) (swap_fields le 0 ws m) = skipn (total ws) m.
Proof.
  revert m. induction ws as [|w ws IH]; intros m L; [reflexivity|].
  cbn [total fold_right] in *. fold (total ws) in *.
  assert (LB : length (firstn w m) = w) by (rewrite length_firstn; lia).
  assert (LC : (total ws <= length (skipn w m))%nat)
    by (rewrite length_skipn; lia).
  assert (E : forall p, length p = w ->
            skipn (w + total ws) (swap_fields le w ws (p ++ skipn w m))
            = skipn (w + total ws) m).
  { intros p Lp. rewrite swap_fields_app by (symmetry; exact Lp).
    rewrite (Nat.add_comm w (total ws)), <- !skipn_skipn.
    rewrite skipn_app, Lp, Nat.sub_diag.
    rewrite (skipn_all2 p (n := w)) by lia.
    cbn [app skipn]. apply IH, LC. }
  rewrite <- (firstn_skipn w m) at 1.
  cbn [swap_fields Nat.add].
  destruct le.
  - rewrite swap_at_0_app by (symmetry; exact LB).
    apply E. now rewrite length_rev.
  - apply E, LB.
Qed.

Lemma field_width_supported (w : nat) :
  field_width w -> supported_width (Z.of_nat w) = true.
Proof. intros [-> | [-> | ->]]; reflexivity. Qed.

Lemma fix_at_swap (le : bool) (off w : nat) (mem : list byte) :
  field_width w ->
  (off + w <= length mem)%nat ->
  fix_at le off (Z.of_nat w) mem
  = Ok (if le then swap_at off w mem else mem).
Proof.
  intros W L. unfold fix_at. rewrite Nat2Z.id.
  destruct (Nat.leb_spec (off + w) (length mem)); [|lia].
  f_equal. unfold endian_fixup_at. destruct le.
  - rewrite endian_fixup_le.
    + rewrite Nat2Z.id, skipn_skipn. unfold swap_at, slice.
      now rewrite (Nat.add_comm w off).
    + now apply field_width_supported.
    + rewrite Nat2Z.id, length_skipn. lia.
  - rewrite endian_fixup_be. apply firstn_skipn.
Qed.

Lemma fix_fields_swap (le : bool) (ws : list nat) (off : nat)
    (mem : list byte) :
  Forall field_width ws ->
  (off + total ws <= length mem)%nat ->
  fix_fields le off ws mem = Ok (swap_fields le off ws mem).
Proof.
  revert off mem. induction ws as [|w ws IH]; intros off mem W L;
    [reflexivity|].
  inversion W as [|? ? Ww Wws]; subst.
  cbn [total fold_right] in L. fold (total ws) in L.
  cbn [fix_fields swap_fields]. rewrite fix_at_swap by (assumption || lia).
  cbn [bind]. apply IH; [assumption|].
  destruct le; [rewrite length_swap_at|]; lia.
Qed.
Lemma slice_split (mem : list byte) (off a b : nat) :
  slice mem off (a + b) = slice mem off a ++ slice mem (off + a) b.
Proof.
  unfold slice. rewrite (Nat.add_comm off a), <- skipn_skipn.
  set (m := skipn off mem). clearbody m.
  rewrite <- (firstn_skipn a m) at 1.
  destruct (Nat.le_gt_cases a (length m)) as [L|L].
  - rewrite firstn_app, length_firstn, Nat.min_l by exact L.
    replace (a + b - a)%nat with b by lia.
    rewrite firstn_firstn, Nat.min_r by lia. reflexivity.
  - rewrite (firstn_all2 m (n := a)) by lia.
    rewrite (skipn_all2 m (n := a)) by lia.
    rewrite firstn_nil, !app_nil_r.
    apply firstn_all2. lia.
Qed.

Lemma slice_swap_fields_before (le : bool) (ws : list nat) (off o n : nat)
    (mem : list byte) :
  (o + n <= off)%nat -> (off <= length mem)%nat ->
  slice (swap_fields le off ws mem) o n = slice mem o n.
Proof.
  intros B L. rewrite swap_fields_from by exact L.
  unfold slice. rewrite skipn_app, length_firstn, Nat.min_l by exact L.
  rewrite firstn_app, length_skipn, length_firstn, Nat.min_l by exact L.
  replace (o - off)%nat with 0%nat by lia.
  replace (n - (off - o))%nat with 0%nat by lia.
  cbn [skipn firstn]. rewrite app_nil_r.
  rewrite <- (firstn_skipn off mem) at 2.
  rewrite skipn_app, length_firstn, Nat.min_l by exact L.
  rewrite firstn_app, length_skipn, length_firstn, Nat.min_l by exact L.
  replace (o - off)%nat with 0%nat by lia.
  replace (n - (off - o))%nat with 0%nat by lia.
  cbn [skipn firstn]. now rewrite app_nil_r.
Qed.

Lemma put_fields_swap (le : bool) (ws : list nat) (off : nat)
    (mem out : list byte) :
  Forall field_width ws ->
  (off + total ws <= length mem)%nat ->
  put_fields le off ws (mem, out)
  = Ok (swap_fields le off ws mem,
        out ++ slice (swap_fields le off ws mem) off (total ws)).
Proof.
  revert off mem out. induction ws as [|w ws IH]; intros off mem out W L.
  - cbn. unfold slice. cbn. now rewrite app_nil_r.
  - inversion W as [|? ? Ww Wws]; subst.
    cbn [total fold_right] in *. fold (total ws) in *.
    cbn [put_fields swap_fields]. unfold put at 1.
    rewrite fix_at_swap by (assumption || lia). cbn [bind].
    rewrite Nat2Z.id.
    set (m1 := if le then swap_at off w mem else mem).
    assert (L1 : length m1 = length mem)
      by (subst m1; destruct le; [apply length_swap_at; lia|reflexivity]).
    rewrite IH by (assumption || lia).
    f_equal. f_equal. rewrite <- app_assoc. f_equal.
    rewrite slice_split. f_equal.
    symmetry. apply slice_swap_fields_before; lia.
Qed.

Lemma bytes_le_succ_rev_fixup (le : bool) (x : Z) :
  fwrite_u32 le (fixup_u32 le x) = rev (bytes_le 4 x).
Proof.
  unfold fwrite_u32, fixup_u32. destruct le.
  - rewrite endian_fixup_le; [|reflexivity|cbn; lia].
    cbn [store_uint Z.to_nat Pos.to_nat Pos.iter_op Nat.add].
    rewrite firstn_all2, skipn_all2, app_nil_r by (rewrite length_bytes_le; lia).
    replace 4%nat with (length (rev (bytes_le 4 x))) at 1
      by (rewrite length_rev, length_bytes_le; reflexivity).
    apply (store_load_uint true).
  - rewrite endian_fixup_be.
    replace 4%nat with (length (store_uint false 4 x)) at 1
      by (rewrite length_store_uint; reflexivity).
    rewrite (store_load_uint false). reflexivity.
Qed.

Lemma fixup_u32_le (x : Z) : fixup_u32 true x = byte_swapped32 x.
Proof.
  unfold fixup_u32, byte_swapped32.
  rewrite endian_fixup_le; [|reflexivity|cbn; lia].
  cbn [store_uint Z.to_nat Pos.to_nat Pos.iter_op Nat.add load_uint].
  now rewrite firstn_all2, skipn_all2, app_nil_r
    by (rewrite length_bytes_le; lia).
Qed.

(** The header every [gen_block_*] writes is the big-endian image of the
    key and of the length, whatever the host. *)
Lemma gen_header_bytes (le : bool) (n : node) :
  gen_header le n
  = (fixup_u32 le (key n), fixup_u32 le (size n),
     rev (bytes_le 4 (key n)) ++ rev (bytes_le 4 (size n))).
Proof.
  unfold gen_header. now rewrite !bytes_le_succ_rev_fixup.
Qed.
(** ** The serializer *)

Ltac chain :=
  repeat match goal with
  | |- context [bind (put ?le ?o ?w ?s) _] =>
      destruct (put le o w s) as [[? ?]| |]; cbn [bind put_fields]
  | |- context [bind (fix_at ?le ?o ?w ?s) _] =>
      destruct (fix_at le o w s) as [?| |]; cbn [bind fix_fields]
  end; try reflexivity.

Lemma gen_superblock_fields (h : platform) (n : node) :
  gen_superblock h n = gen_fields h [] n.
Proof.
  unfold gen_superblock, gen_fields. destruct (gen_header _ n) as [[k s] out].
  reflexivity.
Qed.

Lemma gen_block_u32_fields (h : platform) (n : node) :
  gen_block_u32 h n = gen_fields h [4%nat] n.
Proof.
  unfold gen_block_u32, gen_fields. destruct (gen_header _ n) as [[k s] out].
  cbn [put_fields Nat.add Z.of_nat Pos.of_succ_nat Pos.succ]. chain.
Qed.

Lemma gen_block_cnst_fields (h : platform) (n : node) :
  gen_block_cnst h n = gen_fields h [4; 4; 4; 4]%nat n.
Proof.
  unfold gen_block_cnst, gen_fields. destruct (gen_header _ n) as [[k s] out].
  cbn [put_fields Nat.add Z.of_nat Pos.of_succ_nat Pos.succ]. chain.
Qed.

Lemma gen_block_swep_fields (h : platform) (n : node) :
  gen_block_swep h n = gen_fields h [4; 8; 8; 8; 4]%nat n.
Proof.
  unfold gen_block_swep, gen_fields. destruct (gen_header _ n) as [[k s] out].
  cbn [put_fields Nat.add Z.of_nat Pos.of_succ_nat Pos.succ]. chain.
Qed.

Lemma gen_block_fbin_fields (h : platform) (n : node) :
  gen_block_fbin h n = gen_fields h [4; 4]%nat n.
Proof.
  unfold gen_block_fbin, gen_fields. destruct (gen_header _ n) as [[k s] out].
  cbn [put_fields Nat.add Z.of_nat Pos.of_succ_nat Pos.succ]. chain.
Qed.

Lemma gen_block_scal_fields (h : platform) (n : node) :
  gen_block_scal h n = gen_fields h [8; 8]%nat n.
Proof.
  unfold gen_block_scal, gen_fields. destruct (gen_header _ n) as [[k s] out].
  cbn [put_fields Nat.add Z.of_nat Pos.of_succ_nat Pos.succ]. chain.
Qed.

Lemma gen_alvl_loop_fields (le : bool) (loops off : nat)
    (st : list byte * list byte) :
  gen_alvl_loop le loops off st
  = put_fields le off (repeat 2%nat (2 * loops)) st.
Proof.
  revert off st. induction loops as [|k IH]; intros off st; [reflexivity|].
  replace (2 * S k)%nat with (S (S (2 * k))) by lia.
  cbn [gen_alvl_loop repeat put_fields].
  change (Z.of_nat 2) with 2.
  destruct (put le off 2 st) as [st1| |]; cbn [bind]; try reflexivity.
  destruct (put le (off + 2) 2 st1) as [st2| |]; cbn [bind]; try reflexivity.
  rewrite IH. f_equal. lia.
Qed.

Lemma gen_block_alvl_fields (h : platform) (n : node) :
  0 <= size n < 2 ^ 31 ->
  gen_block_alvl h n
  = gen_fields h (repeat 2%nat (2 * Z.to_nat (size n / 4))) n.
Proof.
  intros R. unfold gen_block_alvl, gen_fields.
  destruct (gen_header _ n) as [[k s] out].
  assert (E : wrap32s (wrap64 (wrap32s (size n)) / sizeof_block_alvl)
              = size n / 4).
  { unfold wrap32s, wrap64, sizeof_block_alvl.
    assert (0 <= size n / 4 < 2 ^ 29)
      by (split; [apply Z.div_pos; lia|apply Z.div_lt_upper_bound; lia]).
    rewrite (Z.mod_small (size n + 2147483648)) by lia.
    replace (size n + 2147483648 - 2147483648) with (size n) by lia.
    rewrite (Z.mod_small (size n)) by lia.
    rewrite Z.mod_small by lia. lia. }
  rewrite E, gen_alvl_loop_fields. reflexivity.
Qed.

Lemma gen_fields_written (h : platform) (ws : list nat) (n : node) :
  Forall field_width ws ->
  (total ws <= length (data n))%nat ->
  gen_fields h ws n
  = Ok ({| key := fixup_u32 (little_endian h) (key n);
           size := fixup_u32 (little_endian h) (size n);
           data := swap_fields (little_endian h) 0 ws (data n) |},
        rev (bytes_le 4 (key n)) ++ rev (bytes_le 4 (size n))
        ++ firstn (total ws) (swap_fields (little_endian h) 0 ws (data n))).
Proof.
  intros W L. unfold gen_fields. rewrite gen_header_bytes.
  rewrite put_fields_swap by (assumption || lia).
  cbn [bind]. unfold gen_done. cbn [fst snd]. unfold slice. cbn [skipn].
  now rewrite <- app_assoc.
Qed.

Lemma put_raw_ok (off w : nat) (mem out : list byte) :
  (off + w <= length mem)%nat ->
  put_raw off w (mem, out) = Ok (mem, out ++ slice mem off w).
Proof.
  intros L. unfold put_raw.
  destruct (Nat.leb_spec (off + w) (length mem)); [reflexivity|lia].
Qed.

Lemma gen_block_sign_written (h : platform) (n : node) :
  (208 <= length (data n))%nat ->
  gen_block_sign h n
  = Ok ({| key := fixup_u32 (little_endian h) (key n);
           size := fixup_u32 (little_endian h) (size n);
           data := data n |},
        rev (bytes_le 4 (key n)) ++ rev (bytes_le 4 (size n))
        ++ firstn 208 (data n)).
Proof.
  intros L. unfold gen_block_sign. rewrite gen_header_bytes.
  unfold SIZE_DESCRIPTION, SIZE_OWNERNAME, SIZE_COMMENT.
  repeat (rewrite put_raw_ok by lia; cbn [bind]).
  unfold gen_done. cbn [fst snd]. f_equal. f_equal.
  rewrite <- !app_assoc. f_equal. f_equal.
  change (firstn 208 (data n))
    with (slice (data n) 0 (4 + (4 + (4 + (4 + (64 + (64 + 64))))))).
  rewrite !slice_split. reflexivity.
Qed.
Lemma known_key_cases (k : Z) :
  known_key k = true ->
  k = KEY_alvl \/ k = KEY_gtag \/ k = KEY_atag \/ k = KEY_indx \/
  k = KEY_scal \/ k = KEY_sign \/ k = KEY_mcda \/ k = KEY_cnst \/
  k = KEY_swep \/ k = KEY_fbin \/ k = KEY_AQLV \/ k = KEY_HEAD \/
  k = KEY_BODY \/ k = KEY_END.
Proof.
  unfold known_key. cbn [existsb]. rewrite !orb_true_iff, !Z.eqb_eq.
  intuition (try discriminate).
Qed.

Lemma find_block_functions_known (h : platform) (k : Z) :
  known_key k = true ->
  exists bf, find_block_functions h k = Some bf /\ bf_key bf = k.
Proof.
  intros K. apply known_key_cases in K.
  repeat (destruct K as [->|K]); [..|subst k];
    (eexists; split; [reflexivity|reflexivity]).
Qed.

Lemma find_block_functions_key (h : platform) (k : Z) (bf : block_functions h) :
  find_block_functions h k = Some bf -> bf_key bf = k /\ known_key k = true.
Proof.
  unfold find_block_functions. destruct (k =? 0); [discriminate|].
  intros F. apply find_some in F. destruct F as [I E].
  apply Z.eqb_eq in E. split; [congruence|].
  unfold known_key. apply existsb_exists. exists (bf_key bf). split.
  - cbn in I. repeat (destruct I as [<-|I]; [cbn; tauto|]). destruct I.
  - apply Z.eqb_eq. congruence.
Qed.

Lemma Forall_field_width_repeat2 (c : nat) : Forall field_width (repeat 2%nat c).
Proof.
  induction c; cbn; constructor; [left; reflexivity|assumption].
Qed.

(** What each [gen_block_*] does to a node it can take. *)
Lemma gen_written (h : platform) (n : node) (bf : block_functions h) :
  find_block_functions h (key n) = Some bf ->
  serializable n = true ->
  gen bf n = Ok (written_node (little_endian h) n,
                 written_bytes (little_endian h) n).
Proof.
  unfold serializable. intros F S.
  apply andb_prop in S. destruct S as [S L].
  apply andb_prop in S. destruct S as [S R1].
  apply andb_prop in S. destruct S as [K R0].
  apply Nat.leb_le in L. apply Z.leb_le in R0. apply Z.ltb_lt in R1.
  unfold written_bytes, written_node.
  apply known_key_cases in K. destruct n as [k s d]. cbn [key size data] in *.
  repeat (destruct K as [->|K]); [..|subst k];
    cbv [find_block_functions Global_function_dictionary find bf_key
         KEY_alvl KEY_gtag KEY_atag KEY_indx KEY_scal KEY_sign KEY_mcda
         KEY_cnst KEY_swep KEY_fbin KEY_AQLV KEY_HEAD KEY_BODY KEY_END
         Z.eqb Pos.eqb] in F;
    injection F as <-; cbn [gen].
  - rewrite gen_block_alvl_fields by (cbn; lia).
    rewrite gen_fields_written;
      [reflexivity|apply Forall_field_width_repeat2|exact L].
  - unfold gen_block_gtag. rewrite gen_block_u32_fields, gen_fields_written;
      [reflexivity|repeat constructor; cbv; tauto|exact L].
  - unfold gen_block_atag. rewrite gen_block_u32_fields, gen_fields_written;
      [reflexivity|repeat constructor; cbv; tauto|exact L].
  - unfold gen_block_indx. rewrite gen_block_u32_fields, gen_fields_written;
      [reflexivity|repeat constructor; cbv; tauto|exact L].
  - rewrite gen_block_scal_fields, gen_fields_written;
      [reflexivity|repeat constructor; cbv; tauto|exact L].
  - rewrite gen_block_sign_written by exact L. reflexivity.
  - unfold gen_block_mcda. rewrite gen_block_u32_fields, gen_fields_written;
      [reflexivity|repeat constructor; cbv; tauto|exact L].
  - rewrite gen_block_cnst_fields, gen_fields_written;
      [reflexivity|repeat constructor; cbv; tauto|exact L].
  - rewrite gen_block_swep_fields, gen_fields_written;
      [reflexivity|repeat constructor; cbv; tauto|exact L].
  - rewrite gen_block_fbin_fields, gen_fields_written;
      [reflexivity|repeat constructor; cbv; tauto|exact L].
  - unfold gen_block_aqlv. rewrite gen_superblock_fields, gen_fields_written;
      [reflexivity|constructor|cbn; lia].
  - unfold gen_block_head. rewrite gen_superblock_fields, gen_fields_written;
      [reflexivity|constructor|cbn; lia].
  - unfold gen_block_body. rewrite gen_superblock_fields, gen_fields_written;
      [reflexivity|constructor|cbn; lia].
  - unfold gen_block_end. rewrite gen_superblock_fields, gen_fields_written;
      [reflexivity|constructor|cbn; lia].
Qed.

(** [ts_write] on nodes it can take: it succeeds, every node is left as
    [written_node] says and the output is the nodes' bytes in order. *)
Lemma ts_write_written (h : platform) (l : list node) :
  forallb serializable l = true ->
  ts_write h l
  = (Ok tt, concat (map (written_bytes (little_endian h)) l),
     map (written_node (little_endian h)) l).
Proof.
  induction l as [|n l IH]; intros S; [reflexivity|].
  cbn [forallb] in S. apply andb_prop in S. destruct S as [Sn Sl].
  cbn [ts_write map concat].
  assert (K : known_key (key n) = true).
  { unfold serializable in Sn. now repeat (apply andb_prop in Sn; destruct Sn as [Sn _]). }
  destruct (find_block_functions_known h _ K) as (bf & F & _).
  rewrite F, (gen_written h n bf F Sn), (IH Sl). reflexivity.
Qed.
Lemma written_node_le (n : node) : written_node true n = swapped_node n.
Proof.
  unfold written_node, swapped_node. now rewrite !fixup_u32_le.
Qed.

Lemma swapped_key_unknown (h : platform) (k : Z) :
  known_key k = true -> find_block_functions h (byte_swapped32 k) = None.
Proof.
  intros K. apply known_key_cases in K.
  repeat (destruct K as [->|K]); [..|subst k]; reflexivity.
Qed.

Lemma length_written_bytes (le : bool) (n : node) :
  (8 <= length (written_bytes le n))%nat.
Proof.
  unfold written_bytes. rewrite !length_app, !length_rev, !length_bytes_le. lia.
Qed.

(** C10 (amended).  On a little-endian host, serializing a sequence the
    serializer can take leaves every node with its key and its length
    byte-swapped and with the scalar fields of its payload byte-swapped
    where they lie, the signature block's payload apart, which is written
    and left as it is.  A second serialization of the sequence as it was
    left stops at its first block, whose swapped key is in no registry
    entry: it returns the failure and writes nothing, while the first one
    wrote at least the eight bytes of a header. *)
Theorem ts_write_mutates (h : platform) (l : list node) :
  little_endian h = true ->
  forallb serializable l = true ->
  ts_write h l
  = (Ok tt, concat (map (written_bytes true) l), map swapped_node l)
  /\ (l <> [] ->
      ts_write h (map swapped_node l)
      = (Err UnknownBlockType, [], map swapped_node l)
      /\ (8 <= length (concat (map (written_bytes true) l)))%nat).
Proof.
  intros LE S. split.
  - rewrite (ts_write_written h l S), LE.
    f_equal; try (apply map_ext, written_node_le).
  - intros NE. destruct l as [|n l]; [congruence|].
    cbn [forallb] in S. apply andb_prop in S. destruct S as [Sn _].
    assert (K : known_key (key n) = true).
    { unfold serializable in Sn.
      now repeat (apply andb_prop in Sn; destruct Sn as [Sn _]). }
    split.
    + cbn [map ts_write]. cbn [swapped_node key].
      now rewrite (swapped_key_unknown h _ K).
    + cbn [map concat]. rewrite length_app.
      pose proof (length_written_bytes true n). lia.
Qed.

Lemma ts_write_mutates_witness :
  little_endian (reference true) = true /\
  forallb serializable small_sequence = true /\
  ts_write (reference true) small_sequence
  = (Ok tt, concat (map (written_bytes true) small_sequence),
     map swapped_node small_sequence)
  /\ (small_sequence <> [] ->
      ts_write (reference true) (map swapped_node small_sequence)
      = (Err UnknownBlockType, [], map swapped_node small_sequence)
      /\ (8 <= length (concat (map (written_bytes true) small_sequence)))%nat).
Proof.
  assert (LE : little_endian (reference true) = true) by reflexivity.
  assert (S : forallb serializable small_sequence = true) by reflexivity.
  split; [exact LE|]. split; [exact S|].
  exact (ts_write_mutates (reference true) small_sequence LE S).
Defined.

(** C10, as stated, fails on a signature block: on a little-endian host
    its payload, with the scalar fields version, file type, site code and
    user flags, is the same after serialization as before; and the second
    serialization does not write the fields swapped back, it fails at the
    block and writes nothing. *)
Lemma ts_write_sign_payload_kept :
  let '(status, out, l') := ts_write (reference true) [sign_block] in
  status = Ok tt /\
  length out = 216%nat /\
  map data l' = [data sign_block] /\
  ts_write (reference true) l' = (Err UnknownBlockType, [], l').
Proof. vm_compute. repeat split. Qed.
(** ** The normalizers *)

Lemma fix_at_fault (le : bool) (off w : nat) (mem : list byte) :
  (length mem < off + w)%nat -> fix_at le off (Z.of_nat w) mem = Fault.
Proof.
  intros L. unfold fix_at. rewrite Nat2Z.id.
  destruct (Nat.leb_spec (off + w) (length mem)); [lia|reflexivity].
Qed.

Lemma fix_fields_total (le : bool) (ws : list nat) (off : nat)
    (mem : list byte) :
  Forall field_width ws ->
  (off <= length mem)%nat ->
  fix_fields le off ws mem
  = if (off + total ws <=? length mem)%nat
    then Ok (swap_fields le off ws mem) else Fault.
Proof.
  intros W O. destruct (Nat.leb_spec (off + total ws) (length mem)) as [L|L].
  - now apply fix_fields_swap.
  - revert off mem O L. induction W as [|w ws Ww Wws IH]; intros off mem O L.
    + cbn in L. lia.
    + cbn [total fold_right] in L. fold (total ws) in L.
      cbn [fix_fields].
      destruct (Nat.le_gt_cases (off + w) (length mem)) as [L1|L1].
      * rewrite fix_at_swap by assumption. cbn [bind].
        apply IH; destruct le; rewrite ?length_swap_at; lia.
      * now rewrite fix_at_fault.
Qed.

Lemma fix_fields_total0 (le : bool) (ws : list nat) (mem : list byte) :
  Forall field_width ws ->
  fix_fields le 0 ws mem
  = if (total ws <=? length mem)%nat
    then Ok (swap_fields le 0 ws mem) else Fault.
Proof.
  intros W. apply (fix_fields_total le ws 0 mem W). lia.
Qed.

Lemma fixup_alvl_loop_fields (le : bool) (loops off : nat) (mem : list byte) :
  fixup_alvl_loop le loops off mem
  = fix_fields le off (repeat 2%nat (2 * loops)) mem.
Proof.
  revert off mem. induction loops as [|k IH]; intros off mem; [reflexivity|].
  replace (2 * S k)%nat with (S (S (2 * k))) by lia.
  cbn [fixup_alvl_loop repeat fix_fields].
  change (Z.of_nat 2) with 2.
  destruct (fix_at le off 2 mem) as [m1| |]; cbn [bind]; try reflexivity.
  destruct (fix_at le (off + 2) 2 m1) as [m2| |]; cbn [bind]; try reflexivity.
  rewrite IH. f_equal. lia.
Qed.

Ltac fields_form :=
  cbn [fix_fields Nat.add Z.of_nat Pos.of_succ_nat Pos.succ]; chain.

(** [fixup_data] is [normalized]: an unknown key and a payload shorter
    than the struct are the two failures, and past them the scalar fields
    of the layout are normalized in place. *)
Lemma fixup_data_normalized (h : platform) (n : node) :
  fixup_data h n = normalized h n.
Proof.
  unfold fixup_data, normalized.
  destruct (known_key (key n)) eqn:K; cbn [negb].
  - pose proof K as K'. apply known_key_cases in K'.
    destruct n as [k s d]. cbn [key size data] in *.
    repeat (destruct K' as [->|K']); [..|subst k];
      cbv [find_block_functions Global_function_dictionary find bf_key
           KEY_alvl KEY_gtag KEY_atag KEY_indx KEY_scal KEY_sign KEY_mcda
           KEY_cnst KEY_swep KEY_fbin KEY_AQLV KEY_HEAD KEY_BODY KEY_END
           Z.eqb Pos.eqb];
      cbn [fixup];
      match goal with
      | |- ?f h ?n = _ => unfold f; cbn [key size data]
      end;
      cbv [min_size scalar_fields superblock
           KEY_alvl KEY_gtag KEY_atag KEY_indx KEY_scal KEY_sign KEY_mcda
           KEY_cnst KEY_swep KEY_fbin KEY_AQLV KEY_HEAD KEY_BODY KEY_END
           Z.eqb Pos.eqb];
      try reflexivity;
      match goal with
      | |- (if ?x <? ?a then _ else _) = _ => destruct (x <? a); [reflexivity|]
      end.
    all: try (rewrite <- fix_fields_total0
                by (repeat constructor; cbv; tauto);
              fields_form).
    rewrite fixup_alvl_loop_fields.
    rewrite <- fix_fields_total0 by (apply Forall_field_width_repeat2).
    reflexivity.
  - destruct (find_block_functions h (key n)) as [bf|] eqn:F; [|reflexivity].
    apply find_block_functions_key in F. destruct F as [_ F]. congruence.
Qed.
(** ** The decoder *)

Lemma length_endian_fixup_at (le : bool) (mem : list byte) (off : nat) :
  (off + 4 <= length mem)%nat ->
  length (endian_fixup_at le mem off 4) = length mem.
Proof.
  intros L. unfold endian_fixup_at. rewrite length_app.
  rewrite <- (firstn_skipn off mem) at 3. rewrite length_app. f_equal.
  destruct le; [|reflexivity].
  change 4 with (Z.of_nat 4).
  rewrite endian_fixup_le;
    [|reflexivity|rewrite Nat2Z.id, length_skipn; lia].
  rewrite Nat2Z.id, length_app, length_rev, length_firstn, !length_skipn. lia.
Qed.

(** The header of a block, normalized where it lies: the key and the
    declared length are the big-endian integers of the stream, and the
    bytes behind the header are not touched. *)
Lemma header_fixup (le : bool) (buffer : list byte) :
  (8 <= length buffer)%nat ->
  let b1 := endian_fixup_at le buffer 0 4 in
  let b2 := endian_fixup_at le b1 4 4 in
  load_u32 le b1 0 = be32 buffer 0 /\
  load_u32 le b2 4 = be32 buffer 4 /\
  length (firstn 8 b2) = 8%nat /\
  skipn 8 b2 = skipn 8 buffer.
Proof.
  intros L.
  destruct buffer as [|a0 [|a1 [|a2 [|a3 [|c0 [|c1 [|c2 [|c3 rest]]]]]]]];
    cbn [length] in L; try lia.
  destruct le; cbv [be32 slice load_u32 load_uint]; repeat split.
Qed.
(** One turn of the loop of [parse_block], the header read as the stream
    holds it. *)
Lemma parse_block_step (h : platform) (fuel : nat) (buffer : list byte)
    (len : Z) :
  0 < len ->
  (8 <= length buffer)%nat ->
  parse_block h (S fuel) buffer len =
    let le := little_endian h in
    let k := be32 buffer 0 in
    let declared := be32 buffer 4 in
    let b2 := endian_fixup_at le (endian_fixup_at le buffer 0 4) 4 4 in
    let len1 := wrap64 (len - 8) in
    let sz := if declared >? len1 then len1 else declared in
    let buffer1 := skipn 8 buffer in
    match (if superblock k then parse_block h fuel buffer1 sz
           else Some (mem <- fixup_data h {| key := k; size := sz;
                                             data := buffer1 |} ;;
                      Ok ([], mem))) with
    | None => None
    | Some (Err e) => Some (Err e)
    | Some Fault => Some Fault
    | Some (Ok (sub, buf)) =>
        match parse_block h fuel (skipn (Z.to_nat sz) buf)
                (wrap64 (len1 - sz)) with
        | None => None
        | Some (Err e) => Some (Err e)
        | Some Fault => Some Fault
        | Some (Ok (rest, buf')) =>
            Some (Ok ({| key := k; size := sz;
                         data := firstn (Z.to_nat sz) buf |} :: sub ++ rest,
                      firstn 8 b2 ++ firstn (Z.to_nat sz) buf ++ buf'))
        end
    end.
Proof.
  intros P L. cbn [parse_block].
  destruct (Z.gtb_spec len 0) as [_|]; [|lia]. cbn [negb].
  destruct (Nat.ltb_spec (length buffer) 8) as [|_]; [lia|].
  cbv zeta. destruct (header_fixup (little_endian h) buffer L) as (E1 & E2 & _ & E4).
  rewrite E1, E2, E4. reflexivity.
Qed.
Lemma known_key_range (k : Z) : known_key k = true -> 0 <= k < 2 ^ 32.
Proof.
  intros K. apply known_key_cases in K.
  repeat (destruct K as [->|K]); [..|subst k]; cbv; split; congruence.
Qed.

Lemma be32_head (k : Z) (X : list byte) :
  0 <= k < 2 ^ 32 -> be32 (rev (bytes_le 4 k) ++ X) 0 = k.
Proof.
  intros R. unfold be32, slice. cbn [skipn].
  rewrite firstn_app, length_rev, length_bytes_le.
  rewrite (firstn_all2 (rev (bytes_le 4 k)))
    by (rewrite length_rev, length_bytes_le; lia).
  change (4 - 4)%nat with 0%nat. cbn [firstn]. rewrite app_nil_r.
  rewrite rev_involutive, Z_of_le_bytes_le. apply Z.mod_small.
  change (256 ^ Z.of_nat 4) with (2 ^ 32). exact R.
Qed.

Lemma be32_second (A X : list byte) (s : Z) :
  length A = 4%nat -> 0 <= s < 2 ^ 32 ->
  be32 (A ++ rev (bytes_le 4 s) ++ X) 4 = s.
Proof.
  intros LA R. unfold be32, slice.
  rewrite skipn_app, LA. cbn [Nat.sub]. rewrite skipn_all2 by lia.
  cbn [app skipn]. apply (be32_head s X R).
Qed.

Lemma payload_bytes_superblock (k sz : Z) :
  superblock k = true -> payload_bytes k sz = 0%nat.
Proof.
  unfold superblock. intros S.
  destruct (k =? KEY_AQLV) eqn:E1; [apply Z.eqb_eq in E1; subst; reflexivity|].
  destruct (k =? KEY_HEAD) eqn:E2; [apply Z.eqb_eq in E2; subst; reflexivity|].
  destruct (k =? KEY_BODY) eqn:E3; [apply Z.eqb_eq in E3; subst; reflexivity|].
  destruct (k =? KEY_END) eqn:E4; [apply Z.eqb_eq in E4; subst; reflexivity|].
  discriminate.
Qed.

Lemma superblock_known (k : Z) : superblock k = true -> known_key k = true.
Proof.
  unfold superblock. intros S.
  destruct (k =? KEY_AQLV) eqn:E1; [apply Z.eqb_eq in E1; subst; reflexivity|].
  destruct (k =? KEY_HEAD) eqn:E2; [apply Z.eqb_eq in E2; subst; reflexivity|].
  destruct (k =? KEY_BODY) eqn:E3; [apply Z.eqb_eq in E3; subst; reflexivity|].
  destruct (k =? KEY_END) eqn:E4; [apply Z.eqb_eq in E4; subst; reflexivity|].
  discriminate.
Qed.

Lemma span_nonneg (l : list node) : 0 <= span l.
Proof. induction l as [|n l IH]; cbn [span]; lia. Qed.

Lemma span_app (a b : list node) : span (a ++ b) = span a + span b.
Proof. induction a as [|n a IH]; cbn [span app]; lia. Qed.

(** A well-framed sequence is one the serializer can take. *)
Lemma framed_serializable (l : list node) :
  framed l -> forallb serializable l = true.
Proof.
  induction 1 as [|n rest (S & K & (M1 & M2) & E & L) _ IH
                  |n inner rest S E R _ IHi _ IHr].
  - reflexivity.
  - cbn [forallb]. rewrite IH, andb_true_r. unfold serializable.
    rewrite K, L, Nat.leb_refl. cbn [andb].
    assert (0 <= min_size (key n)).
    { apply known_key_cases in K.
      repeat (destruct K as [->|K]); [..|rewrite K]; cbv; congruence. }
    destruct (Z.leb_spec 0 (size n)); [|lia].
    destruct (Z.ltb_spec (size n) (2 ^ 31)); [reflexivity|lia].
  - cbn [forallb]. rewrite forallb_app, IHi, IHr, !andb_true_r.
    unfold serializable.
    rewrite (superblock_known _ S), (payload_bytes_superblock _ _ S).
    pose proof (span_nonneg inner). cbn [andb Nat.leb].
    destruct (Z.leb_spec 0 (size n)); [|lia].
    destruct (Z.ltb_spec (size n) (2 ^ 31)); [reflexivity|lia].
Qed.

Lemma length_written_payload (le : bool) (n : node) :
  (payload_bytes (key n) (size n) <= length (data n))%nat ->
  length (firstn (payload_bytes (key n) (size n)) (data (written_node le n)))
  = payload_bytes (key n) (size n).
Proof.
  intros L. rewrite length_firstn. cbn [written_node data].
  rewrite length_swap_fields; [lia|].
  unfold written_fields, payload_bytes in *.
  destruct (key n =? KEY_sign); cbn; lia.
Qed.

Lemma length_written_span (le : bool) (l : list node) :
  forallb serializable l = true ->
  Z.of_nat (length (concat (map (written_bytes le) l))) = span l.
Proof.
  induction l as [|n l IH]; intros S; [reflexivity|].
  cbn [forallb] in S. apply andb_prop in S. destruct S as [Sn Sl].
  cbn [map concat span]. rewrite length_app, Nat2Z.inj_add, (IH Sl).
  unfold written_bytes. rewrite !length_app, !length_rev, !length_bytes_le.
  rewrite length_written_payload; [lia|].
  unfold serializable in Sn. apply andb_prop in Sn. destruct Sn as [_ Sn].
  now apply Nat.leb_le.
Qed.
Lemma swap_fields_app_r (le : bool) (ws : list nat) (p q : list byte) :
  (total ws <= length p)%nat ->
  swap_fields le 0 ws (p ++ q) = swap_fields le 0 ws p ++ q.
Proof.
  revert p. induction ws as [|w ws IH]; intros p L; [reflexivity|].
  cbn [total fold_right] in L. fold (total ws) in L.
  assert (LB : length (firstn w p) = w) by (rewrite length_firstn; lia).
  assert (LC : (total ws <= length (skipn w p))%nat)
    by (rewrite length_skipn; lia).
  rewrite <- (firstn_skipn w p) at 1 2. rewrite <- app_assoc.
  cbn [swap_fields Nat.add]. destruct le.
  - rewrite !swap_at_0_app by (symmetry; exact LB).
    rewrite (swap_fields_app true (rev (firstn w p)) (skipn w p ++ q))
      by (rewrite length_rev; symmetry; exact LB).
    rewrite (swap_fields_app true (rev (firstn w p)) (skipn w p))
      by (rewrite length_rev; symmetry; exact LB).
    now rewrite IH, app_assoc.
  - rewrite (swap_fields_app false (firstn w p) (skipn w p ++ q))
      by (symmetry; exact LB).
    rewrite (swap_fields_app false (firstn w p) (skipn w p))
      by (symmetry; exact LB).
    now rewrite IH, app_assoc.
Qed.

Lemma wrap64_small (z : Z) : 0 <= z < 2 ^ 64 -> wrap64 z = z.
Proof. unfold wrap64. apply Z.mod_small. Qed.

Lemma parse_block_end (h : platform) (fuel : nat) (buffer : list byte) :
  parse_block h (S fuel) buffer 0 = Some (Ok ([], buffer)).
Proof. reflexivity. Qed.

Lemma total_scalar_le_payload (k sz : Z) :
  (total (scalar_fields k sz) <= payload_bytes k sz)%nat.
Proof.
  unfold payload_bytes. destruct (k =? KEY_sign) eqn:E; [|lia].
  apply Z.eqb_eq in E. subst k. cbn. lia.
Qed.

Lemma skipn_header (a b : Z) (X : list byte) :
  skipn 8 (rev (bytes_le 4 a) ++ rev (bytes_le 4 b) ++ X) = X.
Proof.
  rewrite app_assoc, skipn_app, skipn_all2
    by (rewrite length_app, !length_rev, !length_bytes_le; lia).
  rewrite length_app, !length_rev, !length_bytes_le. reflexivity.
Qed.

Lemma length_header_fixup (le : bool) (buffer : list byte) :
  (8 <= length buffer)%nat ->
  length (firstn 8 (endian_fixup_at le (endian_fixup_at le buffer 0 4) 4 4))
  = 8%nat.
Proof. intros L. now destruct (header_fixup le buffer L) as (_ & _ & E & _). Qed.

(** What the decoder gives back for a block that is no container and that
    [ts_write] wrote: the payload as it was, the four scalars of a
    signature block apart. *)
Lemma leaf_round_trip (le : bool) (n : node) :
  leaf_block n ->
  let ws := scalar_fields (key n) (size n) in
  let payload :=
    firstn (payload_bytes (key n) (size n)) (data (written_node le n)) in
  same_block n {| key := key n; size := size n;
                  data := swap_fields le 0 ws payload |}.
Proof.
  intros (S & K & (M1 & M2) & E & L). cbv zeta.
  unfold same_block. cbn [key size data written_node].
  split; [reflexivity|]. split; [reflexivity|]. intros _.
  pose proof (total_scalar_le_payload (key n) (size n)) as TS.
  unfold written_fields. unfold payload_bytes in *.
  destruct (key n =? KEY_sign) eqn:Esign.
  - cbn [swap_fields]. rewrite firstn_all2 by lia.
    apply Z.eqb_eq in Esign. rewrite Esign in *.
    change (scalar_fields KEY_sign (size n)) with [4; 4; 4; 4]%nat in *.
    change 16%nat with (total [4; 4; 4; 4]%nat).
    apply skipn_swap_fields_0. cbn. lia.
  - rewrite firstn_all2 by (rewrite length_swap_fields; lia).
    apply swap_fields_0_involutive. lia.
Qed.

(** The decoder on the bytes of a well-framed sequence, whatever follows
    them in the buffer. *)
Lemma parse_block_written (h : platform) (l : list node) :
  framed l ->
  forall (tail : list byte) (fuel : nat),
    span l + Z.of_nat (length tail) < Z.of_nat fuel ->
    span l < 2 ^ 64 ->
    exists l' X,
      parse_block h fuel
        (concat (map (written_bytes (little_endian h)) l) ++ tail) (span l)
      = Some (Ok (l', X ++ tail)) /\
      Z.of_nat (length X) = span l /\
      Forall2 same_block l l'.
Proof.
  induction 1 as [|n rest LB FR IH|n inner rest S E R FI IHi FR IHr];
    intros tail fuel F B.
  - destruct fuel as [|f]; [cbn in F; lia|].
    exists [], []. cbn [map concat span app]. rewrite parse_block_end.
    repeat split. constructor.
  - pose proof (leaf_round_trip (little_endian h) n LB) as RT.
    destruct LB as (S & K & (M1 & M2) & E & L).
    pose proof (span_nonneg rest) as SR.
    destruct fuel as [|f]; [cbn [span] in F; lia|].
    cbn [map concat span] in *. cbv zeta in RT.
    set (pb := payload_bytes (key n) (size n)) in *.
    set (T := concat (map (written_bytes (little_endian h)) rest) ++ tail).
    assert (LP : length (firstn pb (data (written_node (little_endian h) n))) = pb)
      by (apply length_written_payload; fold pb; lia).
    set (payload := firstn pb (data (written_node (little_endian h) n))) in *.
    replace ((written_bytes (little_endian h) n ++ concat (map (written_bytes (little_endian h)) rest)) ++ tail)
      with (rev (bytes_le 4 (key n)) ++ rev (bytes_le 4 (size n)) ++ payload ++ T)
      by (unfold written_bytes, T; fold pb; fold payload;
          now rewrite <- !app_assoc).
    rewrite parse_block_step;
      [|lia|rewrite !length_app, !length_rev, !length_bytes_le; lia].
    cbv zeta.
    rewrite be32_head by (apply known_key_range, K).
    rewrite be32_second
      by (rewrite ?length_rev, ?length_bytes_le; (reflexivity || lia)).
    match goal with
    | |- context [firstn 8 ?b] => 
        assert (LH : length (firstn 8 b) = 8%nat)
          by (apply length_header_fixup;
              rewrite !length_app, !length_rev, !length_bytes_le; lia);
        set (hdr := firstn 8 b) in *
    end.
    rewrite skipn_header.
    replace (wrap64 (8 + Z.of_nat pb + span rest - 8))
      with (Z.of_nat pb + span rest) by (rewrite wrap64_small; lia).
    destruct (Z.gtb_spec (size n) (Z.of_nat pb + span rest)) as [|_]; [lia|].
    rewrite S, fixup_data_normalized. unfold normalized.
    cbn [key size data]. rewrite K, S. cbn [negb].
    destruct (Z.ltb_spec (size n) (min_size (key n))) as [|_]; [lia|].
    pose proof (total_scalar_le_payload (key n) (size n)) as TS. fold pb in TS.
    set (ws := scalar_fields (key n) (size n)) in *.
    destruct (Nat.leb_spec (total ws) (length (payload ++ T))) as [_|C];
      [|rewrite length_app in C; lia].
    rewrite swap_fields_app_r by lia. cbn [bind].
    assert (LS : length (swap_fields (little_endian h) 0 ws payload) = pb)
      by (rewrite length_swap_fields; lia).
    replace (Z.to_nat (size n)) with pb by lia.
    rewrite skipn_app, firstn_app, LS, Nat.sub_diag.
    rewrite skipn_all2, firstn_all2 by lia. cbn [skipn firstn app].
    rewrite app_nil_r.
    replace (wrap64 (Z.of_nat pb + span rest - size n)) with (span rest)
      by (rewrite wrap64_small; lia).
    destruct (IH tail f) as (rest' & Xr & P & LX & F2); [lia|lia|].
    unfold T. rewrite P.
    exists ({| key := key n; size := size n;
               data := swap_fields (little_endian h) 0 ws payload |} :: rest'),
           (hdr ++ swap_fields (little_endian h) 0 ws payload ++ Xr).
    split; [now rewrite <- !app_assoc|].
    split; [rewrite !length_app; lia|].
    constructor; [exact RT|exact F2].
  - pose proof (span_nonneg inner) as SI. pose proof (span_nonneg rest) as SR.
    cbn [span] in *. rewrite span_app in *.
    rewrite (payload_bytes_superblock _ _ S) in *.
    destruct fuel as [|f]; [lia|].
    cbn [map concat]. rewrite map_app, concat_app.
    set (T := concat (map (written_bytes (little_endian h)) rest) ++ tail).
    replace ((written_bytes (little_endian h) n
              ++ concat (map (written_bytes (little_endian h)) inner)
              ++ concat (map (written_bytes (little_endian h)) rest)) ++ tail)
      with (rev (bytes_le 4 (key n)) ++ rev (bytes_le 4 (size n))
            ++ concat (map (written_bytes (little_endian h)) inner) ++ T)
      by (unfold written_bytes, T;
          rewrite (payload_bytes_superblock _ _ S); cbn [firstn];
          now rewrite <- !app_assoc).
    rewrite parse_block_step;
      [|lia|rewrite !length_app, !length_rev, !length_bytes_le; lia].
    cbv zeta.
    rewrite be32_head by (apply known_key_range, superblock_known, S).
    rewrite be32_second
      by (rewrite ?length_rev, ?length_bytes_le; (reflexivity || lia)).
    match goal with
    | |- context [firstn 8 ?b] => 
        assert (LH : length (firstn 8 b) = 8%nat)
          by (apply length_header_fixup;
              rewrite !length_app, !length_rev, !length_bytes_le; lia);
        set (hdr := firstn 8 b) in *
    end.
    rewrite skipn_header.
    replace (wrap64 (8 + Z.of_nat 0 + (span inner + span rest) - 8))
      with (span inner + span rest) by (rewrite wrap64_small; lia).
    destruct (Z.gtb_spec (size n) (span inner + span rest)) as [|_]; [lia|].
    rewrite S, E.
    destruct (IHi T f) as (inner' & Xi & Pi & LXi & Fi);
      [unfold T; rewrite length_app;
       pose proof (length_written_span (little_endian h) rest (framed_serializable _ FR));
       lia|lia|].
    rewrite Pi.
    replace (Z.to_nat (span inner)) with (length Xi) by lia.
    rewrite skipn_app, firstn_app, Nat.sub_diag.
    rewrite skipn_all2, firstn_all2 by lia. cbn [skipn firstn app].
    rewrite app_nil_r.
    replace (wrap64 (span inner + span rest - span inner)) with (span rest)
      by (rewrite wrap64_small; lia).
    destruct (IHr tail f) as (rest' & Xr & Pr & LXr & Fr); [lia|lia|].
    unfold T. rewrite Pr.
    exists ({| key := key n; size := span inner; data := Xi |}
              :: inner' ++ rest'),
           (hdr ++ Xi ++ Xr).
    split; [now rewrite <- !app_assoc|].
    split; [rewrite !length_app; lia|].
    constructor.
    + unfold same_block. cbn [key size data]. rewrite S.
      repeat split; [now symmetry|discriminate].
    + now apply Forall2_app.
Qed.
Lemma serialize_written (h : platform) (l : list node) :
  forallb serializable l = true ->
  serialize h l = concat (map (written_bytes (little_endian h)) l).
Proof.
  intros S. unfold serialize. now rewrite (ts_write_written h l S).
Qed.

(** C1 (amended).  For every well-framed block sequence (registered
    tags, every declared length below 2^31, every block that is no
    container carrying exactly the payload its type lays out, every
    container's length equal to the bytes of the blocks it encloses) that
    holds at least one block and takes less than 2^64 bytes, decoding the
    bytes that serializing it produces succeeds and yields a sequence with
    the same tags and lengths, the same payload bytes in every block that
    is no container other than the signature block, and in the signature
    block the same three text fields. *)
Theorem decode_serialize_round_trip (h : platform) (l : list node) :
  framed l ->
  l <> [] ->
  span l < 2 ^ 64 ->
  exists l',
    parse_file h (serialize h l) = Ok l' /\ Forall2 same_block l l'.
Proof.
  intros F NE B.
  pose proof (framed_serializable l F) as S.
  pose proof (length_written_span (little_endian h) l S) as LS.
  rewrite (serialize_written h l S). unfold parse_file.
  set (bytes := concat (map (written_bytes (little_endian h)) l)) in *.
  destruct (parse_block_written h l F [] (Datatypes.S (length bytes)))
    as (l' & X & P & _ & R); [cbn [length]; lia|exact B|].
  fold bytes in P. rewrite !app_nil_r in P. rewrite LS, P.
  exists l'. split; [|exact R].
  destruct R; [congruence|reflexivity].
Qed.

Lemma reconciled_sequence_framed : framed reconciled_sequence.
Proof.
  apply (framed_container {| key := KEY_AQLV; size := 40; data := [] |}
           [ {| key := KEY_HEAD; size := 12; data := [] |};
             block KEY_mcda [xd5; x8d; xdf; x80];
             {| key := KEY_BODY; size := 12; data := [] |};
             block KEY_gtag [x00; x00; x00; x07] ]
           [ block KEY_END [] ]);
    [reflexivity|reflexivity|reflexivity| |].
  - apply (framed_container {| key := KEY_HEAD; size := 12; data := [] |}
             [ block KEY_mcda [xd5; x8d; xdf; x80] ]
             [ {| key := KEY_BODY; size := 12; data := [] |};
               block KEY_gtag [x00; x00; x00; x07] ]);
      [reflexivity|reflexivity|reflexivity| |].
    + apply framed_leaf; [|constructor].
      unfold leaf_block. cbn. repeat split; (reflexivity || discriminate).
    + apply (framed_container {| key := KEY_BODY; size := 12; data := [] |}
               [ block KEY_gtag [x00; x00; x00; x07] ] []);
        [reflexivity|reflexivity|reflexivity| |constructor].
      apply framed_leaf; [|constructor].
      unfold leaf_block. cbn. repeat split; (reflexivity || discriminate).
  - apply (framed_container (block KEY_END []) [] []);
      [reflexivity|reflexivity|reflexivity|constructor|constructor].
Qed.

Lemma decode_serialize_round_trip_witness :
  framed reconciled_sequence /\
  reconciled_sequence <> [] /\
  span reconciled_sequence < 2 ^ 64 /\
  exists l',
    parse_file (reference true) (serialize (reference true) reconciled_sequence)
    = Ok l' /\ Forall2 same_block reconciled_sequence l'.
Proof.
  assert (NE : reconciled_sequence <> []) by discriminate.
  assert (B : span reconciled_sequence < 2 ^ 64) by (vm_compute; reflexivity).
  split; [exact reconciled_sequence_framed|]. split; [exact NE|].
  split; [exact B|].
  exact (decode_serialize_round_trip (reference true) reconciled_sequence
           reconciled_sequence_framed NE B).
Defined.

(** C1, as stated, fails: on a little-endian host the signature block
    that [make_node_sign] builds comes back from serialization and
    decoding with the bytes of its four leading fields reversed. *)
Lemma sign_block_round_trip_differs :
  match parse_file (reference true) (serialize (reference true) [sign_block])
  with
  | Ok [n'] =>
      firstn 16 (data sign_block)
      = list_byte_of_string "CSv4AQLVBML1" ++ [x1f; x00; x00; x00] /\
      firstn 16 (data n')
      = list_byte_of_string "4vSCVLQA1LMB" ++ [x00; x00; x00; x1f]
  | _ => False
  end.
Proof. vm_compute. split; reflexivity. Qed.
Lemma total_repeat2 (c : nat) : total (repeat 2%nat c) = (2 * c)%nat.
Proof.
  unfold total. induction c as [|c IH]; cbn [repeat fold_right]; lia.
Qed.

Lemma total_scalar_le_size (k sz : Z) :
  known_key k = true -> superblock k = false -> min_size k <= sz ->
  Z.of_nat (total (scalar_fields k sz)) <= sz.
Proof.
  intros K S M. apply known_key_cases in K.
  repeat (destruct K as [->|K]); [..|subst k]; try discriminate S;
    cbv [min_size scalar_fields total fold_right
         sizeof_block_sign sizeof_block_mcda sizeof_block_cnst
         sizeof_block_swep sizeof_block_fbin sizeof_block_gtag
         sizeof_block_atag sizeof_block_indx sizeof_block_scal
         sizeof_block_alvl
         KEY_alvl KEY_gtag KEY_atag KEY_indx KEY_scal KEY_sign KEY_mcda
         KEY_cnst KEY_swep KEY_fbin KEY_AQLV KEY_HEAD KEY_BODY KEY_END
         Z.eqb Pos.eqb] in *; try lia.
  fold (total (repeat 2%nat (2 * Z.to_nat (sz / 4)))).
  rewrite total_repeat2.
  pose proof (Z.mul_div_le sz 4 ltac:(lia)).
  assert (0 <= sz / 4) by (apply Z.div_pos; lia). lia.
Qed.



Lemma fixup_data_length (h : platform) (n : node) (mem : list byte) :
  fixup_data h n = Ok mem -> length mem = length (data n).
Proof.
  rewrite fixup_data_normalized. unfold normalized.
  destruct (negb (known_key (key n))); [discriminate|].
  destruct (superblock (key n)); [now intros [= <-]|].
  destruct (size n <? min_size (key n)); [discriminate|].
  destruct (Nat.leb_spec (total (scalar_fields (key n) (size n)))
              (length (data n))) as [L|L]; [|discriminate].
  intros [= <-]. now apply length_swap_fields.
Qed.

(** The decoder with more fuel than the buffer has bytes always returns:
    a sequence, a failure or a fault, never the exhaustion of its fuel;
    and the buffer it leaves has the length of the one it was given. *)
Lemma parse_block_returns (h : platform) (fuel : nat) :
  forall (buffer : list byte) (len : Z),
    (length buffer < fuel)%nat ->
    exists r,
      parse_block h fuel buffer len = Some r /\
      forall nodes buffer', r = Ok (nodes, buffer') ->
                            length buffer' = length buffer.
Proof.
  induction fuel as [|f IH]; intros buffer len F; [lia|].
  destruct (Z.ltb_spec 0 len) as [P|P].
  2:{ exists (Ok ([], buffer)). split.
      - cbn [parse_block]. destruct (Z.gtb_spec len 0); [lia|reflexivity].
      - now intros ? ? [= _ <-]. }
  destruct (Nat.ltb_spec (length buffer) 8) as [S|L].
  { exists Fault. split; [|discriminate].
    cbn [parse_block]. destruct (Z.gtb_spec len 0); [|lia]. cbn [negb].
    destruct (Nat.ltb_spec (length buffer) 8); [reflexivity|lia]. }
  rewrite parse_block_step by assumption. cbv zeta.
  match goal with
  | |- context [firstn 8 ?b] =>
      assert (LH : length (firstn 8 b) = 8%nat)
        by (now apply length_header_fixup);
      set (hdr := firstn 8 b) in *
  end.
  set (k := be32 buffer 0). set (len1 := wrap64 (len - 8)).
  set (sz := if be32 buffer 4 >? len1 then len1 else be32 buffer 4).
  assert (LK : length (skipn 8 buffer) = (length buffer - 8)%nat)
    by apply length_skipn.
  assert (I : exists r,
            (if superblock k then parse_block h f (skipn 8 buffer) sz
             else Some (mem <- fixup_data h {| key := k; size := sz;
                                               data := skipn 8 buffer |} ;;
                        Ok ([], mem))) = Some r /\
            forall nodes b', r = Ok (nodes, b') ->
                             length b' = length (skipn 8 buffer)).
  { destruct (superblock k).
    - apply IH. lia.
    - eexists. split; [reflexivity|].
      intros nodes b'.
      destruct (fixup_data h _) as [mem| |] eqn:E; cbn [bind]; try discriminate.
      intros [= _ <-]. now apply fixup_data_length in E. }
  destruct I as (r & -> & LR).
  destruct r as [[sub buf]|e|]; [|eexists; split; [reflexivity|discriminate]..].
  specialize (LR sub buf eq_refl).
  destruct (IH (skipn (Z.to_nat sz) buf) (wrap64 (len1 - sz))) as (r2 & -> & LR2);
    [rewrite length_skipn; lia|].
  destruct r2 as [[rest buf']|e|]; [|eexists; split; [reflexivity|discriminate]..].
  specialize (LR2 rest buf' eq_refl).
  eexists. split; [reflexivity|].
  intros ? ? [= _ <-].
  rewrite !length_app, LH, LR2, length_firstn, length_skipn. lia.
Qed.

(** [parse_file] never runs out of fuel: what it returns is what
    [parse_block] returns. *)
Lemma parse_file_returns (h : platform) (buffer : list byte) :
  exists r,
    parse_block h (S (length buffer)) buffer (Z.of_nat (length buffer))
    = Some r /\
    parse_file h buffer
    = match r with
      | Ok ([], _) => Fault
      | Ok (nodes, _) => Ok nodes
      | Err e => Err e
      | Fault => Fault
      end.
Proof.
  destruct (parse_block_returns h (S (length buffer)) buffer
              (Z.of_nat (length buffer))) as (r & E & _); [lia|].
  exists r. split; [exact E|]. unfold parse_file. rewrite E.
  destruct r as [[[|? ?] ?]| |]; reflexivity.
Qed.

Example fixup_sizes_small_sequence :
  fixup_sizes small_sequence = (0, reconciled_sequence).
Proof. reflexivity. Qed.
(** ** The renderer *)

Lemma string_app_assoc (a b c : string) :
  ((a ++ b) ++ c = a ++ (b ++ c))%string.
Proof. induction a as [|x a IH]; cbn; [reflexivity|now rewrite IH]. Qed.

Lemma string_app_nil_r (a : string) : (a ++ "" = a)%string.
Proof. induction a as [|x a IH]; cbn; [reflexivity|now rewrite IH]. Qed.

Lemma strkey_BODY (h : platform) : strkey h KEY_BODY = "BODY"%string.
Proof. unfold strkey. destruct (little_endian h); reflexivity. Qed.

Lemma find_block_functions_BODY (h : platform) :
  find_block_functions h KEY_BODY
  = Some {| bf_key := KEY_BODY; fixup := fixup_data_body h;
            make := make_node_body h; dump := dump_block_body h;
            gen := gen_block_body h |}.
Proof. reflexivity. Qed.

(** Header-only rendering from any context: it is the full rendering of
    the blocks in front of the first body-open marker, and the full
    rendering of the whole sequence continues it, with the body-open
    stanza first if it continues at all. *)
Lemma dump_list_from_header_only (h : platform) (l : list node) :
  forall c : config h,
    dump_list_from h c l true = dump_list_from h c (header_part l) false /\
    exists rest : string,
      snd (dump_list_from h c l false)
      = (snd (dump_list_from h c l true) ++ rest)%string /\
      (rest = ""%string \/
       exists more : string, rest = ("BODY" ++ nl ++ nl ++ more)%string).
Proof.
  induction l as [|n l IH]; intros c.
  - split; [reflexivity|]. exists ""%string. split; [reflexivity|now left].
  - cbn [header_part]. destruct (key n =? KEY_BODY) eqn:B.
    + apply Z.eqb_eq in B. cbn [dump_list_from]. rewrite B.
      rewrite find_block_functions_BODY. cbn [bf_key dump andb].
      rewrite Z.eqb_refl. split; [reflexivity|].
      unfold dump_block_body. rewrite strkey_BODY.
      destruct (dump_list_from h c l false) as [st more].
      exists ("BODY" ++ nl ++ nl ++ more)%string. cbn [snd].
      split; [now rewrite !string_app_assoc|]. right. now exists more.
    + cbn [dump_list_from].
      destruct (find_block_functions h (key n)) as [bf|] eqn:F.
      * destruct (find_block_functions_key h _ _ F) as [-> _].
        rewrite B. cbn [andb].
        destruct (dump bf n c) as [[c' text]| |].
        -- destruct (IH c') as (E & rest & R & D). rewrite E.
           split; [reflexivity|].
           destruct (dump_list_from h c' l false) as [st1 full].
           destruct (dump_list_from h c' (header_part l) false) as [st2 ho].
           rewrite E in R. cbn [snd] in *.
           exists rest. split; [|exact D].
           now rewrite R, string_app_assoc.
        -- split; [reflexivity|]. exists ""%string.
           split; [reflexivity|now left].
        -- split; [reflexivity|]. exists ""%string.
           split; [reflexivity|now left].
      * split; [reflexivity|]. exists ""%string.
        split; [reflexivity|now left].
Qed.

(** C9.  Rendering in header-only mode stops when the body-open marker is
    reached: its outcome and its text are those of the full rendering of
    the blocks in front of that marker, and the full rendering of the
    whole sequence is that text followed by what the marker and the blocks
    behind it print (nothing, or a text that starts with the body-open
    stanza). *)
Theorem dump_list_header_only (h : platform) (l : list node) :
  dump_list h l true = dump_list h (header_part l) false /\
  exists rest : string,
    snd (dump_list h l false) = (snd (dump_list h l true) ++ rest)%string /\
    (rest = ""%string \/
     exists more : string, rest = ("BODY" ++ nl ++ nl ++ more)%string).
Proof. apply dump_list_from_header_only. Qed.
(** ** The timestamp block *)

(** A field that [sscanf] stores inside the block. *)
Lemma read_field_stored (h : platform) (fd : list string) (format : string)
    (off : nat) (mem stored : list byte) :
  read_parameter h fd format = (0, stored) ->
  (length stored <= conversion_size format)%nat ->
  (off + length stored <= length mem)%nat ->
  read_field h fd format off mem = Ok (blit mem off stored).
Proof.
  intros E C L. unfold read_field. rewrite E.
  rewrite firstn_all2 by exact C.
  destruct (Nat.ltb_spec
              (Nat.max (length mem) (malloc_usable_size h (length mem)))
              (off + length stored)); [lia|].
  now rewrite andb_false_r.
Qed.

Lemma blit_whole (mem src : list byte) :
  length src = length mem -> blit mem 0 src = src.
Proof.
  intros L. unfold blit. cbn [firstn app Nat.add]. rewrite Nat.sub_0_r.
  rewrite firstn_all2, skipn_all2 by lia. apply app_nil_r.
Qed.

Lemma load_u32_whole (le : bool) (bs : list byte) :
  length bs = 4%nat -> load_u32 le bs 0 = load_uint le bs.
Proof.
  intros L. unfold load_u32, slice. cbn [skipn].
  now rewrite firstn_all2 by lia.
Qed.

Lemma load_u32_store (le : bool) (v : Z) :
  0 <= v < 2 ^ 32 -> load_u32 le (store_uint le 4 v) 0 = v.
Proof.
  intros R. rewrite load_u32_whole by apply length_store_uint.
  rewrite load_store_uint. apply Z.mod_small. exact R.
Qed.

Lemma strkey_mcda (h : platform) : strkey h KEY_mcda = "mcda"%string.
Proof. unfold strkey. destruct (little_endian h); reflexivity. Qed.

(** C8.  Building the timestamp block from a stanza whose timestamp line
    holds the value [t] stores [t + 2082844800] in the four payload bytes
    (an unsigned 32-bit field: the sum is taken modulo 2^32).  Rendering a
    timestamp block whose stored value is not zero emits the stored value
    less 2082844800 (a 64-bit [time_t], printed unsigned); when the stored
    value is exactly zero no conversion takes place and no timestamp line
    is emitted.  So the block built from [t] renders [t] again as long as
    the sum fits the field. *)
Theorem mcda_epoch_conversion (h : platform) (c : config h) (line : string)
    (rest : list string) (t : Z) :
  strlen line <> 0 ->
  sscanf h line "timestamp:%u" = (1, store_uint (little_endian h) 4 t) ->
  0 <= t < 2 ^ 32 ->
  exists n,
    make_node_mcda h c (line :: rest) = Ok (n, c) /\
    key n = KEY_mcda /\ size n = 4 /\
    load_u32 (little_endian h) (data n) 0 = wrap32 (t + 2082844800) /\
    (forall m : node,
       4 <= size m -> (4 <= length (data m))%nat ->
       let stored := load_u32 (little_endian h) (data m) 0 in
       dump_block_mcda h m c
       = Ok (c, ("mcda" ++ nl
                 ++ (if (stored =? 0)%Z then ""
                     else "timestamp:" ++ fmt_u (wrap64 (stored - 2082844800)%Z)
                          ++ " (NB: seconds since 1970) ("
                          ++ substring 0 24 (ctime h (stored - 2082844800)%Z)
                          ++ ")" ++ nl)
                 ++ nl)%string)) /\
    (t + 2082844800 < 2 ^ 32 ->
     dump_block_mcda h n c
     = Ok (c, ("mcda" ++ nl
               ++ ("timestamp:" ++ fmt_u t ++ " (NB: seconds since 1970) ("
                   ++ substring 0 24 (ctime h t) ++ ")" ++ nl)
               ++ nl)%string)).
Proof.
  intros NB SC R.
  assert (D : forall m : node,
            4 <= size m -> (4 <= length (data m))%nat ->
            dump_block_mcda h m c
            = Ok (c, ("mcda" ++ nl
                 ++ (if (load_u32 (little_endian h) (data m) 0 =? 0)%Z then ""
                     else "timestamp:"
                          ++ fmt_u (wrap64 (load_u32 (little_endian h)
                                              (data m) 0 - 2082844800)%Z)
                          ++ " (NB: seconds since 1970) ("
                          ++ substring 0 24
                               (ctime h (load_u32 (little_endian h)
                                           (data m) 0 - 2082844800)%Z)
                          ++ ")" ++ nl)
                 ++ nl)%string)).
  { intros m S L. unfold dump_block_mcda, sizeof_block_mcda, within.
    destruct (Z.ltb_spec (size m) 4); [lia|].
    destruct (Nat.leb_spec (Z.to_nat 4) (length (data m))); [|lia].
    cbn [bind]. rewrite strkey_mcda.
    destruct (load_u32 (little_endian h) (data m) 0 =? 0); reflexivity. }
  assert (RP : read_parameter h (line :: rest) "timestamp:%u"
               = (0, store_uint (little_endian h) 4 t)).
  { cbn [read_parameter].
    destruct (Z.eqb_spec (strlen line) 0) as [|_]; [contradiction|].
    now rewrite SC. }
  unfold make_node_mcda.
  rewrite (read_field_stored h _ _ 0 _ _ RP)
    by (rewrite length_store_uint; vm_compute; lia).
  cbn [bind].
  change (zeros sizeof_block_mcda) with [x00; x00; x00; x00].
  rewrite (blit_whole [x00; x00; x00; x00] (store_uint (little_endian h) 4 t))
    by (rewrite length_store_uint; reflexivity).
  rewrite load_u32_store by exact R.
  rewrite blit_whole by (now rewrite !length_store_uint).
  eexists. split; [reflexivity|]. cbn [key size data].
  split; [reflexivity|]. split; [reflexivity|].
  pose proof (wrap32_range (t + 2082844800)) as W.
  split; [apply load_u32_store; exact W|].
  split; [exact D|].
  intros FIT. rewrite D; cbn [size data];
    [|reflexivity|rewrite length_store_uint; lia].
  rewrite load_u32_store by exact W.
  rewrite (wrap32_small (t + 2082844800)) by lia.
  destruct (Z.eqb_spec (t + 2082844800) 0) as [|_]; [lia|].
  replace (t + 2082844800 - 2082844800) with t by lia.
  rewrite wrap64_small by lia. reflexivity.
Qed.

Lemma mcda_epoch_conversion_witness :
  let h := reference true in
  let line := "timestamp:1500000000 (NB: seconds since 1970) (Fri Jul 14 02:40:00 2017)"%string in
  strlen line <> 0 /\
  sscanf h line "timestamp:%u" = (1, store_uint true 4 1500000000) /\
  0 <= 1500000000 < 2 ^ 32 /\
  exists n,
    make_node_mcda h (config_zero h) [line; ""%string] = Ok (n, config_zero h) /\
    key n = KEY_mcda /\ size n = 4 /\
    load_u32 true (data n) 0 = 3582844800.
Proof.
  cbv zeta.
  set (line := "timestamp:1500000000 (NB: seconds since 1970) (Fri Jul 14 02:40:00 2017)"%string).
  assert (NB : strlen line <> 0) by (vm_compute; discriminate).
  assert (SC : sscanf (reference true) line "timestamp:%u"
               = (1, store_uint (little_endian (reference true)) 4 1500000000))
    by (vm_compute; reflexivity).
  assert (R : 0 <= 1500000000 < 2 ^ 32) by (split; [discriminate|reflexivity]).
  split; [exact NB|]. split; [exact SC|]. split; [exact R|].
  destruct (mcda_epoch_conversion (reference true) (config_zero _) line
              [""%string] 1500000000 NB SC R) as (n & M & K & S & V & _).
  exists n. repeat split; assumption.
Defined.
(** ** The scaled sample codec *)

(** C7.  The round trip fails in the code under the 24-bit and the 32-bit
    width selector.  With scale factors 1 and the 24-bit selector the
    builder computes for the sample value 1.0 the fixed-point integer
    round(1.0 / 1 * 8388607) = 8388607 and assigns it to the 16-bit field,
    which keeps -1 of it; the value decoded from the field is further than
    1 from the original, where the quantization step is 1/8388607.
    [tsgen] on a text with the values 1.0 and 0.25 writes the sample block
    with the fields ff ff and 00 00, and [tsdump] renders the file it
    wrote with the values -0.00000011920930376164 and 0; under the 32-bit
    selector with -0.00000000046566128752 and 0.  Under the 16-bit
    selector the same text comes back with 1 and 0.25000762962736899908,
    within the step 1/32767. *)
Theorem alvl_fix3_round_trip_fails :
  match bin_factor ieee BINTYPE_FIX3 with
  | Some F =>
      int_of_round ieee (fmul ieee (fdiv ieee 1%float 1%float) F) = 8388607 /\
      encode_sample ieee F 1%float 1%float = -1 /\
      PrimFloat.ltb 1%float
        (PrimFloat.abs
           (PrimFloat.sub
              (decode_sample ieee F 1%float (encode_sample ieee F 1%float 1%float))
              1%float)) = true
  | None => False
  end /\
  fst (tsgen (reference true) (sample_text "fix3")) = Ok tt /\
  slice (snd (tsgen (reference true) (sample_text "fix3"))) 76 12
  = list_byte_of_string "alvl" ++ [x00; x00; x00; x04; xff; xff; x00; x00] /\
  tsdump (reference true) (snd (tsgen (reference true) (sample_text "fix3")))
    false
  = (Ok tt,
     rendered_sample_text "fix3"
       "-0.00000011920930376164" "0.00000000000000000000") /\
  tsdump (reference true) (snd (tsgen (reference true) (sample_text "fix4")))
    false
  = (Ok tt,
     rendered_sample_text "fix4"
       "-0.00000000046566128752" "0.00000000000000000000") /\
  tsdump (reference true) (snd (tsgen (reference true) (sample_text "fix2")))
    false
  = (Ok tt,
     rendered_sample_text "fix2"
       "1.00000000000000000000" "0.25000762962736899908").
Proof. vm_compute. repeat split. Qed.

(** ** The builder's context checks *)

Lemma length_blit (mem : list byte) (off : nat) (src : list byte) :
  length (blit mem off src) = length mem.
Proof.
  unfold blit. rewrite !length_app, !length_firstn, length_skipn. lia.
Qed.

Lemma read_field_length (h : platform) (fd : list string) (format : string)
    (off : nat) (mem mem' : list byte) :
  read_field h fd format off mem = Ok mem' -> length mem' = length mem.
Proof.
  unfold read_field. destruct (read_parameter h fd format) as [err stored].
  destruct (_ && _); [discriminate|].
  destruct (negb (err =? 0)); [discriminate|].
  intros [= <-]. apply length_blit.
Qed.

(** A field whose object lies inside the block is stored inside it,
    whatever the allocator. *)
Lemma read_field_no_fault (h : platform) (fd : list string) (format : string)
    (off : nat) (mem : list byte) :
  (off + conversion_size format <= length mem)%nat ->
  read_field h fd format off mem <> Fault.
Proof.
  intros L. unfold read_field.
  destruct (read_parameter h fd format) as [err stored].
  pose proof (firstn_le_length (conversion_size format) stored) as B.
  destruct (Nat.ltb_spec
              (Nat.max (length mem) (malloc_usable_size h (length mem)))
              (off + length (firstn (conversion_size format) stored)));
    [lia|].
  rewrite andb_false_r. destruct (negb (err =? 0)); discriminate.
Qed.

(** A field stored outside the block: its object ends behind the
    allocation. *)
Lemma read_field_fault (h : platform) (fd : list string) (format : string)
    (off : nat) (mem : list byte) :
  read_field h fd format off mem = Fault ->
  (Nat.max (length mem) (malloc_usable_size h (length mem))
   < off + conversion_size format)%nat.
Proof.
  unfold read_field. destruct (read_parameter h fd format) as [err stored].
  pose proof (firstn_le_length (conversion_size format) stored) as B.
  destruct (negb _ && (_ <? _)%nat) eqn:C.
  - intros _. apply andb_prop in C as [_ C]. apply Nat.ltb_lt in C. lia.
  - destruct (negb (err =? 0)); discriminate.
Qed.

Ltac in_block :=
  repeat match goal with
    | R : length ?a = length _ |- context [length ?a] => rewrite R
    end;
  vm_compute; lia.

Lemma read_alvl_loop_no_fault (h : platform) (factor : double (ar h))
    (c : config h) (samples : nat) :
  forall off fd mem, read_alvl_loop h factor c samples off fd mem <> Fault.
Proof.
  induction samples as [|k IH]; intros off fd mem; cbn [read_alvl_loop].
  - discriminate.
  - destruct fd as [|line1 [|line2 rest]]; try discriminate.
    destruct (strlen line1 =? 0); [discriminate|].
    destruct (strlen line2 =? 0); [discriminate|].
    unfold scan_double.
    destruct (sscanf h line1 "i:%lf") as [n1 s1].
    destruct (negb (n1 =? 1)); [discriminate|]. cbn [bind].
    destruct (sscanf h line2 "q:%lf") as [n2 s2].
    destruct (negb (n2 =? 1)); [discriminate|]. cbn [bind].
    apply IH.
Qed.

(** What a sample stanza gives when the width selector is not recognised:
    one of the three diagnostics, never a node. *)
Lemma make_node_alvl_unrecognised (h : platform) (c : config h)
    (fd : list string) :
  bin_factor (ar h) (bin_type c) = None ->
  exists e, make_node_alvl h c fd = Err e.
Proof.
  intros BF. unfold make_node_alvl, read_alvl_samples. rewrite BF.
  destruct (count_alvl_lines fd <=? 0); [eauto|].
  destruct (count_alvl_lines fd mod 2 =? 1); eexists; reflexivity.
Qed.

Ltac fields :=
  repeat match goal with
    | |- context [read_field ?h ?fd ?f ?o ?m] =>
        let R := fresh "R" in
        destruct (read_field h fd f o m) eqn:R; cbn [bind];
        [apply read_field_length in R
        |exact I
        |exfalso; revert R; apply read_field_no_fault; in_block]
    end.

(** Every builder of the registry returns a node or a diagnostic, but for
    the builder of the format block where the allocation of the block has
    no ninth byte; and only the builder of the format block changes the
    width selector. *)
Lemma make_outcome (h : platform) (bf : block_functions h) (c : config h)
    (fd : list string) :
  In bf (Global_function_dictionary h) ->
  match make bf c fd with
  | Ok (_, c') => bf_key bf <> KEY_fbin -> bin_type c' = bin_type c
  | Err _ => True
  | Fault => bf_key bf = KEY_fbin /\ (malloc_usable_size h 8 < 9)%nat
  end.
Proof.
  intros I. cbn in I.
  repeat (destruct I as [<-|I]); [..|destruct I]; cbn [make bf_key].
  - unfold make_node_alvl, read_alvl_samples.
    destruct (count_alvl_lines fd <=? 0); [exact I|].
    destruct (count_alvl_lines fd mod 2 =? 1); [exact I|].
    destruct (bin_factor (ar h) (bin_type c)) as [factor|]; [|exact I].
    cbn [bind].
    pose proof (read_alvl_loop_no_fault h factor c
                  (Z.to_nat (count_alvl_lines fd / 2)) 0 fd
                  (zeros (count_alvl_lines fd / 2 * sizeof_block_alvl))) as R.
    destruct (read_alvl_loop _ _ _ _ _ _ _);
      [intros _; reflexivity|exact I|congruence].
  - unfold make_node_gtag. fields. intros _. reflexivity.
  - unfold make_node_atag. fields. intros _. reflexivity.
  - unfold make_node_indx. fields. intros _. reflexivity.
  - unfold make_node_scal. fields. intros _. reflexivity.
  - unfold make_node_sign. fields. intros _. reflexivity.
  - unfold make_node_mcda. fields. intros _. reflexivity.
  - unfold make_node_cnst. fields. intros _. reflexivity.
  - unfold make_node_swep. fields. intros _. reflexivity.
  - unfold make_node_fbin.
    destruct (read_field h fd "format:%4s" 0 _) as [m1|e|] eqn:R1;
      cbn [bind];
      [|exact I
       |exfalso; revert R1; apply read_field_no_fault; vm_compute; lia].
    apply read_field_length in R1.
    change (length (zeros sizeof_block_fbin)) with 8%nat in R1.
    destruct (read_field h fd "type:%4s" 4 _) as [m2|e|] eqn:R2;
      cbn [bind]; [|exact I|].
    + intros NE. exfalso. apply NE. reflexivity.
    + split; [reflexivity|]. apply read_field_fault in R2.
      rewrite length_endian_fixup_at, R1 in R2 by lia.
      change (conversion_size "type:%4s") with 5%nat in R2. lia.
  - intros _. reflexivity.
  - intros _. reflexivity.
  - intros _. reflexivity.
  - intros _. reflexivity.
Qed.

Lemma find_block_functions_In (h : platform) (k : Z) (bf : block_functions h) :
  find_block_functions h k = Some bf -> In bf (Global_function_dictionary h).
Proof.
  unfold find_block_functions. destruct (k =? 0); [discriminate|].
  intros F. apply find_some in F. apply F.
Qed.

Lemma key_of_line_alvl (h : platform) : key_of_line h "alvl" = KEY_alvl.
Proof. unfold key_of_line. destruct (little_endian h); reflexivity. Qed.

Lemma tsgen_loop_alvl_unrecognised (h : platform) (stanza : list string) :
  forall (prefix : list string) (c : config h),
  bin_factor (ar h) (bin_type c) = None ->
  Forall (fun line => (strlen line <=? 1) = false -> has_colon line = false ->
                      key_of_line h line <> KEY_fbin) prefix ->
  exists e, tsgen_loop h c (prefix ++ "alvl"%string :: stanza) = Err e.
Proof.
  induction prefix as [|line rest IH]; intros c BF NF.
  - cbn [app tsgen_loop]. change (strlen "alvl" <=? 1) with false.
    change (has_colon "alvl") with false. cbv iota.
    rewrite key_of_line_alvl.
    change (find_block_functions h KEY_alvl)
      with (Some {| bf_key := KEY_alvl; fixup := fixup_data_alvl h;
                    make := make_node_alvl h; dump := dump_block_alvl h;
                    gen := gen_block_alvl h |}).
    cbn [make].
    destruct (make_node_alvl_unrecognised h c stanza BF) as [e ->].
    exists e. reflexivity.
  - inversion NF as [|? ? NL NR]; subst. cbn [app tsgen_loop].
    destruct (strlen line <=? 1) eqn:SL; [apply IH; assumption|].
    destruct (has_colon line) eqn:HC; [apply IH; assumption|].
    specialize (NL eq_refl eq_refl).
    destruct (find_block_functions h (key_of_line h line)) as [bf|] eqn:F;
      [|eexists; reflexivity].
    pose proof (find_block_functions_key h _ bf F) as [K _].
    pose proof (make_outcome h bf c (rest ++ "alvl"%string :: stanza)
                  (find_block_functions_In h _ bf F)) as M.
    destruct (make bf c (rest ++ "alvl"%string :: stanza)) as [[n c']|e|];
      [|eexists; reflexivity|destruct M as [M _]; exfalso; apply NL; congruence].
    cbn [bind].
    assert (BF' : bin_factor (ar h) (bin_type c') = None).
    { rewrite M; [exact BF|]. rewrite K. exact NL. }
    destruct (IH c' BF' NR) as [e ->]. exists e. reflexivity.
Qed.

(** C4 (amended).  For every text input in which a sample stanza appears
    before any format stanza has set a recognised sample-width selector in
    the context, building fails: with MissingContext at the sample stanza
    when it holds a positive, even number of lines.  The context's scale
    factors play no part in the check. *)
Theorem alvl_requires_width_selector (h : platform) (c : config h)
    (prefix stanza : list string) :
  bin_factor (ar h) (bin_type c) = None ->
  Forall (fun line => (strlen line <=? 1) = false -> has_colon line = false ->
                      key_of_line h line <> KEY_fbin) prefix ->
  (exists e, tsgen_loop h c (prefix ++ "alvl"%string :: stanza) = Err e) /\
  (0 < count_alvl_lines stanza -> count_alvl_lines stanza mod 2 = 0 ->
   make_node_alvl h c stanza = Err MissingContext).
Proof.
  intros BF NF. split.
  - apply tsgen_loop_alvl_unrecognised; assumption.
  - intros P E. unfold make_node_alvl, read_alvl_samples. rewrite BF.
    destruct (count_alvl_lines stanza <=? 0) eqn:L; [lia|].
    rewrite E. reflexivity.
Qed.

Lemma alvl_requires_width_selector_witness :
  (exists e, tsgen_loop (reference true) (config_zero (reference true))
               (scal_stanza ++ "alvl"%string :: one_pair) = Err e) /\
  make_node_alvl (reference true) (config_zero (reference true)) one_pair
  = Err MissingContext.
Proof.
  assert (BF : bin_factor (ar (reference true))
                 (bin_type (config_zero (reference true))) = None)
    by reflexivity.
  assert (NF : Forall (fun line => (strlen line <=? 1) = false ->
                                   has_colon line = false ->
                                   key_of_line (reference true) line <> KEY_fbin)
                 scal_stanza).
  { repeat constructor; intros _ _; vm_compute; discriminate. }
  destruct (alvl_requires_width_selector (reference true)
              (config_zero (reference true)) scal_stanza one_pair BF NF)
    as [A B].
  split; [exact A|]. apply B; vm_compute; reflexivity.
Defined.

(** C4, as stated, fails: a text whose sample stanza follows a format
    stanza and no scaling stanza builds, on the reference platform, into
    a file that holds the sample block; the scale factors are the zeros the
    context starts from, and the samples come out as zero. *)
Lemma alvl_without_scal_builds :
  fst (tsgen (reference true) unscaled_text) = Ok tt /\
  match tsgen_loop (reference true) (config_zero (reference true))
          unscaled_text with
  | Ok (nodes, _) =>
      map key nodes
      = [KEY_AQLV; KEY_HEAD; KEY_gtag; KEY_BODY; KEY_fbin; KEY_alvl; KEY_END] /\
      In {| key := KEY_alvl; size := 4; data := [x00; x00; x00; x00] |} nodes
  | _ => False
  end.
Proof. vm_compute. intuition. Qed.

(** ** The reconciliation status in [tsgen] *)

(** C5.  A text with no outer container stanza: reconciliation reports the
    missing container, and [tsgen] goes on to write all five blocks, 48
    bytes with both container lengths left at zero, and returns success. *)
Theorem tsgen_ignores_missing_container :
  match tsgen_loop (reference true) (config_zero (reference true))
          no_container_text with
  | Ok (nodes, _) => fst (fixup_sizes (node_zero :: nodes)) = 1
  | _ => False
  end /\
  tsgen (reference true) no_container_text
  = (Ok tt,
     list_byte_of_string "HEAD" ++ [x00; x00; x00; x00]
     ++ list_byte_of_string "gtag" ++ [x00; x00; x00; x04; x00; x00; x00; x07]
     ++ list_byte_of_string "BODY" ++ [x00; x00; x00; x00]
     ++ list_byte_of_string "atag" ++ [x00; x00; x00; x04; x00; x00; x00; x09]
     ++ list_byte_of_string "END " ++ [x00; x00; x00; x00]).
Proof. vm_compute. split; reflexivity. Qed.

(* ================================================================== *)
(** * Part III: further properties of the code                         *)
(* ================================================================== *)

(** ** The endian normalizer, again *)

(** X1.  [endian_fixup] is its own inverse: called twice with the same
    width (any width up to 8 that fits the memory) on the same scalar, it
    leaves the memory as it found it, on either host. *)
Theorem endian_fixup_twice (le : bool) (w : Z) (buf : list byte) :
  0 <= w <= 8 ->
  (Z.to_nat w <= length buf)%nat ->
  endian_fixup le (endian_fixup le buf w) w = buf.
Proof.
  intros _ L. destruct le; [|reflexivity].
  destruct (supported_width w) eqn:S.
  - rewrite (endian_fixup_le w buf S L).
    assert (LR : length (rev (firstn (Z.to_nat w) buf)) = Z.to_nat w)
      by (rewrite length_rev, firstn_length_le; lia).
    rewrite endian_fixup_le;
      [|exact S|rewrite length_app, LR; lia].
    rewrite firstn_app, skipn_app, LR, Nat.sub_diag. cbn [firstn skipn].
    rewrite firstn_all2, skipn_all2 by lia.
    rewrite app_nil_r, rev_involutive. cbn [app]. apply firstn_skipn.
  - now rewrite !endian_fixup_unsupported.
Qed.

Lemma endian_fixup_twice_witness :
  endian_fixup true (endian_fixup true [x01; x02; x03; x04; x05] 4) 4
  = [x01; x02; x03; x04; x05].
Proof.
  apply (endian_fixup_twice true 4 [x01; x02; x03; x04; x05]);
    [lia|simpl; lia].
Defined.

(** X2.  A scalar of 2, 4 or 8 bytes taken from the stream, passed through
    [endian_fixup] and read with the host's own load is the integer the
    stream holds most significant byte first, whatever the host's byte
    order. *)
Theorem endian_fixup_reads_big_endian (le : bool) (w : Z) (bs : list byte) :
  supported_width w = true ->
  length bs = Z.to_nat w ->
  load_uint le (endian_fixup le bs w) = Z_of_le (rev bs).
Proof.
  intros S L. destruct le; [|reflexivity].
  rewrite endian_fixup_le by (try exact S; lia).
  rewrite firstn_all2, skipn_all2, app_nil_r by lia. reflexivity.
Qed.

Lemma endian_fixup_reads_big_endian_witness :
  load_uint true (endian_fixup true [x12; x34; x56; x78] 4) = 0x12345678 /\
  load_uint false (endian_fixup false [x12; x34; x56; x78] 4) = 0x12345678.
Proof.
  split.
  - exact (endian_fixup_reads_big_endian true 4 [x12; x34; x56; x78]
             eq_refl eq_refl).
  - exact (endian_fixup_reads_big_endian false 4 [x12; x34; x56; x78]
             eq_refl eq_refl).
Defined.

(** ** The registry, again *)

(** X3.  The registry holds each key once and no entry has the key zero;
    [find_block_functions] returns the entry of the key it is given, and
    returns nothing exactly when the key is zero or in no entry. *)
Theorem find_block_functions_lookup (h : platform) (k : Z) :
  NoDup (map (@bf_key h) (Global_function_dictionary h)) /\
  ~ In 0 (map (@bf_key h) (Global_function_dictionary h)) /\
  match find_block_functions h k with
  | Some bf => In bf (Global_function_dictionary h) /\ bf_key bf = k
  | None => ~ In k (map (@bf_key h) (Global_function_dictionary h))
  end.
Proof.
  split; [|split].
  - cbn. repeat (constructor; [cbn; intuition discriminate|]). constructor.
  - cbn. intuition discriminate.
  - unfold find_block_functions. destruct (k =? 0) eqn:Z0.
    + apply Z.eqb_eq in Z0. subst k. cbn. intuition discriminate.
    + destruct (find _ _) as [bf|] eqn:F.
      * apply find_some in F. destruct F as [I E]. apply Z.eqb_eq in E.
        split; [exact I|congruence].
      * intros I. apply in_map_iff in I. destruct I as (bf & K & I).
        apply (find_none _ _ F) in I. cbn in I. apply Z.eqb_neq in I.
        congruence.
Qed.

(** ** The size reconciler, again *)

Lemma set_block_size_absent (l : list node) (k sz : Z) :
  has_key k l = false -> set_block_size l k sz = (1, l).
Proof.
  unfold has_key. induction l as [|n l IH]; cbn [existsb set_block_size].
  - reflexivity.
  - intros H. apply orb_false_iff in H. destruct H as [E H].
    rewrite E, (IH H). reflexivity.
Qed.

(** X4.  [set_block_size] changes the first block with the key and no
    other: on a list with no block of the key it returns 1 and leaves the
    list as it is; otherwise it returns 0 and the first such block has the
    new length, its key and data and every other block being as they
    were. *)
Theorem set_block_size_first_match (l : list node) (k sz : Z) :
  (has_key k l = false -> set_block_size l k sz = (1, l)) /\
  (forall (l1 l2 : list node) (n : node),
     l = l1 ++ n :: l2 -> has_key k l1 = false -> key n = k ->
     set_block_size l k sz
     = (0, l1 ++ {| key := k; size := sz; data := data n |} :: l2)).
Proof.
  split; [apply set_block_size_absent|].
  intros l1 l2 n -> H K. revert H. unfold has_key.
  induction l1 as [|m l1 IH]; cbn [existsb app set_block_size]; intros H.
  - subst k. rewrite Z.eqb_refl. reflexivity.
  - apply orb_false_iff in H. destruct H as [E H].
    rewrite E, (IH H). reflexivity.
Qed.

Lemma set_block_size_first_match_witness :
  set_block_size small_sequence KEY_scal 16 = (1, small_sequence) /\
  set_block_size small_sequence KEY_BODY 12
  = (0, [ block KEY_AQLV []; block KEY_HEAD [];
          block KEY_mcda [xd5; x8d; xdf; x80];
          {| key := KEY_BODY; size := 12; data := [] |};
          block KEY_gtag [x00; x00; x00; x07]; block KEY_END [] ]).
Proof.
  split.
  - apply (set_block_size_first_match small_sequence KEY_scal 16). reflexivity.
  - apply (proj2 (set_block_size_first_match small_sequence KEY_BODY 12)
             [ block KEY_AQLV []; block KEY_HEAD [];
               block KEY_mcda [xd5; x8d; xdf; x80] ]
             [ block KEY_gtag [x00; x00; x00; x07]; block KEY_END [] ]
             (block KEY_BODY [])); reflexivity.
Defined.

Lemma calculate_head_size_from_closed (l : list node) (sz : Z) :
  calculate_head_size_from false sz l <> sz -> has_key KEY_HEAD l = true.
Proof.
  unfold has_key. induction l as [|n l IH]; cbn [calculate_head_size_from existsb].
  - congruence.
  - destruct (key n =? KEY_END), (key n =? KEY_BODY), (key n =? KEY_HEAD);
      cbn [orb]; auto.
Qed.

Lemma calculate_body_size_from_closed (l : list node) (sz : Z) :
  calculate_body_size_from false sz l <> sz -> has_key KEY_BODY l = true.
Proof.
  unfold has_key. induction l as [|n l IH]; cbn [calculate_body_size_from existsb].
  - congruence.
  - destruct (key n =? KEY_END), (key n =? KEY_BODY); cbn [orb]; auto.
Qed.

(** X5.  [fixup_sizes] is all or nothing.  It succeeds exactly when the
    header scan and the body scan both give a nonzero total and the list
    holds an outer container block (the header and body containers are then
    there as well, so the two later [set_block_size] calls cannot fail);
    when it fails it has changed nothing in the list. *)
Theorem fixup_sizes_all_or_nothing (l : list node) :
  (fst (fixup_sizes l) = 0 <->
   calculate_head_size l <> 0 /\ calculate_body_size l <> 0 /\
   has_key KEY_AQLV l = true) /\
  (fst (fixup_sizes l) <> 0 -> fixup_sizes l = (1, l)).
Proof.
  unfold fixup_sizes.
  destruct (calculate_head_size l =? 0) eqn:EH.
  { apply Z.eqb_eq in EH. cbn. split; [split; [discriminate|tauto]|reflexivity]. }
  destruct (calculate_body_size l =? 0) eqn:EB.
  { apply Z.eqb_eq in EB. cbn. split; [split; [discriminate|tauto]|reflexivity]. }
  apply Z.eqb_neq in EH, EB.
  destruct (has_key KEY_AQLV l) eqn:HA.
  - pose proof (calculate_head_size_from_closed l 0 EH) as HH.
    pose proof (calculate_body_size_from_closed l 0 EB) as HB.
    destruct (set_block_size_found l KEY_AQLV
                (wrap32 (calculate_head_size l + sizeof_block_header
                         + calculate_body_size l + sizeof_block_header)) HA)
      as (l1 & S1 & _ & R1 & _).
    rewrite S1. cbn [Z.eqb negb].
    rewrite <- (resized_has_key _ _ _ KEY_HEAD R1) in HH.
    destruct (set_block_size_found l1 KEY_HEAD (calculate_head_size l) HH)
      as (l2 & S2 & _ & R2 & _).
    rewrite S2. cbn [Z.eqb negb].
    rewrite <- (resized_has_key _ _ _ KEY_BODY R1) in HB.
    rewrite <- (resized_has_key _ _ _ KEY_BODY R2) in HB.
    destruct (set_block_size_found l2 KEY_BODY (calculate_body_size l) HB)
      as (l3 & S3 & _ & _ & _).
    rewrite S3. cbn. split; [tauto|congruence].
  - rewrite set_block_size_absent by exact HA. cbn.
    split; [split; [discriminate|intros (_ & _ & F); discriminate]|reflexivity].
Qed.

(** ** The payload normalizers, again *)

(** X6.  [fixup_data] is its own inverse: on the payload it has left, with
    the same key and length, it succeeds again and gives back the payload
    it was first given. *)
Theorem fixup_data_twice (h : platform) (n : node) (mem : list byte) :
  fixup_data h n = Ok mem ->
  fixup_data h {| key := key n; size := size n; data := mem |} = Ok (data n).
Proof.
  rewrite !fixup_data_normalized. unfold normalized. cbn [key size data].
  destruct (negb (known_key (key n))); [discriminate|].
  destruct (superblock (key n)); [now intros [= <-]|].
  destruct (size n <? min_size (key n)); [discriminate|].
  destruct (Nat.leb_spec (total (scalar_fields (key n) (size n)))
              (length (data n))) as [L|L]; [|discriminate].
  intros [= <-]. rewrite length_swap_fields by (cbn; lia).
  apply Nat.leb_le in L. rewrite L. apply Nat.leb_le in L.
  now rewrite swap_fields_0_involutive.
Qed.

Lemma fixup_data_twice_witness :
  fixup_data (reference true)
    {| key := KEY_gtag; size := 4; data := [x07; x00; x00; x00] |}
  = Ok [x00; x00; x00; x07].
Proof.
  apply (fixup_data_twice (reference true)
           {| key := KEY_gtag; size := 4; data := [x00; x00; x00; x07] |}
           [x07; x00; x00; x00]).
  reflexivity.
Defined.

(** X7.  When the payload memory holds the declared length, [fixup_data]
    stays inside it: no field it touches lies outside the memory, the
    memory keeps its length, and the bytes behind the declared length are
    left as they were. *)
Theorem fixup_data_within_size (h : platform) (n : node) :
  (Z.to_nat (size n) <= length (data n))%nat ->
  fixup_data h n <> Fault /\
  forall mem : list byte,
    fixup_data h n = Ok mem ->
    length mem = length (data n) /\
    skipn (Z.to_nat (size n)) mem = skipn (Z.to_nat (size n)) (data n).
Proof.
  intros L. rewrite fixup_data_normalized. unfold normalized.
  destruct (known_key (key n)) eqn:K; cbn [negb];
    [|split; [discriminate|discriminate]].
  destruct (superblock (key n)) eqn:SB.
  { split; [discriminate|]. intros mem [= <-]. split; reflexivity. }
  destruct (size n <? min_size (key n)) eqn:M;
    [split; [discriminate|discriminate]|].
  apply Z.ltb_ge in M.
  pose proof (total_scalar_le_size (key n) (size n) K SB M) as T.
  assert (T' : (total (scalar_fields (key n) (size n)) <= Z.to_nat (size n))%nat)
    by lia.
  destruct (Nat.leb_spec (total (scalar_fields (key n) (size n)))
              (length (data n))) as [B|B]; [|lia].
  split; [discriminate|]. intros mem [= <-].
  split; [apply length_swap_fields; cbn; lia|].
  replace (Z.to_nat (size n))
    with (Z.to_nat (size n) - total (scalar_fields (key n) (size n))
          + total (scalar_fields (key n) (size n)))%nat by lia.
  rewrite <- !skipn_skipn. now rewrite skipn_swap_fields_0.
Qed.

Lemma fixup_data_within_size_witness :
  fixup_data (reference true)
    {| key := KEY_gtag; size := 4; data := [x00; x00; x00; x07; xaa; xbb] |}
  <> Fault /\
  forall mem : list byte,
    fixup_data (reference true)
      {| key := KEY_gtag; size := 4; data := [x00; x00; x00; x07; xaa; xbb] |}
    = Ok mem ->
    length mem = 6%nat /\ skipn 4 mem = [xaa; xbb].
Proof.
  apply (fixup_data_within_size (reference true)
           {| key := KEY_gtag; size := 4;
              data := [x00; x00; x00; x07; xaa; xbb] |}).
  cbn. lia.
Defined.

(** ** The serializer, again *)

(** X8.  [ts_write] on nodes it can take succeeds, and the number of bytes
    it writes is the sum over the nodes of 8 and the payload bytes of the
    node's type: the size of its struct, or the whole sample pairs of a
    sample block, whatever length a block of another type declares. *)
Theorem ts_write_length (h : platform) (l : list node) :
  forallb serializable l = true ->
  fst (fst (ts_write h l)) = Ok tt /\
  Z.of_nat (length (serialize h l)) = span l.
Proof.
  intros S. unfold serialize. rewrite (ts_write_written h l S). cbn [fst snd].
  split; [reflexivity|]. now apply length_written_span.
Qed.

Lemma ts_write_length_witness :
  fst (fst (ts_write (reference true) small_sequence)) = Ok tt /\
  Z.of_nat (length (serialize (reference true) small_sequence)) = 56.
Proof.
  apply (ts_write_length (reference true) small_sequence). reflexivity.
Defined.

(** X9.  A block of one 32-bit integer (timestamp, gate tag, antenna tag
    or index) that holds the integer in the host's byte order is written as
    its key, the length it declares and the integer, each most significant
    byte first, on a little-endian and on a big-endian host alike. *)
Theorem ts_write_u32_big_endian (h : platform) (k sz v : Z) :
  In k [KEY_mcda; KEY_gtag; KEY_atag; KEY_indx] ->
  0 <= sz < 2 ^ 31 ->
  serialize h [ {| key := k; size := sz;
                   data := store_uint (little_endian h) 4 v |} ]
  = rev (bytes_le 4 k) ++ rev (bytes_le 4 sz) ++ rev (bytes_le 4 v).
Proof.
  intros K R. unfold serialize.
  rewrite ts_write_written.
  - cbn [map concat fst snd]. rewrite app_nil_r. unfold written_bytes.
    cbn [key size data written_node]. do 2 f_equal.
    destruct K as [<-|[<-|[<-|[<-|[]]]]];
      destruct (little_endian h); reflexivity.
  - cbn [forallb]. rewrite andb_true_r. unfold serializable.
    cbn [key size data]. rewrite length_store_uint.
    destruct K as [<-|[<-|[<-|[<-|[]]]]]; cbn [known_key existsb];
      (replace (0 <=? sz) with true by (symmetry; apply Z.leb_le; lia));
      (replace (sz <? 2 ^ 31) with true by (symmetry; apply Z.ltb_lt; lia));
      reflexivity.
Qed.

Lemma ts_write_u32_big_endian_witness :
  serialize (reference true)
    [ {| key := KEY_gtag; size := 4; data := [x07; x00; x00; x00] |} ]
  = list_byte_of_string "gtag" ++ [x00; x00; x00; x04; x00; x00; x00; x07] /\
  serialize (reference false)
    [ {| key := KEY_gtag; size := 4; data := [x00; x00; x00; x07] |} ]
  = list_byte_of_string "gtag" ++ [x00; x00; x00; x04; x00; x00; x00; x07].
Proof.
  split.
  - apply (ts_write_u32_big_endian (reference true) KEY_gtag 4 7);
      [cbn; tauto|lia].
  - apply (ts_write_u32_big_endian (reference false) KEY_gtag 4 7);
      [cbn; tauto|lia].
Defined.

Lemma find_block_functions_unknown (h : platform) (k : Z) :
  known_key k = false -> find_block_functions h k = None.
Proof.
  intros K. destruct (find_block_functions h k) as [bf|] eqn:F; [|reflexivity].
  apply find_block_functions_key in F. destruct F as [_ F]. congruence.
Qed.

(** X10.  [ts_write] stops at the first node whose key is in no registry
    entry and returns the failure; the blocks in front of it have been
    written by then and their nodes byte-swapped, the node itself and the
    ones behind it are untouched. *)
Theorem ts_write_stops_at_unknown (h : platform) (l1 l2 : list node)
    (n : node) :
  forallb serializable l1 = true ->
  known_key (key n) = false ->
  ts_write h (l1 ++ n :: l2)
  = (Err UnknownBlockType,
     concat (map (written_bytes (little_endian h)) l1),
     map (written_node (little_endian h)) l1 ++ n :: l2).
Proof.
  intros S U. induction l1 as [|m l1 IH].
  - cbn [app ts_write map concat]. now rewrite find_block_functions_unknown.
  - cbn [forallb] in S. apply andb_prop in S. destruct S as [Sm Sl].
    cbn [app ts_write map concat].
    assert (K : known_key (key m) = true).
    { unfold serializable in Sm.
      now repeat (apply andb_prop in Sm; destruct Sm as [Sm _]). }
    destruct (find_block_functions_known h _ K) as (bf & F & _).
    rewrite F, (gen_written h m bf F Sm), (IH Sl). reflexivity.
Qed.

Lemma ts_write_stops_at_unknown_witness :
  ts_write (reference true)
    ([block KEY_gtag [x07; x00; x00; x00]] ++ node_zero :: [block KEY_END []])
  = (Err UnknownBlockType,
     list_byte_of_string "gtag" ++ [x00; x00; x00; x04; x00; x00; x00; x07],
     [ {| key := 0x67617467; size := 0x04000000;
          data := [x00; x00; x00; x07] |};
       node_zero; block KEY_END [] ]).
Proof.
  apply (ts_write_stops_at_unknown (reference true)
           [block KEY_gtag [x07; x00; x00; x00]] [block KEY_END []] node_zero);
    reflexivity.
Defined.

(** ** The decoder, again *)

Lemma Z_of_le_range (bs : list byte) :
  0 <= Z_of_le bs < 256 ^ Z.of_nat (length bs).
Proof.
  induction bs as [|b t IH]; [cbn; lia|].
  cbn [Z_of_le length]. rewrite Nat2Z.inj_succ, Z.pow_succ_r by lia.
  pose proof (Z_of_byte_range b). lia.
Qed.

Lemma be32_range (mem : list byte) (off : nat) : 0 <= be32 mem off < 2 ^ 32.
Proof.
  unfold be32. pose proof (Z_of_le_range (rev (slice mem off 4))) as R.
  assert (L : (length (rev (slice mem off 4)) <= 4)%nat)
    by (rewrite length_rev; unfold slice; rewrite length_firstn; lia).
  assert (256 ^ Z.of_nat (length (rev (slice mem off 4))) <= 256 ^ 4)
    by (apply Z.pow_le_mono_r; lia).
  change (256 ^ 4) with (2 ^ 32) in *. lia.
Qed.

(** What a turn of the loop of [parse_block] that ends well went
    through. *)
Lemma parse_block_ok_inv (h : platform) (f : nat) (buffer : list byte)
    (len : Z) (nodes : list node) (buffer' : list byte) :
  0 < len ->
  parse_block h (S f) buffer len = Some (Ok (nodes, buffer')) ->
  (8 <= length buffer)%nat /\
  let k := be32 buffer 0 in
  let len1 := wrap64 (len - 8) in
  let sz := if be32 buffer 4 >? len1 then len1 else be32 buffer 4 in
  exists (sub : list node) (buf : list byte) (rest : list node)
         (buf' hdr : list byte),
    length hdr = 8%nat /\
    (if superblock k
     then parse_block h f (skipn 8 buffer) sz = Some (Ok (sub, buf))
     else fixup_data h {| key := k; size := sz; data := skipn 8 buffer |}
          = Ok buf /\ sub = []) /\
    parse_block h f (skipn (Z.to_nat sz) buf) (wrap64 (len1 - sz))
    = Some (Ok (rest, buf')) /\
    nodes = {| key := k; size := sz; data := firstn (Z.to_nat sz) buf |}
              :: sub ++ rest /\
    buffer' = hdr ++ firstn (Z.to_nat sz) buf ++ buf'.
Proof.
  intros P E.
  destruct (Nat.ltb_spec (length buffer) 8) as [S|L].
  { exfalso. cbn [parse_block] in E.
    destruct (Z.gtb_spec len 0); [|lia]. cbn [negb] in E.
    destruct (Nat.ltb_spec (length buffer) 8); [discriminate|lia]. }
  split; [exact L|]. rewrite parse_block_step in E by assumption.
  cbv zeta in *.
  match type of E with
  | context [firstn 8 ?b] =>
      assert (LH : length (firstn 8 b) = 8%nat)
        by (now apply length_header_fixup);
      set (hdr := firstn 8 b) in *
  end.
  set (k := be32 buffer 0) in *. set (len1 := wrap64 (len - 8)) in *.
  set (sz := if be32 buffer 4 >? len1 then len1 else be32 buffer 4) in *.
  destruct (superblock k).
  - destruct (parse_block h f (skipn 8 buffer) sz) as [[[sub buf]|e|]|];
      try discriminate.
    destruct (parse_block h f (skipn (Z.to_nat sz) buf) (wrap64 (len1 - sz)))
      as [[[rest buf']|e|]|] eqn:R; try discriminate.
    injection E as <- <-. exists sub, buf, rest, buf', hdr. auto.
  - destruct (fixup_data h _) as [mem|e|] eqn:FD; cbn [bind] in E;
      try discriminate.
    destruct (parse_block h f (skipn (Z.to_nat sz) mem) (wrap64 (len1 - sz)))
      as [[[rest buf']|e|]|] eqn:R; try discriminate.
    injection E as <- <-. exists [], mem, rest, buf', hdr. auto.
Qed.

Lemma parse_block_done (h : platform) (f : nat) (buffer : list byte)
    (len : Z) (nodes : list node) (buffer' : list byte) :
  len <= 0 ->
  parse_block h (S f) buffer len = Some (Ok (nodes, buffer')) ->
  nodes = [] /\ buffer' = buffer.
Proof.
  intros P. cbn [parse_block]. destruct (Z.gtb_spec len 0); [lia|].
  cbn [negb]. now intros [= <- <-].
Qed.

(** The buffer a decoding leaves has the length of the one it was
    given. *)
Lemma parse_block_length (h : platform) (fuel : nat) :
  forall (buffer : list byte) (len : Z) (nodes : list node)
         (buffer' : list byte),
    parse_block h fuel buffer len = Some (Ok (nodes, buffer')) ->
    length buffer' = length buffer.
Proof.
  induction fuel as [|f IH]; intros buffer len nodes buffer' E;
    [discriminate|].
  destruct (Z.ltb_spec 0 len) as [P|P].
  2:{ apply parse_block_done in E; [|exact P]. now destruct E as [_ ->]. }
  apply parse_block_ok_inv in E; [|exact P]. cbv zeta in E.
  destruct E as (L & sub & buf & rest & buf' & hdr & LH & I & R & _ & ->).
  assert (LB : length buf = length (skipn 8 buffer)).
  { destruct (superblock (be32 buffer 0)).
    - now apply IH in I.
    - destruct I as [I _]. now apply fixup_data_length in I. }
  apply IH in R.
  rewrite !length_app, LH, R, length_firstn, length_skipn, LB, length_skipn.
  lia.
Qed.

(** A range far longer than the buffer is never decoded to the end: the
    loop leaves it only through a failure, or through the read of a header
    outside the buffer. *)
Lemma parse_block_oversized (h : platform) (fuel : nat) :
  forall (buffer : list byte) (len : Z) (nodes : list node)
         (buffer' : list byte),
    4294967304 * (Z.of_nat (length buffer) + 1) <= len < 2 ^ 64 ->
    parse_block h fuel buffer len <> Some (Ok (nodes, buffer')).
Proof.
  induction fuel as [|f IH]; intros buffer len nodes buffer' B E;
    [discriminate|].
  apply parse_block_ok_inv in E; [|lia]. cbv zeta in E.
  destruct E as (L & sub & buf & rest & buf' & hdr & LH & I & R & _ & _).
  assert (LB : length buf = length (skipn 8 buffer)).
  { destruct (superblock (be32 buffer 0)).
    - now apply parse_block_length in I.
    - destruct I as [I _]. now apply fixup_data_length in I. }
  rewrite length_skipn in LB.
  pose proof (be32_range buffer 4) as D.
  rewrite (wrap64_small (len - 8)) in R by lia.
  revert R. set (sz := if be32 buffer 4 >? len - 8 then len - 8 else be32 buffer 4).
  assert (SZ : 0 <= sz < 2 ^ 32 /\ sz <= len - 8).
  { subst sz. destruct (Z.gtb_spec (be32 buffer 4) (len - 8)); lia. }
  intros R. rewrite wrap64_small in R by lia.
  apply IH in R; [exact R|]. rewrite length_skipn. lia.
Qed.

Lemma superblock_min_size (k : Z) : superblock k = true -> min_size k = 0.
Proof.
  unfold superblock.
  destruct (Z.eqb_spec k KEY_AQLV) as [->|_]; [reflexivity|].
  destruct (Z.eqb_spec k KEY_HEAD) as [->|_]; [reflexivity|].
  destruct (Z.eqb_spec k KEY_BODY) as [->|_]; [reflexivity|].
  destruct (Z.eqb_spec k KEY_END) as [->|_]; [reflexivity|discriminate].
Qed.

Lemma fixup_data_ok_inv (h : platform) (n : node) (mem : list byte) :
  fixup_data h n = Ok mem ->
  known_key (key n) = true /\
  (superblock (key n) = false -> min_size (key n) <= size n).
Proof.
  rewrite fixup_data_normalized. unfold normalized.
  destruct (known_key (key n)); cbn [negb]; [|discriminate].
  destruct (superblock (key n)); [intros _; split; [reflexivity|discriminate]|].
  destruct (Z.ltb_spec (size n) (min_size (key n))); [discriminate|].
  intros _. split; [reflexivity|intros _; assumption].
Qed.

(** The invariant of the decoder, for a range that lies inside the
    buffer. *)
Lemma parse_block_decoded (h : platform) (fuel : nat) :
  forall (buffer : list byte) (len : Z) (nodes : list node)
         (buffer' : list byte),
    0 <= len <= Z.of_nat (length buffer) ->
    Z.of_nat (length buffer) < 2 ^ 31 ->
    parse_block h fuel buffer len = Some (Ok (nodes, buffer')) ->
    Forall (fun n => decoded_block n /\ 8 + size n <= len) nodes /\
    stream_bytes nodes = len.
Proof.
  induction fuel as [|f IH]; intros buffer len nodes buffer' B G E;
    [discriminate|].
  destruct (Z.ltb_spec 0 len) as [P|P].
  2:{ apply parse_block_done in E; [|exact P]. destruct E as [-> _].
      split; [constructor|cbn; lia]. }
  apply parse_block_ok_inv in E; [|exact P]. cbv zeta in E.
  destruct E as (L & sub & buf & rest & buf' & hdr & LH & I & R & -> & _).
  assert (LB : length buf = length (skipn 8 buffer)).
  { destruct (superblock (be32 buffer 0)).
    - now apply parse_block_length in I.
    - destruct I as [I _]. now apply fixup_data_length in I. }
  rewrite length_skipn in LB.
  pose proof (be32_range buffer 4) as D.
  destruct (Z.ltb_spec len 8) as [W|W].
  { (* the range ends inside the header: the subtraction wraps *)
    exfalso.
    assert (W64 : wrap64 (len - 8) = len - 8 + 18446744073709551616)
      by (unfold wrap64; symmetry; apply Z.mod_unique with (-1); lia).
    rewrite W64 in R. revert R.
    set (len1 := len - 8 + 18446744073709551616).
    set (sz := if be32 buffer 4 >? len1 then len1 else be32 buffer 4).
    assert (SZ : 0 <= sz < 2 ^ 32).
    { subst sz. destruct (Z.gtb_spec (be32 buffer 4) len1); lia. }
    intros R. rewrite wrap64_small in R by lia.
    apply parse_block_oversized in R; [exact R|]. rewrite length_skipn. lia. }
  rewrite (wrap64_small (len - 8)) in I, R |- * by lia.
  revert I R.
  set (sz := if be32 buffer 4 >? len - 8 then len - 8 else be32 buffer 4).
  assert (SZ : 0 <= sz <= len - 8).
  { subst sz. destruct (Z.gtb_spec (be32 buffer 4) (len - 8)); lia. }
  intros I R. rewrite wrap64_small in R by lia.
  apply IH in R; [|rewrite length_skipn; lia..].
  destruct R as [FR SR].
  assert (N : decoded_block {| key := be32 buffer 0; size := sz;
                               data := firstn (Z.to_nat sz) buf |}).
  { unfold decoded_block. cbn [key size data].
    rewrite length_firstn, LB.
    destruct (superblock (be32 buffer 0)) eqn:SB.
    - rewrite (superblock_min_size _ SB), (superblock_known _ SB). lia.
    - destruct I as [I _]. apply fixup_data_ok_inv in I. cbn [key size] in I.
      destruct I as [K M]. specialize (M SB). rewrite K. lia. }
  cbn [stream_bytes key size].
  destruct (superblock (be32 buffer 0)) eqn:SB.
  - apply IH in I; [|rewrite length_skipn; lia..]. destruct I as [FS SS].
    split.
    + constructor; [split; [exact N|cbn [size]; lia]|].
      apply Forall_app. split;
        [apply (Forall_impl _ (P := fun n => decoded_block n /\ 8 + size n <= sz))
         |apply (Forall_impl _ (P := fun n => decoded_block n
                                              /\ 8 + size n <= len - 8 - sz))];
        try assumption; intros a [A1 A2]; split; [exact A1|lia| exact A1|lia].
    + assert (A : forall a b, stream_bytes (a ++ b)
                              = stream_bytes a + stream_bytes b).
      { intros a b. induction a as [|x a IHa]; cbn [app stream_bytes]; lia. }
      rewrite A. lia.
  - destruct I as [_ ->]. cbn [app]. split; [|lia].
    constructor; [split; [exact N|cbn [size]; lia]|].
    apply (Forall_impl _ (P := fun n => decoded_block n
                                        /\ 8 + size n <= len - 8 - sz));
      [|assumption]; intros a [A1 A2]; split; [exact A1|lia].
Qed.

(** X11.  A file of one to seven bytes makes the decoder read a block
    header that ends outside the buffer: [parse_file] faults, and so does
    [tsdump], which checks the header of longer files only. *)
Theorem parse_file_short_buffer (h : platform) (buffer : list byte)
    (just_header : bool) :
  (0 < length buffer < 8)%nat ->
  parse_file h buffer = Fault /\
  tsdump h buffer just_header = (Fault, ""%string).
Proof.
  intros L.
  assert (E : parse_file h buffer = Fault).
  { unfold parse_file. cbn [parse_block].
    destruct (Z.gtb_spec (Z.of_nat (length buffer)) 0); [|lia]. cbn [negb].
    destruct (Nat.ltb_spec (length buffer) 8); [reflexivity|lia]. }
  split; [exact E|]. unfold tsdump.
  destruct (Nat.ltb_spec 8 (length buffer)); [lia|]. cbn [andb].
  now rewrite E.
Qed.

Lemma parse_file_short_buffer_witness :
  parse_file (reference true) short_file = Fault /\
  tsdump (reference true) short_file false = (Fault, ""%string).
Proof.
  apply (parse_file_short_buffer (reference true) short_file false).
  cbn. lia.
Defined.

Lemma parse_file_decoded_aux (h : platform) (buffer : list byte)
    (nodes : list node) :
  Z.of_nat (length buffer) < 2 ^ 31 ->
  parse_file h buffer = Ok nodes ->
  Forall (fun n => decoded_block n
                   /\ 8 + size n <= Z.of_nat (length buffer)) nodes /\
  stream_bytes nodes = Z.of_nat (length buffer).
Proof.
  intros G. unfold parse_file.
  destruct (parse_block h (S (length buffer)) buffer (Z.of_nat (length buffer)))
    as [[[l b]|e|]|] eqn:E; try discriminate.
  destruct l as [|n l]; [discriminate|].
  intros [= <-]. eapply parse_block_decoded; [|exact G|exact E]. lia.
Qed.

(** X12.  Every node of a sequence the decoder returns for a file of less
    than 2^31 bytes has a key of the registry, a length that is at least
    the size of the struct of its type and fits the file, and a payload of
    exactly that length; and the sequence accounts for every byte of the
    file: eight for each block and the payload of each block that is no
    container. *)
Theorem parse_file_decoded (h : platform) (buffer : list byte)
    (nodes : list node) :
  Z.of_nat (length buffer) < 2 ^ 31 ->
  parse_file h buffer = Ok nodes ->
  Forall (fun n => decoded_block n
                   /\ 8 + size n <= Z.of_nat (length buffer)) nodes /\
  stream_bytes nodes = Z.of_nat (length buffer).
Proof. apply parse_file_decoded_aux. Qed.

Lemma parse_file_decoded_witness :
  exists nodes : list node,
    parse_file (reference true) small_file = Ok nodes /\
    Forall (fun n => decoded_block n /\ 8 + size n <= 56) nodes /\
    stream_bytes nodes = 56.
Proof.
  eexists. split; [vm_compute; reflexivity|].
  apply (parse_file_decoded (reference true) small_file);
    [vm_compute; reflexivity|vm_compute; reflexivity].
Defined.

Lemma decoded_payload (n : node) :
  decoded_block n ->
  (payload_bytes (key n) (size n) <= length (data n))%nat.
Proof.
  intros (K & M & P & L). rewrite L. unfold payload_bytes.
  destruct (Z.eqb_spec (key n) KEY_sign) as [E|E].
  - rewrite E in M. change (min_size KEY_sign) with 208 in M. lia.
  - destruct (superblock (key n)) eqn:SB.
    + pose proof (payload_bytes_superblock (key n) (size n) SB) as Z0.
      unfold payload_bytes in Z0. apply Z.eqb_neq in E. rewrite E in Z0. lia.
    + pose proof (total_scalar_le_size (key n) (size n) K SB M). lia.
Qed.

(** X13.  Every sequence the decoder returns for a file of less than 2^31
    bytes is one the serializer can take: [ts_write] on it finds every key
    in the registry, reads no payload byte outside the node's memory and
    returns success. *)
Theorem parse_file_serializable (h : platform) (buffer : list byte)
    (nodes : list node) :
  Z.of_nat (length buffer) < 2 ^ 31 ->
  parse_file h buffer = Ok nodes ->
  forallb serializable nodes = true /\
  fst (fst (ts_write h nodes)) = Ok tt.
Proof.
  intros G E. destruct (parse_file_decoded_aux h buffer nodes G E) as [F _].
  assert (S : forallb serializable nodes = true).
  { apply forallb_forall. intros n I.
    rewrite Forall_forall in F. destruct (F n I) as [D B].
    pose proof (decoded_payload n D) as PB.
    destruct D as (K & _ & P & _). unfold serializable. rewrite K.
    apply andb_true_intro. split; [|now apply Nat.leb_le].
    apply andb_true_intro. split; [|apply Z.ltb_lt; lia].
    apply Z.leb_le. exact P. }
  split; [exact S|]. now rewrite (ts_write_written h nodes S).
Qed.

Lemma parse_file_serializable_witness :
  exists nodes : list node,
    parse_file (reference true) small_file = Ok nodes /\
    forallb serializable nodes = true /\
    fst (fst (ts_write (reference true) nodes)) = Ok tt.
Proof.
  eexists. split; [vm_compute; reflexivity|].
  apply (parse_file_serializable (reference true) small_file);
    [vm_compute; reflexivity|vm_compute; reflexivity].
Defined.

(** ** The renderer, again *)






(** ** The builder, again *)

(** X15.  [read_parameter] does not look behind the first empty line: what
    follows the stanza it is called in has no part in what it returns or
    stores. *)
Theorem read_parameter_stops_at_blank (h : platform)
    (stanza rest rest' : list string) (format : string) :
  read_parameter h (stanza ++ ""%string :: rest) format
  = read_parameter h (stanza ++ ""%string :: rest') format.
Proof.
  induction stanza as [|line stanza IH]; cbn [app read_parameter].
  - reflexivity.
  - destruct (strlen line =? 0); [reflexivity|].
    destruct (sscanf h line format) as [count stored].
    destruct (negb (count =? 0)); [reflexivity|exact IH].
Qed.

(** X16.  When no line of the stanza matches the format, [read_parameter]
    returns 1 at the empty line that ends the stanza; but when the file
    ends before any empty line it returns 0 with nothing stored, and the
    field keeps the zero the block was cleared to. *)
Theorem read_parameter_not_found (h : platform) (stanza rest : list string)
    (format : string) (off : nat) (mem : list byte) :
  Forall (fun line => strlen line <> 0 /\ fst (sscanf h line format) = 0)
         stanza ->
  read_parameter h (stanza ++ ""%string :: rest) format = (1, []) /\
  read_field h (stanza ++ ""%string :: rest) format off mem
  = Err MalformedParameter /\
  read_parameter h stanza format = (0, []) /\
  read_field h stanza format off mem = Ok mem.
Proof.
  intros F.
  assert (A : read_parameter h (stanza ++ ""%string :: rest) format = (1, [])
              /\ read_parameter h stanza format = (0, [])).
  { induction F as [|line stanza [N M] _ [IH1 IH2]]; cbn [app read_parameter].
    - split; reflexivity.
    - apply Z.eqb_neq in N. rewrite N.
      destruct (sscanf h line format) as [count stored]. cbn [fst] in M.
      subst count. cbn [Z.eqb negb]. split; assumption. }
  destruct A as [A1 A2]. unfold read_field. rewrite A1, A2, firstn_nil.
  cbn [length Nat.eqb Z.eqb negb andb].
  repeat split. unfold blit. cbn [length firstn app].
  rewrite Nat.add_0_r, firstn_nil. cbn [app]. f_equal. apply firstn_skipn.
Qed.

Lemma read_parameter_not_found_witness :
  read_parameter (reference true) ["atag:9"; ""; "gtag:7"]%string "gtag:%u"
  = (1, []) /\
  read_field (reference true) ["atag:9"; ""; "gtag:7"]%string "gtag:%u" 0
    [x00; x00; x00; x00]
  = Err MalformedParameter /\
  read_parameter (reference true) ["atag:9"]%string "gtag:%u" = (0, []) /\
  read_field (reference true) ["atag:9"]%string "gtag:%u" 0
    [x00; x00; x00; x00]
  = Ok [x00; x00; x00; x00].
Proof.
  apply (read_parameter_not_found (reference true) ["atag:9"%string]
           ["gtag:7"%string] "gtag:%u" 0 [x00; x00; x00; x00]).
  repeat constructor. discriminate.
Defined.

(** X17.  On a stanza of less than 2^31 lines, which its [int] counter
    can count, [count_alvl_lines] counts the lines in front of the first
    empty line, or all the lines that are left when the file ends
    first. *)
Theorem count_alvl_lines_stanza (stanza rest : list string) :
  Z.of_nat (length stanza) < 2 ^ 31 ->
  Forall (fun line => strlen line <> 0) stanza ->
  count_alvl_lines (stanza ++ ""%string :: rest) = Z.of_nat (length stanza) /\
  count_alvl_lines stanza = Z.of_nat (length stanza).
Proof.
  intros _.
  induction 1 as [|line stanza N _ [IH1 IH2]]; cbn [app count_alvl_lines length].
  - split; reflexivity.
  - assert (P : 0 <= strlen line) by (unfold strlen; lia).
    destruct (Z.ltb_spec (strlen line) 1); [lia|].
    rewrite IH1, IH2. split; lia.
Qed.

Lemma count_alvl_lines_stanza_witness :
  count_alvl_lines (["i:0.5"; "q:0.25"]%string ++ ""%string :: ["END "%string])
  = 2 /\
  count_alvl_lines ["i:0.5"; "q:0.25"]%string = 2.
Proof.
  apply (count_alvl_lines_stanza ["i:0.5"; "q:0.25"]%string ["END "%string]).
  - reflexivity.
  - repeat constructor; discriminate.
Defined.

(** ** Stanza headers *)

(** X18.  The name the renderer prints for a key of the registry is a
    line that [tsgen] takes for a stanza header (longer than one character,
    without a colon) and whose first four bytes give the key back, on
    either host. *)
Theorem key_of_line_strkey (h : platform) (k : Z) :
  known_key k = true ->
  (strlen (strkey h k) <=? 1) = false /\
  has_colon (strkey h k) = false /\
  key_of_line h (strkey h k) = k.
Proof.
  intros K. apply known_key_cases in K. unfold strkey, key_of_line.
  repeat (destruct K as [->|K]); [..|subst k];
    destruct (little_endian h); vm_compute; repeat split.
Qed.

Lemma key_of_line_strkey_witness :
  (strlen (strkey (reference true) KEY_END) <=? 1) = false /\
  has_colon (strkey (reference true) KEY_END) = false /\
  key_of_line (reference true) (strkey (reference true) KEY_END) = KEY_END.
Proof. apply (key_of_line_strkey (reference true) KEY_END). reflexivity. Defined.

(** ** [tsdump], again *)

Lemma check_header_be32 (h : platform) (buffer : list byte) :
  (4 <= length buffer)%nat ->
  check_header h buffer = negb (be32 buffer 0 =? KEY_AQLV).
Proof.
  intros L. unfold check_header, be32, slice. cbn [skipn].
  destruct buffer as [|a [|b [|c [|d t]]]]; cbn [length] in L; try lia.
  destruct (little_endian h); reflexivity.
Qed.

(** X19.  [tsdump] does not report a file it rejects: for a file of more
    than eight bytes whose first four are not the outer container's key,
    and for a file the decoder fails on, it writes nothing and returns
    0. *)
Theorem tsdump_rejects_silently (h : platform) (buffer : list byte)
    (just_header : bool) :
  ((8 < length buffer)%nat /\ be32 buffer 0 <> KEY_AQLV) \/
  (exists e, parse_file h buffer = Err e) ->
  tsdump h buffer just_header = (Ok tt, ""%string).
Proof.
  unfold tsdump. intros [[L N]|[e E]].
  - destruct (Nat.ltb_spec 8 (length buffer)); [|lia]. cbn [andb].
    rewrite check_header_be32 by lia. apply Z.eqb_neq in N. now rewrite N.
  - rewrite E. now destruct (_ && _).
Qed.

Lemma tsdump_rejects_silently_witness :
  tsdump (reference true) (list_byte_of_string "NOT A TS FILE") false
  = (Ok tt, ""%string) /\
  tsdump (reference true) truncated_gtag_file false = (Ok tt, ""%string).
Proof.
  split.
  - apply (tsdump_rejects_silently (reference true)
             (list_byte_of_string "NOT A TS FILE") false).
    left. split; [cbn; lia|vm_compute; discriminate].
  - apply (tsdump_rejects_silently (reference true) truncated_gtag_file false).
    right. exists TruncatedBlock. reflexivity.
Defined.

(** ** The renderer's context *)

Ltac dump_form :=
  repeat match goal with
    | |- context [if ?s <? ?a then _ else _] => destruct (s <? a)
    | |- context [within ?b ?m] => destruct (within b m); cbn [bind]
    end;
  try discriminate.

(** Only the render function of the format block changes the width
    selector of the context. *)
Lemma dump_keeps_selector (h : platform) (bf : block_functions h) (n : node)
    (c c' : config h) (text : string) :
  In bf (Global_function_dictionary h) ->
  bf_key bf <> KEY_fbin ->
  dump bf n c = Ok (c', text) ->
  bin_type c' = bin_type c.
Proof.
  intros I NF. cbn in I.
  repeat (destruct I as [<-|I]); [..|destruct I]; cbn [dump bf_key] in *.
  - unfold dump_block_alvl. destruct (size n <? sizeof_block_alvl);
      [discriminate|].
    destruct (bin_factor (ar h) (bin_type c)); [|discriminate].
    destruct (within _ _); cbn [bind]; try discriminate. now intros [= <- _].
  - unfold dump_block_gtag. dump_form. now intros [= <- _].
  - unfold dump_block_atag. dump_form. now intros [= <- _].
  - unfold dump_block_indx. dump_form. now intros [= <- _].
  - unfold dump_block_scal. dump_form. now intros [= <- _].
  - unfold dump_block_sign. dump_form. now intros [= <- _].
  - unfold dump_block_mcda. dump_form. now intros [= <- _].
  - unfold dump_block_cnst. dump_form. now intros [= <- _].
  - unfold dump_block_swep. dump_form. now intros [= <- _].
  - congruence.
  - now intros [= <- _].
  - now intros [= <- _].
  - now intros [= <- _].
  - now intros [= <- _].
Qed.

Lemma dump_list_from_alvl_unrecognised (h : platform) (n : node)
    (rest : list node) :
  key n = KEY_alvl ->
  forall (prefix : list node) (c : config h),
    bin_factor (ar h) (bin_type c) = None ->
    Forall (fun m => key m <> KEY_fbin) prefix ->
    fst (dump_list_from h c (prefix ++ n :: rest) false) <> Ok tt.
Proof.
  intros K. induction prefix as [|m prefix IH]; intros c BF NF.
  - cbn [app dump_list_from]. rewrite K.
    change (find_block_functions h KEY_alvl)
      with (Some {| bf_key := KEY_alvl; fixup := fixup_data_alvl h;
                    make := make_node_alvl h; dump := dump_block_alvl h;
                    gen := gen_block_alvl h |}).
    cbn [andb dump]. unfold dump_block_alvl. rewrite BF.
    destruct (size n <? sizeof_block_alvl); cbn; discriminate.
  - inversion NF as [|? ? NM NP]; subst. cbn [app dump_list_from andb].
    destruct (find_block_functions h (key m)) as [bf|] eqn:F;
      [|cbn; discriminate].
    pose proof (find_block_functions_key h _ bf F) as [KB _].
    destruct (dump bf m c) as [[c' text]|e|] eqn:D; [|cbn; discriminate..].
    assert (BF' : bin_factor (ar h) (bin_type c') = None).
    { rewrite (dump_keeps_selector h bf m c c' text); try assumption.
      - now apply find_block_functions_In in F.
      - congruence. }
    specialize (IH c' BF' NP).
    destruct (dump_list_from h c' (prefix ++ n :: rest) false) as [st more].
    exact IH.
Qed.

(** X20.  A sequence in which a sample block comes before any format
    block does not render: the whole rendering fails, and the render
    function of a sample block of four bytes or more, in a context whose
    width selector is not one of the four the code knows, returns the
    missing-context failure. *)
Theorem dump_list_alvl_needs_fbin (h : platform) (prefix rest : list node)
    (n : node) (c : config h) :
  key n = KEY_alvl ->
  Forall (fun m => key m <> KEY_fbin) prefix ->
  bin_factor (ar h) (bin_type c) = None ->
  fst (dump_list h (prefix ++ n :: rest) false) <> Ok tt /\
  (sizeof_block_alvl <= size n ->
   dump_block_alvl h n c = Err MissingContext).
Proof.
  intros K NF BF. split.
  - apply dump_list_from_alvl_unrecognised; [exact K|reflexivity|exact NF].
  - intros S. unfold dump_block_alvl. rewrite BF.
    destruct (Z.ltb_spec (size n) sizeof_block_alvl); [lia|reflexivity].
Qed.

Lemma dump_list_alvl_needs_fbin_witness :
  fst (dump_list (reference true)
         ([block KEY_gtag [x07; x00; x00; x00]]
          ++ block KEY_alvl [x01; x00; x02; x00] :: [block KEY_END []]) false)
  <> Ok tt /\
  dump_block_alvl (reference true) (block KEY_alvl [x01; x00; x02; x00])
    (config_zero (reference true))
  = Err MissingContext.
Proof.
  destruct (dump_list_alvl_needs_fbin (reference true)
              [block KEY_gtag [x07; x00; x00; x00]] [block KEY_END []]
              (block KEY_alvl [x01; x00; x02; x00])
              (config_zero (reference true)) eq_refl) as [A B].
  - repeat constructor. discriminate.
  - reflexivity.
  - split; [exact A|]. apply B. vm_compute. discriminate.
Defined.

(** ** What the builder builds *)

Lemma read_alvl_loop_length (h : platform) (factor : double (ar h))
    (c : config h) (samples : nat) :
  forall (off : nat) (fd : list string) (mem mem' : list byte),
    read_alvl_loop h factor c samples off fd mem = Ok mem' ->
    length mem' = length mem.
Proof.
  induction samples as [|k IH]; intros off fd mem mem'; cbn [read_alvl_loop].
  - now intros [= <-].
  - destruct fd as [|line1 [|line2 rest]]; try discriminate.
    destruct (strlen line1 =? 0); [discriminate|].
    destruct (strlen line2 =? 0); [discriminate|].
    destruct (scan_double h line1 "i:%lf"); cbn [bind]; try discriminate.
    destruct (scan_double h line2 "q:%lf"); cbn [bind]; try discriminate.
    intros E. apply IH in E. now rewrite E, !length_blit.
Qed.

Lemma count_alvl_lines_le (fd : list string) :
  0 <= count_alvl_lines fd <= Z.of_nat (length fd).
Proof.
  induction fd as [|line fd IH]; cbn [count_alvl_lines length]; [lia|].
  destruct (strlen line <? 1); lia.
Qed.

Ltac read_fields :=
  repeat match goal with
    | |- context [read_field ?h ?fd ?f ?o ?m] =>
        let R := fresh "R" in
        destruct (read_field h fd f o m) eqn:R; cbn [bind];
        try discriminate; apply read_field_length in R
    end.

Ltac leaf_fixed :=
  intros [= <- _]; right; unfold leaf_block; cbn [key size data];
  repeat split;
  try (lazymatch goal with
       | |- context [length _] => fail
       | _ => first [reflexivity | cbv; congruence]
       end).

Lemma make_builds (h : platform) (bf : block_functions h) (c c' : config h)
    (fd : list string) (n : node) :
  In bf (Global_function_dictionary h) ->
  Z.of_nat (length fd) < 2 ^ 30 ->
  make bf c fd = Ok (n, c') ->
  built n.
Proof.
  intros I G. cbn in I.
  repeat (destruct I as [<-|I]); [..|destruct I]; cbn [make].
  - unfold make_node_alvl. pose proof (count_alvl_lines_le fd) as C.
    set (lines := count_alvl_lines fd) in *.
    destruct (Z.leb_spec lines 0) as [|P]; [discriminate|].
    destruct (Z.eqb_spec (lines mod 2) 1) as [|E]; [discriminate|].
    unfold read_alvl_samples.
    destruct (bin_factor (ar h) (bin_type c)) as [factor|];
      cbn [bind]; [|discriminate].
    destruct (read_alvl_loop _ _ _ _ _ _ _) as [mem| |] eqn:R; cbn [bind];
      try discriminate.
    apply read_alvl_loop_length in R. intros [= <- _]. right.
    unfold zeros in R. rewrite repeat_length in R.
    unfold sizeof_block_alvl in *.
    assert (H2 : 1 <= lines / 2 < 2 ^ 29).
    { pose proof (Z.div_mod lines 2 ltac:(lia)).
      pose proof (Z.mod_pos_bound lines 2 ltac:(lia)). lia. }
    assert (W : wrap32 (lines / 2 * 4) = lines / 2 * 4)
      by (apply wrap32_small; lia).
    assert (Q : lines / 2 * 4 / 4 = lines / 2) by (apply Z.div_mul; lia).
    unfold leaf_block. cbn [key size data]. rewrite W.
    assert (PB : payload_bytes KEY_alvl (lines / 2 * 4)
                 = Z.to_nat (lines / 2 * 4)).
    { unfold payload_bytes. cbn [Z.eqb KEY_alvl KEY_sign Pos.eqb].
      unfold scalar_fields.
      cbv [Z.eqb KEY_alvl KEY_sign KEY_mcda KEY_cnst KEY_swep KEY_fbin
           KEY_gtag KEY_atag KEY_indx KEY_scal Pos.eqb].
      rewrite Q, total_repeat2. lia. }
    rewrite PB. repeat split; try reflexivity; try lia.
    change (min_size KEY_alvl) with 4. lia.
  - unfold make_node_gtag. read_fields. leaf_fixed. now rewrite R.
  - unfold make_node_atag. read_fields. leaf_fixed. now rewrite R.
  - unfold make_node_indx. read_fields. leaf_fixed. now rewrite R.
  - unfold make_node_scal. read_fields. leaf_fixed. now rewrite R0, R.
  - unfold make_node_sign. read_fields. leaf_fixed.
    now rewrite R5, R4, R3, R2, R1, R0, R.
  - unfold make_node_mcda. read_fields. leaf_fixed.
    now rewrite length_blit, R.
  - unfold make_node_cnst. read_fields. leaf_fixed.
    now rewrite R2, R1, R0, R.
  - unfold make_node_swep. read_fields. leaf_fixed.
    now rewrite R3, R2, R1, R0, R.
  - unfold make_node_fbin.
    destruct (read_field h fd "format:%4s" 0 (zeros sizeof_block_fbin))
      as [m1| |] eqn:R1; cbn [bind]; try discriminate.
    apply read_field_length in R1.
    destruct (read_field h fd "type:%4s" 4 _) as [m2| |] eqn:R2; cbn [bind];
      try discriminate.
    apply read_field_length in R2.
    change (length (zeros sizeof_block_fbin)) with 8%nat in R1.
    rewrite length_endian_fixup_at in R2 by lia.
    leaf_fixed. rewrite length_endian_fixup_at by lia. now rewrite R2, R1.
  - intros [= <- _]. left. cbn. auto.
  - intros [= <- _]. left. cbn. auto.
  - intros [= <- _]. left. cbn. auto.
  - intros [= <- _]. left. cbn. auto.
Qed.

Lemma tsgen_loop_built (h : platform) :
  forall (infile : list string) (c c' : config h) (nodes : list node),
    Z.of_nat (length infile) < 2 ^ 30 ->
    tsgen_loop h c infile = Ok (nodes, c') ->
    Forall built nodes.
Proof.
  induction infile as [|line rest IH]; intros c c' nodes G; cbn [tsgen_loop].
  - intros [= <- _]. constructor.
  - cbn [length] in G.
    assert (G' : Z.of_nat (length rest) < 2 ^ 30) by lia.
    destruct (strlen line <=? 1); [now apply IH|].
    destruct (has_colon line); [now apply IH|].
    destruct (find_block_functions h (key_of_line h line)) as [bf|] eqn:F;
      [|discriminate].
    destruct (make bf c rest) as [[n c1]|e|] eqn:M; cbn [bind];
      try discriminate.
    destruct (tsgen_loop h c1 rest) as [[l c2]|e|] eqn:T; cbn [bind];
      try discriminate.
    intros [= <- _]. constructor.
    + apply (make_builds h bf c c1 rest n); try assumption.
      now apply find_block_functions_In in F.
    + now apply (IH c1 c2).
Qed.

Lemma set_block_size_resized (l : list node) (k sz : Z) :
  Forall2 (resized [k]) l (snd (set_block_size l k sz)).
Proof.
  induction l as [|n l IH]; cbn [set_block_size snd]; [constructor|].
  destruct (Z.eqb_spec (key n) k) as [E|E]; cbn [snd].
  - constructor; [|apply resized_refl]. unfold resized. cbn.
    repeat split. right. now left.
  - destruct (set_block_size l k sz) as [err l']. cbn [snd] in *.
    constructor; [|exact IH]. unfold resized. tauto.
Qed.

(** Whatever it returns, [fixup_sizes] changes lengths of container
    blocks only. *)
Lemma fixup_sizes_resized (l : list node) :
  Forall2 (resized [KEY_AQLV; KEY_HEAD; KEY_BODY]) l (snd (fixup_sizes l)).
Proof.
  unfold fixup_sizes.
  destruct (calculate_head_size l =? 0); [apply resized_refl|].
  destruct (calculate_body_size l =? 0); [apply resized_refl|].
  match goal with
  | |- context [set_block_size l KEY_AQLV ?a] =>
      pose proof (set_block_size_resized l KEY_AQLV a) as R1;
      destruct (set_block_size l KEY_AQLV a) as [e1 l1]
  end.
  cbn [snd] in R1.
  assert (R1' : Forall2 (resized [KEY_AQLV; KEY_HEAD; KEY_BODY]) l l1)
    by (apply (resized_mono [KEY_AQLV]); [intros x [<-|[]]; cbn; tauto|exact R1]).
  destruct (negb (e1 =? 0)); [exact R1'|].
  pose proof (set_block_size_resized l1 KEY_HEAD (calculate_head_size l)) as R2.
  destruct (set_block_size l1 KEY_HEAD (calculate_head_size l)) as [e2 l2].
  cbn [snd] in R2.
  assert (R2' : Forall2 (resized [KEY_AQLV; KEY_HEAD; KEY_BODY]) l l2).
  { apply resized_trans with l1; [exact R1'|].
    apply (resized_mono [KEY_HEAD]); [intros x [<-|[]]; cbn; tauto|exact R2]. }
  destruct (negb (e2 =? 0)); [exact R2'|].
  pose proof (set_block_size_resized l2 KEY_BODY (calculate_body_size l)) as R3.
  destruct (set_block_size l2 KEY_BODY (calculate_body_size l)) as [e3 l3].
  cbn [snd] in R3.
  assert (R3' : Forall2 (resized [KEY_AQLV; KEY_HEAD; KEY_BODY]) l l3).
  { apply resized_trans with l2; [exact R2'|].
    apply (resized_mono [KEY_BODY]); [intros x [<-|[]]; cbn; tauto|exact R3]. }
  now destruct (negb (e3 =? 0)).
Qed.

(** A container block is written whatever length it declares. *)
Lemma gen_superblock_written (h : platform) (n : node)
    (bf : block_functions h) :
  find_block_functions h (key n) = Some bf ->
  superblock (key n) = true ->
  gen bf n = Ok (written_node (little_endian h) n,
                 written_bytes (little_endian h) n).
Proof.
  intros F SB. unfold written_bytes, written_node.
  destruct n as [k s d]. cbn [key size data] in *. revert F. unfold superblock in SB.
  destruct (Z.eqb_spec k KEY_AQLV) as [->|_];
    [|destruct (Z.eqb_spec k KEY_HEAD) as [->|_];
      [|destruct (Z.eqb_spec k KEY_BODY) as [->|_];
        [|destruct (Z.eqb_spec k KEY_END) as [->|_]; [|discriminate]]]];
    intros [= <-]; cbn [gen];
    unfold gen_block_aqlv, gen_block_head, gen_block_body, gen_block_end;
    rewrite gen_superblock_fields, gen_fields_written;
    try reflexivity; try constructor; cbn; lia.
Qed.

Lemma leaf_block_serializable (n : node) :
  leaf_block n -> serializable n = true.
Proof.
  intros (_ & K & [M R] & S & L). unfold serializable. rewrite K.
  pose proof (known_key_range _ K).
  assert (0 <= min_size (key n)).
  { apply known_key_cases in K.
    repeat (destruct K as [->|K]); [..|rewrite K]; cbv; congruence. }
  apply andb_true_intro. split; [|apply Nat.leb_le; lia].
  apply andb_true_intro. split; [apply Z.leb_le; lia|apply Z.ltb_lt; lia].
Qed.

(** [ts_write] on a sequence the builder built and [fixup_sizes] went
    over: every block is written. *)
Lemma ts_write_built (h : platform) :
  forall l l' : list node,
    Forall built l ->
    Forall2 (resized [KEY_AQLV; KEY_HEAD; KEY_BODY]) l l' ->
    ts_write h l'
    = (Ok tt, concat (map (written_bytes (little_endian h)) l'),
       map (written_node (little_endian h)) l') /\
    Z.of_nat (length (concat (map (written_bytes (little_endian h)) l')))
    = stream_bytes l.
Proof.
  intros l l' B R. revert B.
  induction R as [|n n' l l' (K & D & S) _ IH]; intros B.
  - split; reflexivity.
  - inversion B as [|? ? Bn Bl]; subst. destruct (IH Bl) as [W LW].
    cbn [ts_write map concat stream_bytes]. rewrite length_app, Nat2Z.inj_add, LW.
    assert (KK : known_key (key n') = true).
    { rewrite K. destruct Bn as [(SB & _)|(_ & KN & _)];
        [now apply superblock_known|exact KN]. }
    destruct (find_block_functions_known h _ KK) as (bf & F & _).
    rewrite F.
    assert (G : gen bf n' = Ok (written_node (little_endian h) n',
                                written_bytes (little_endian h) n')
                /\ Z.of_nat (length (written_bytes (little_endian h) n'))
                   = 8 + (if superblock (key n) then 0 else size n)).
    { unfold written_bytes at 2.
      rewrite !length_app, !length_rev, !length_bytes_le, K.
      destruct Bn as [(SB & S0 & D0)|LB].
      - split; [apply gen_superblock_written; [exact F|now rewrite K]|].
        rewrite SB, payload_bytes_superblock by exact SB. cbn. lia.
      - assert (E : n' = n).
        { destruct LB as (SB & _). destruct S as [S|I].
          - destruct n, n'; cbn in *; congruence.
          - exfalso. unfold superblock in SB.
            cbn in I. destruct I as [I|[I|[I|[]]]]; rewrite <- I in SB;
              discriminate. }
        subst n'. split; [apply gen_written;
                          [exact F|now apply leaf_block_serializable]|].
        pose proof LB as (SB & _ & _ & SZ & LD). rewrite SB.
        rewrite length_firstn.
        assert (length (data (written_node (little_endian h) n))
                = length (data n)).
        { unfold written_node. cbn [data]. apply length_swap_fields.
          unfold written_fields.
          pose proof (total_scalar_le_payload (key n) (size n)).
          destruct (key n =? KEY_sign); cbn; lia. }
        lia. }
    destruct G as [G LG]. rewrite G, W. split; [reflexivity|lia].
Qed.

(** The sample block built from a stanza of less than 2^30 lines holds
    four bytes, one pair of samples, for every two lines in front of the
    empty line that ends the stanza. *)
Lemma make_node_alvl_size (h : platform) (c c' : config h)
    (stanza : list string) (n : node) :
  Z.of_nat (length stanza) < 2 ^ 30 ->
  make_node_alvl h c stanza = Ok (n, c') ->
  key n = KEY_alvl /\
  size n = 4 * (count_alvl_lines stanza / 2) /\
  length (data n) = Z.to_nat (size n).
Proof.
  intros G. unfold make_node_alvl.
  pose proof (count_alvl_lines_le stanza) as C.
  set (lines := count_alvl_lines stanza) in *.
  destruct (Z.leb_spec lines 0) as [|P]; [discriminate|].
  destruct (Z.eqb_spec (lines mod 2) 1) as [|E]; [discriminate|].
  unfold read_alvl_samples.
  destruct (bin_factor (ar h) (bin_type c)) as [factor|];
    cbn [bind]; [|discriminate].
  destruct (read_alvl_loop _ _ _ _ _ _ _) as [mem| |] eqn:R; cbn [bind];
    try discriminate.
  apply read_alvl_loop_length in R. intros [= <- _].
  unfold zeros in R. rewrite repeat_length in R.
  unfold sizeof_block_alvl in *. cbn [key size data].
  assert (H2 : 1 <= lines / 2 < 2 ^ 29).
  { pose proof (Z.div_mod lines 2 ltac:(lia)).
    pose proof (Z.mod_pos_bound lines 2 ltac:(lia)). lia. }
  rewrite wrap32_small by lia.
  split; [reflexivity|]. split; [lia|exact R].
Qed.

(** X21.  Every node [tsgen] builds from a text of less than 2^30 lines is
    a container without length or data, or a block of a registered type
    that carries exactly the payload of its type: the struct, or, for a
    sample block, a whole number of pairs of 16-bit samples; and the
    sample block built from a stanza holds one pair, four bytes, for
    every two lines of the stanza. *)
Theorem tsgen_loop_builds (h : platform) (infile : list string)
    (c c' : config h) (nodes : list node) :
  Z.of_nat (length infile) < 2 ^ 30 ->
  tsgen_loop h c infile = Ok (nodes, c') ->
  Forall built nodes /\
  forall (stanza : list string) (c1 c2 : config h) (n : node),
    Z.of_nat (length stanza) < 2 ^ 30 ->
    make_node_alvl h c1 stanza = Ok (n, c2) ->
    key n = KEY_alvl /\
    size n = 4 * (count_alvl_lines stanza / 2) /\
    length (data n) = Z.to_nat (size n).
Proof.
  intros G T. split; [exact (tsgen_loop_built h infile c c' nodes G T)|].
  intros stanza c1 c2 n. apply make_node_alvl_size.
Qed.

Lemma tsgen_loop_builds_witness :
  match tsgen_loop (reference true) (config_zero (reference true))
          no_container_text with
  | Ok (nodes, _) =>
      map key nodes = [KEY_HEAD; KEY_gtag; KEY_BODY; KEY_atag; KEY_END] /\
      Forall built nodes
  | _ => False
  end /\
  match make_node_alvl (reference true)
          (Build_config (reference true) BINTYPE_FIX2 1%float 1%float)
          one_pair with
  | Ok (n, _) => key n = KEY_alvl /\ size n = 4 /\ length (data n) = 4%nat
  | _ => False
  end.
Proof.
  split.
  2:{ assert (M : match make_node_alvl (reference true)
                          (Build_config (reference true) BINTYPE_FIX2
                             1%float 1%float) one_pair with
                  | Ok _ => True
                  | _ => False
                  end) by (vm_compute; exact I).
      destruct (make_node_alvl (reference true)
                  (Build_config (reference true) BINTYPE_FIX2 1%float 1%float)
                  one_pair) as [[n c2]|e|] eqn:B; try exact M.
      destruct (proj2 (tsgen_loop_builds (reference true) []
                         (config_zero (reference true))
                         (config_zero (reference true)) []
                         ltac:(vm_compute; reflexivity) eq_refl)
                  one_pair _ c2 n ltac:(vm_compute; reflexivity) B)
        as (K & S & L).
      change (4 * (count_alvl_lines one_pair / 2)) with 4 in S.
      rewrite S in L. repeat split; assumption. }
  assert (M : match tsgen_loop (reference true) (config_zero (reference true))
                      no_container_text with
              | Ok (nodes, _) =>
                  map key nodes
                  = [KEY_HEAD; KEY_gtag; KEY_BODY; KEY_atag; KEY_END]
              | _ => False
              end) by (vm_compute; reflexivity).
  destruct (tsgen_loop (reference true) (config_zero (reference true))
              no_container_text) as [[nodes c']|e|] eqn:T; try exact M.
  split; [exact M|].
  apply (tsgen_loop_builds (reference true) no_container_text
           (config_zero (reference true)) c' nodes);
    [vm_compute; reflexivity|exact T].
Defined.

(** X22.  Once a text of less than 2^30 lines is built into at least one
    node, [tsgen] cannot fail: whatever [fixup_sizes] returned, every block
    is written in the order of the text, as its header and its payload,
    and the file has eight bytes for each block and the payload of each
    block that is no container.  A text that builds no node (it holds no
    stanza header) writes nothing, and [tsgen] ends in [free] of its local
    variable [root]. *)
Theorem tsgen_writes_what_it_built (h : platform) (infile : list string)
    (nodes : list node) (c : config h) :
  Z.of_nat (length infile) < 2 ^ 30 ->
  tsgen_loop h (config_zero h) infile = Ok (nodes, c) ->
  (nodes <> [] ->
   tsgen h infile
   = (Ok tt,
      concat (map (written_bytes (little_endian h))
                (tl (snd (fixup_sizes (node_zero :: nodes)))))) /\
   Z.of_nat (length (snd (tsgen h infile))) = stream_bytes nodes) /\
  (nodes = [] -> tsgen h infile = (Fault, [])).
Proof.
  intros G T. unfold tsgen. rewrite T. split.
  - intros NE.
    pose proof (fixup_sizes_resized (node_zero :: nodes)) as R.
    destruct (fixup_sizes (node_zero :: nodes)) as [e lst]. cbn [snd] in *.
    inversion R as [|? r' ? nodes' _ R']; subst. cbn [tl].
    destruct (ts_write_built h nodes nodes'
                (tsgen_loop_built h infile _ _ _ G T) R') as [W L].
    rewrite W. destruct nodes as [|n nodes]; [congruence|].
    cbn [snd]. split; [reflexivity|exact L].
  - intros ->. reflexivity.
Qed.

Lemma tsgen_writes_what_it_built_witness :
  (fst (tsgen (reference true) no_container_text) = Ok tt /\
   Z.of_nat (length (snd (tsgen (reference true) no_container_text))) = 48) /\
  tsgen (reference true) ["gtag:7"; ""]%string = (Fault, []).
Proof.
  split.
  - assert (M : match tsgen_loop (reference true)
                        (config_zero (reference true)) no_container_text with
                | Ok (nodes, _) => stream_bytes nodes = 48
                | _ => False
                end) by (vm_compute; reflexivity).
    destruct (tsgen_loop (reference true) (config_zero (reference true))
                no_container_text) as [[nodes c']|e|] eqn:T;
      try (exfalso; exact M).
    assert (NE : nodes <> []) by (intros ->; discriminate M).
    destruct (tsgen_writes_what_it_built (reference true) no_container_text
                nodes c' ltac:(vm_compute; reflexivity) T) as [A _].
    destruct (A NE) as [A1 A2].
    split; [now rewrite A1|now rewrite A2].
  - destruct (tsgen_writes_what_it_built (reference true)
                ["gtag:7"; ""]%string [] (config_zero (reference true))
                ltac:(vm_compute; reflexivity) eq_refl) as [_ B].
    exact (B eq_refl).
Defined.

(** ** Decimal text *)

Lemma take_digits_decimal (d : Decimal.uint) :
  forall (acc : Z) (count : nat),
    take_digits 10 acc count (digit_chars d)
    = (decimal_value d acc, (count + Decimal.nb_digits d)%nat, []).
Proof.
  unfold digit_chars.
  induction d as [|d IH|d IH|d IH|d IH|d IH|d IH|d IH|d IH|d IH|d IH];
    intros acc count;
    cbn [DecimalString.NilEmpty.string_of_uint list_ascii_of_string
         take_digits decimal_value Decimal.nb_digits];
    try (change (digit_of 10 "0") with (Some 0);
         change (digit_of 10 "1") with (Some 1);
         change (digit_of 10 "2") with (Some 2);
         change (digit_of 10 "3") with (Some 3);
         change (digit_of 10 "4") with (Some 4);
         change (digit_of 10 "5") with (Some 5);
         change (digit_of 10 "6") with (Some 6);
         change (digit_of 10 "7") with (Some 7);
         change (digit_of 10 "8") with (Some 8);
         change (digit_of 10 "9") with (Some 9);
         cbv iota; rewrite IH; f_equal; f_equal; lia).
  now rewrite Nat.add_0_r.
Qed.

Lemma decimal_value_acc (d : Decimal.uint) :
  forall p : positive,
    decimal_value d (Zpos p) = Zpos (Pos.of_uint_acc d p).
Proof.
  induction d; intros p; cbn [decimal_value Pos.of_uint_acc];
    [reflexivity|..];
    match goal with
    | |- decimal_value _ ?a = Zpos (Pos.of_uint_acc _ ?q) =>
        replace a with (Zpos q) by lia
    end; apply IHd.
Qed.

Lemma decimal_value_0 (d : Decimal.uint) :
  decimal_value d 0 = Z.of_N (Pos.of_uint d).
Proof.
  induction d; cbn [decimal_value Pos.of_uint]; [reflexivity|exact IHd|..];
    cbn [Z.mul Z.add]; rewrite decimal_value_acc; reflexivity.
Qed.

Lemma to_uint_nonnil (n : N) : N.to_uint n <> Decimal.Nil.
Proof.
  destruct n; cbn; [discriminate|apply DecimalPos.Unsigned.to_uint_nonnil].
Qed.

(** The digits ["%u"] prints for an unsigned value are read back by
    [take_digits] as that value. *)
Lemma take_digits_fmt_u (v : Z) :
  0 <= v ->
  exists (count : nat),
    count <> O /\
    take_digits 10 0 0 (list_ascii_of_string (fmt_u v)) = (v, count, []).
Proof.
  intros P. unfold fmt_u.
  pose proof (to_uint_nonnil (Z.to_N v)) as NN.
  assert (E : DecimalString.NilZero.string_of_uint (N.to_uint (Z.to_N v))
              = DecimalString.NilEmpty.string_of_uint (N.to_uint (Z.to_N v))).
  { destruct (N.to_uint (Z.to_N v)); [congruence|reflexivity..]. }
  rewrite E. fold (digit_chars (N.to_uint (Z.to_N v))).
  rewrite take_digits_decimal, decimal_value_0.
  change (Pos.of_uint (N.to_uint (Z.to_N v)))
    with (N.of_uint (N.to_uint (Z.to_N v))).
  rewrite DecimalN.Unsigned.of_to, Z2N.id by exact P.
  eexists. split; [|reflexivity].
  destruct (N.to_uint (Z.to_N v)); [congruence|cbn; lia..].
Qed.

Lemma digit_not_space (c : ascii) :
  digit_of 10 c <> None -> is_space c = false.
Proof.
  destruct c as [[] [] [] [] [] [] [] []]; vm_compute; congruence.
Qed.

Lemma take_sign_digit (c : ascii) (t : list ascii) :
  digit_of 10 c <> None -> take_sign (c :: t) = (false, c :: t).
Proof.
  destruct c as [[] [] [] [] [] [] [] []]; try reflexivity;
    vm_compute; congruence.
Qed.

(** ["%u"] on text that starts with a decimal digit and holds digits
    only. *)
Lemma scan_integer_unsigned (le : bool) (c : ascii) (t : list ascii)
    (v : Z) (count : nat) :
  digit_of 10 c <> None ->
  take_digits 10 0 0 (c :: t) = (v, count, []) ->
  count <> O ->
  0 <= v < 2 ^ 64 ->
  scan_integer le 10 false (c :: t) = Stored (store_uint le 4 (wrap32 v)).
Proof.
  intros D T C R. unfold scan_integer. cbn [skip_spaces].
  rewrite (digit_not_space c D), (take_sign_digit c t D).
  change (10 =? 16) with false. cbn [andb].
  assert (E : match c :: t with
              | "0"%char :: x :: d :: t0 => c :: t
              | _ => c :: t
              end = c :: t).
  { destruct c as [[] [] [] [] [] [] [] []]; try reflexivity;
      destruct t as [|x [|d t0]]; reflexivity. }
  match goal with
  | |- context [take_digits 10 0 0 ?m] => replace m with (c :: t)
  end.
  rewrite T. destruct count; [congruence|]. cbn [Nat.eqb].
  destruct (Z.leb_spec (2 ^ 64) v); [lia|reflexivity].
Qed.

Lemma fmt_u_head (v : Z) :
  exists (c : ascii) (t : list ascii),
    list_ascii_of_string (fmt_u v) = c :: t /\ digit_of 10 c <> None.
Proof.
  unfold fmt_u. pose proof (to_uint_nonnil (Z.to_N v)) as NN.
  destruct (N.to_uint (Z.to_N v)); [congruence|..];
    cbn [DecimalString.NilZero.string_of_uint
         DecimalString.NilEmpty.string_of_uint list_ascii_of_string];
    eexists; eexists; (split; [reflexivity|vm_compute; discriminate]).
Qed.

Lemma list_ascii_of_string_app (a b : string) :
  list_ascii_of_string (a ++ b)
  = list_ascii_of_string a ++ list_ascii_of_string b.
Proof.
  induction a as [|x a IH]; cbn [append list_ascii_of_string app];
    [reflexivity|now rewrite IH].
Qed.

Lemma split_format_literal (lit conv : list ascii) :
  Forall (fun c => Ascii.eqb c "%" = false) lit ->
  split_format (lit ++ "%"%char :: conv) = (lit, conv).
Proof.
  induction 1 as [|c lit E _ IH]; cbn [app split_format].
  - reflexivity.
  - now rewrite E, IH.
Qed.

Lemma match_literal_prefix (lit rest : list ascii) :
  match_literal lit (lit ++ rest) = Some (Some rest).
Proof.
  induction lit as [|c lit IH]; cbn [app match_literal].
  - now destruct rest.
  - now rewrite Ascii.eqb_refl.
Qed.

(** The reference [sscanf] on a line that is the literal text of the
    format followed by what ["%u"] prints for a value. *)
Lemma reference_sscanf_u (le : bool) (lit : string) (v : Z) :
  Forall (fun c => Ascii.eqb c "%" = false) (list_ascii_of_string lit) ->
  0 <= v < 2 ^ 64 ->
  reference_sscanf le (lit ++ fmt_u v) (lit ++ "%u")
  = (1, store_uint le 4 (wrap32 v)).
Proof.
  intros L R. unfold reference_sscanf. rewrite !list_ascii_of_string_app.
  change (list_ascii_of_string "%u") with ["%"%char; "u"%char].
  rewrite split_format_literal by exact L. rewrite match_literal_prefix.
  change (reference_conversion le ["u"%char])
    with (scan_integer le 10 false).
  destruct (fmt_u_head v) as (c & t & E & D).
  destruct (take_digits_fmt_u v ltac:(lia)) as (count & C & T).
  rewrite E in *. now rewrite (scan_integer_unsigned le c t v count D T C R).
Qed.

Lemma conversion_size_u (lit : string) :
  Forall (fun c => Ascii.eqb c "%" = false) (list_ascii_of_string lit) ->
  conversion_size (lit ++ "%u") = 4%nat.
Proof.
  intros L. unfold conversion_size. rewrite list_ascii_of_string_app.
  change (list_ascii_of_string "%u") with ["%"%char; "u"%char].
  now rewrite split_format_literal by exact L.
Qed.

Lemma strlen_cons (a : ascii) (s : string) : (strlen (String a s) =? 0) = false.
Proof. unfold strlen. cbn [String.length]. apply Z.eqb_neq. lia. Qed.

(** A parameter line that the renderer printed for an unsigned field, read
    back into the cleared block. *)
Lemma read_field_u32 (le : bool) (lit : string) (a : ascii) (v : Z)
    (rest : list string) :
  Forall (fun c => Ascii.eqb c "%" = false)
         (list_ascii_of_string (String a lit)) ->
  0 <= v < 2 ^ 32 ->
  read_field (reference le) ((String a lit ++ fmt_u v)%string :: rest)
    (String a lit ++ "%u") 0 (zeros 4)
  = Ok (store_uint le 4 v).
Proof.
  intros L R.
  assert (RP : read_parameter (reference le)
                 ((String a lit ++ fmt_u v)%string :: rest)
                 (String a lit ++ "%u")
               = (0, store_uint le 4 v)).
  { cbn [read_parameter].
    change (String a lit ++ fmt_u v)%string with (String a (lit ++ fmt_u v)).
    rewrite strlen_cons.
    change (sscanf (reference le)) with (reference_sscanf le).
    change (String a (lit ++ fmt_u v)) with (String a lit ++ fmt_u v)%string.
    rewrite reference_sscanf_u by (try exact L; lia).
    cbn [Z.eqb negb]. now rewrite wrap32_small by lia. }
  rewrite (read_field_stored _ _ _ 0 _ _ RP).
  - rewrite blit_whole; [reflexivity|]. now rewrite length_store_uint.
  - rewrite length_store_uint, conversion_size_u by exact L. lia.
  - rewrite length_store_uint. vm_compute. lia.
Qed.

Lemma strkey_u32_names (h : platform) :
  strkey h KEY_gtag = "gtag"%string /\
  strkey h KEY_atag = "atag"%string /\
  strkey h KEY_indx = "indx"%string.
Proof. unfold strkey. destruct (little_endian h); repeat split. Qed.

(** X23.  On the reference platform, the text the renderer prints for a
    block of one unsigned 32-bit integer (gate tag, antenna tag, index) is
    read back by the builder as the same block: the same key, length and
    payload, on either host. *)
Theorem u32_block_text_round_trip (le : bool) (c : config (reference le))
    (v : Z) (rest : list string) :
  0 <= v < 2 ^ 32 ->
  let h := reference le in
  let payload := store_uint le 4 v in
  (dump_block_gtag h {| key := KEY_gtag; size := 4; data := payload |} c
   = Ok (c, ("gtag" ++ nl ++ "gtag:" ++ fmt_u v ++ nl ++ nl)%string) /\
   make_node_gtag h c (("gtag:" ++ fmt_u v)%string :: ""%string :: rest)
   = Ok ({| key := KEY_gtag; size := 4; data := payload |}, c)) /\
  (dump_block_atag h {| key := KEY_atag; size := 4; data := payload |} c
   = Ok (c, ("atag" ++ nl ++ "atag:" ++ fmt_u v ++ nl ++ nl)%string) /\
   make_node_atag h c (("atag:" ++ fmt_u v)%string :: ""%string :: rest)
   = Ok ({| key := KEY_atag; size := 4; data := payload |}, c)) /\
  (dump_block_indx h {| key := KEY_indx; size := 4; data := payload |} c
   = Ok (c, ("indx" ++ nl ++ "index:" ++ fmt_u v ++ nl ++ nl)%string) /\
   make_node_indx h c (("index:" ++ fmt_u v)%string :: ""%string :: rest)
   = Ok ({| key := KEY_indx; size := 4; data := payload |}, c)).
Proof.
  intros R h payload.
  destruct (strkey_u32_names h) as (N1 & N2 & N3).
  assert (LP : length payload = 4%nat) by apply length_store_uint.
  assert (LV : load_u32 (little_endian h) payload 0 = v)
    by (apply load_u32_store; exact R).
  assert (W : within 4 payload = Ok tt)
    by (unfold within; rewrite LP; reflexivity).
  repeat split.
  - unfold dump_block_gtag, sizeof_block_gtag. cbn [size data Z.ltb Z.compare].
    rewrite W, N1, LV. reflexivity.
  - unfold make_node_gtag.
    rewrite (read_field_u32 le "tag:" "g" v) by (first [exact R | repeat constructor]).
    reflexivity.
  - unfold dump_block_atag, sizeof_block_atag. cbn [size data Z.ltb Z.compare].
    rewrite W, N2, LV. reflexivity.
  - unfold make_node_atag.
    rewrite (read_field_u32 le "tag:" "a" v) by (first [exact R | repeat constructor]).
    reflexivity.
  - unfold dump_block_indx, sizeof_block_indx. cbn [size data Z.ltb Z.compare].
    rewrite W, N3, LV. reflexivity.
  - unfold make_node_indx.
    rewrite (read_field_u32 le "ndex:" "i" v) by (first [exact R | repeat constructor]).
    reflexivity.
Qed.

Lemma u32_block_text_round_trip_witness :
  dump_block_gtag (reference true)
    {| key := KEY_gtag; size := 4; data := [x07; x00; x00; x00] |}
    (config_zero (reference true))
  = Ok (config_zero (reference true), ("gtag" ++ nl ++ "gtag:7" ++ nl ++ nl)%string)
  /\
  make_node_gtag (reference true) (config_zero (reference true))
    ["gtag:7"; ""]%string
  = Ok ({| key := KEY_gtag; size := 4; data := [x07; x00; x00; x00] |},
        config_zero (reference true)).
Proof.
  destruct (u32_block_text_round_trip true (config_zero (reference true)) 7 []
              ltac:(lia)) as [[A B] _].
  split; [exact A|exact B].
Defined.

(** ** The sample codec, again *)

Lemma slice_blit (mem src : list byte) (off : nat) :
  (off + length src <= length mem)%nat ->
  slice (blit mem off src) off (length src) = src.
Proof.
  intros L. unfold slice, blit.
  assert (LF : length (firstn off mem) = off) by (apply firstn_length_le; lia).
  rewrite skipn_app, LF, Nat.sub_diag, (skipn_all2 (firstn off mem)) by lia.
  cbn [app skipn]. rewrite (firstn_all2 src) by lia.
  rewrite firstn_app, Nat.sub_diag. cbn [firstn].
  now rewrite app_nil_r, firstn_all2.
Qed.

Lemma firstn_blit (mem src : list byte) (off n : nat) :
  (n <= off)%nat -> firstn n (blit mem off src) = firstn n mem.
Proof.
  intros L. unfold blit. destruct (Nat.le_gt_cases off (length mem)) as [I|I].
  - rewrite firstn_app, length_firstn, Nat.min_l by exact I.
    replace (n - off)%nat with O by lia. cbn [firstn].
    rewrite app_nil_r, firstn_firstn. f_equal. lia.
  - rewrite (firstn_all2 (n := off)) by lia.
    replace (length mem - off)%nat with O by lia.
    rewrite skipn_all2 by lia. cbn [firstn app]. now rewrite app_nil_r.
Qed.

Lemma load_i16_firstn (le : bool) (mem mem' : list byte) (off n : nat) :
  (off + 2 <= n)%nat ->
  firstn n mem' = firstn n mem ->
  load_i16 le mem' off = load_i16 le mem off.
Proof.
  intros L E. unfold load_i16, slice.
  rewrite !firstn_skipn_comm.
  replace (firstn (off + 2) mem') with (firstn (off + 2) (firstn n mem'))
    by (rewrite firstn_firstn; f_equal; lia).
  replace (firstn (off + 2) mem) with (firstn (off + 2) (firstn n mem))
    by (rewrite firstn_firstn; f_equal; lia).
  now rewrite E.
Qed.

Lemma read_alvl_loop_prefix (h : platform) (factor : double (ar h))
    (c : config h) (samples : nat) :
  forall (off : nat) (fd : list string) (mem mem' : list byte),
    read_alvl_loop h factor c samples off fd mem = Ok mem' ->
    firstn off mem' = firstn off mem.
Proof.
  induction samples as [|k IH]; intros off fd mem mem'; cbn [read_alvl_loop].
  - now intros [= <-].
  - destruct fd as [|line1 [|line2 rest]]; try discriminate.
    destruct (strlen line1 =? 0); [discriminate|].
    destruct (strlen line2 =? 0); [discriminate|].
    destruct (scan_double h line1 "i:%lf"); cbn [bind]; try discriminate.
    destruct (scan_double h line2 "q:%lf"); cbn [bind]; try discriminate.
    intros E. apply IH in E.
    assert (F : firstn off (firstn (off + 4) mem')
                = firstn off (firstn (off + 4)
                    (blit (blit mem off
                             (store_uint (little_endian h) 2
                                (encode_sample (ar h) factor (scalar_one c) a)))
                       (off + 2)
                       (store_uint (little_endian h) 2
                          (encode_sample (ar h) factor (scalar_two c) a0)))))
      by now rewrite E.
    rewrite !firstn_firstn, !Nat.min_l in F by lia.
    now rewrite F, !firstn_blit by lia.
Qed.

(** A sample left by the builder in a 16-bit field is the integer the
    renderer's load gives. *)
Lemma load_i16_blit (le : bool) (mem : list byte) (off : nat) (z : Z) :
  (off + 2 <= length mem)%nat ->
  load_i16 le (blit mem off (store_uint le 2 (wrap16s z))) off = wrap16s z.
Proof.
  intros L. unfold load_i16.
  pose proof (slice_blit mem (store_uint le 2 (wrap16s z)) off) as S.
  rewrite length_store_uint in S. rewrite S by exact L.
  rewrite load_store_uint. unfold wrap16s.
  change (256 ^ Z.of_nat 2) with 65536.
  pose proof (Z.mod_pos_bound (z + 32768) 65536 ltac:(lia)) as B.
  set (m := (z + 32768) mod 65536) in *.
  destruct (Z.ltb_spec m 32768).
  - replace ((m - 32768) mod 65536) with (m + 32768)
      by (apply Z.mod_unique with (-1); lia).
    replace ((m + 32768 + 32768) mod 65536) with m
      by (apply Z.mod_unique with 1; lia). lia.
  - rewrite (Z.mod_small (m - 32768)) by lia.
    rewrite Z.mod_small by lia. lia.
Qed.

Lemma encode_sample_wrapped (a : arith) (F s v : double a) :
  wrap16s (encode_sample a F s v) = encode_sample a F s v.
Proof.
  unfold encode_sample, wrap16s.
  pose proof (Z.mod_pos_bound (int_of_round a (fmul a (fdiv a v s) F) + 32768)
                65536 ltac:(lia)) as B.
  rewrite Z.sub_add. now rewrite Z.mod_mod by lia.
Qed.

(** The fields the builder leaves for the pair of lines [2 * j] and
    [2 * j + 1] of the stanza. *)
Lemma read_alvl_loop_fields (h : platform) (factor : double (ar h))
    (c : config h) (samples : nat) :
  forall (off : nat) (fd : list string) (mem mem' : list byte) (j : nat)
         (line1 line2 : string) (i q : double (ar h)),
    read_alvl_loop h factor c samples off fd mem = Ok mem' ->
    (off + 4 * samples <= length mem)%nat ->
    (j < samples)%nat ->
    nth_error fd (2 * j) = Some line1 ->
    nth_error fd (2 * j + 1) = Some line2 ->
    scan_double h line1 "i:%lf" = Ok i ->
    scan_double h line2 "q:%lf" = Ok q ->
    load_i16 (little_endian h) mem' (off + 4 * j)
    = encode_sample (ar h) factor (scalar_one c) i /\
    load_i16 (little_endian h) mem' (off + 4 * j + 2)
    = encode_sample (ar h) factor (scalar_two c) q.
Proof.
  induction samples as [|k IH];
    intros off fd mem mem' j line1 line2 i q; cbn [read_alvl_loop];
    [lia|].
  destruct fd as [|l1 [|l2 rest]]; try discriminate.
  destruct (strlen l1 =? 0); [discriminate|].
  destruct (strlen l2 =? 0); [discriminate|].
  destruct (scan_double h l1 "i:%lf") as [i0| |] eqn:SI; cbn [bind];
    try discriminate.
  destruct (scan_double h l2 "q:%lf") as [q0| |] eqn:SQ; cbn [bind];
    try discriminate.
  set (m1 := blit mem off _). set (m2 := blit m1 (off + 2) _).
  intros E B J N1 N2 S1 S2.
  destruct j as [|j].
  - cbn in N1, N2. injection N1 as <-. injection N2 as <-.
    rewrite SI in S1. rewrite SQ in S2. injection S1 as <-. injection S2 as <-.
    apply read_alvl_loop_prefix in E.
    rewrite Nat.mul_0_r, Nat.add_0_r.
    assert (L1 : length m1 = length mem) by apply length_blit.
    split.
    + rewrite (load_i16_firstn _ m2 mem' off (off + 4)) by (lia || exact E).
      rewrite (load_i16_firstn _ m1 m2 off (off + 2));
        [|lia|apply firstn_blit; lia].
      subst m1. rewrite <- (encode_sample_wrapped (ar h) factor (scalar_one c) i0) at 1.
      rewrite load_i16_blit by lia. apply encode_sample_wrapped.
    + rewrite (load_i16_firstn _ m2 mem' (off + 2) (off + 4)) by (lia || exact E).
      subst m2. rewrite <- (encode_sample_wrapped (ar h) factor (scalar_two c) q0) at 1.
      rewrite load_i16_blit by lia. apply encode_sample_wrapped.
  - replace (off + 4 * S j)%nat with (off + 4 + 4 * j)%nat by lia.
    apply (IH (off + 4)%nat rest m2 mem' j line1 line2 i q E).
    + subst m2 m1. rewrite !length_blit. lia.
    + lia.
    + replace (2 * S j)%nat with (S (S (2 * j))) in N1 by lia. exact N1.
    + replace (2 * S j + 1)%nat with (S (S (2 * j + 1))) in N2 by lia. exact N2.
    + exact S1.
    + exact S2.
Qed.
Lemma dump_alvl_loop_split (h : platform) (F : double (ar h)) (c : config h)
    (mem : list byte) (k : nat) :
  forall (j off : nat),
    dump_alvl_loop h F c (j + S k) off mem
    = (dump_alvl_loop h F c j off mem
       ++ "i:" ++ printf_lf h (decode_sample (ar h) F (scalar_one c)
                                 (load_i16 (little_endian h) mem (off + 4 * j)))
       ++ nl
       ++ "q:" ++ printf_lf h (decode_sample (ar h) F (scalar_two c)
                                 (load_i16 (little_endian h) mem
                                    (off + 4 * j + 2)))
       ++ nl
       ++ dump_alvl_loop h F c k (off + 4 * S j) mem)%string.
Proof.
  induction j as [|j IH]; intros off.
  - cbn [Nat.add dump_alvl_loop append].
    rewrite Nat.mul_0_r, Nat.add_0_r.
    replace (off + 4 * 1)%nat with (off + 4)%nat by lia. reflexivity.
  - cbn [Nat.add dump_alvl_loop]. rewrite (IH (off + 4)%nat).
    replace (off + 4 + 4 * j)%nat with (off + 4 * S j)%nat by lia.
    replace (off + 4 + 4 * S j)%nat with (off + 4 * S (S j))%nat by lia.
    rewrite !string_app_assoc. reflexivity.
Qed.

(** X25.  The samples of a sample stanza reach the rendered text through
    the 16-bit fields of the block: for the pair of lines 2j and 2j+1 of a
    stanza of less than 2^30 lines that the builder has built into a block,
    the two fields of the block's pair j are the values encoded from the
    two lines under the builder's width selector and scale factors (a
    signed 16-bit integer each, on either host), and the text the renderer
    prints for the block is the stanza header, the lines of the pairs in
    front, the two lines of the values decoded from those fields under
    the renderer's width selector and scale factors, and the lines of the
    pairs behind. *)
Theorem alvl_pair_build_render (h : platform) (c c1 c' : config h)
    (F F' : double (ar h)) (fd : list string) (n : node) (j : nat)
    (line1 line2 : string) (i q : double (ar h)) :
  Z.of_nat (length fd) < 2 ^ 30 ->
  bin_factor (ar h) (bin_type c) = Some F ->
  bin_factor (ar h) (bin_type c') = Some F' ->
  make_node_alvl h c fd = Ok (n, c1) ->
  2 * Z.of_nat j + 1 < count_alvl_lines fd ->
  nth_error fd (2 * j) = Some line1 ->
  nth_error fd (2 * j + 1) = Some line2 ->
  scan_double h line1 "i:%lf" = Ok i ->
  scan_double h line2 "q:%lf" = Ok q ->
  load_i16 (little_endian h) (data n) (4 * j)
  = encode_sample (ar h) F (scalar_one c) i /\
  load_i16 (little_endian h) (data n) (4 * j + 2)
  = encode_sample (ar h) F (scalar_two c) q /\
  dump_block_alvl h n c'
  = Ok (c',
        (strkey h KEY_alvl ++ nl
         ++ (dump_alvl_loop h F' c' j 0 (data n)
             ++ "i:"
             ++ printf_lf h
                  (decode_sample (ar h) F' (scalar_one c')
                     (encode_sample (ar h) F (scalar_one c) i))
             ++ nl
             ++ "q:"
             ++ printf_lf h
                  (decode_sample (ar h) F' (scalar_two c')
                     (encode_sample (ar h) F (scalar_two c) q))
             ++ nl
             ++ dump_alvl_loop h F' c'
                  (Z.to_nat (count_alvl_lines fd / 2) - S j) (4 * S j)
                  (data n))
         ++ nl)%string).
Proof.
  intros G BF BF' M J N1 N2 S1 S2.
  destruct (make_node_alvl_size h c c1 fd n G M) as (_ & SZ & LD).
  revert M. unfold make_node_alvl, read_alvl_samples. rewrite BF.
  pose proof (count_alvl_lines_le fd) as C.
  set (lines := count_alvl_lines fd) in *.
  destruct (Z.leb_spec lines 0) as [|P]; [discriminate|].
  destruct (Z.eqb_spec (lines mod 2) 1) as [|E]; [discriminate|].
  cbn [bind].
  destruct (read_alvl_loop _ _ _ _ _ _ _) as [mem| |] eqn:R; cbn [bind];
    try discriminate.
  intros [= <- _]. cbn [data size] in *.
  assert (H2 : 1 <= lines / 2 < 2 ^ 29 /\ lines = 2 * (lines / 2)).
  { pose proof (Z.div_mod lines 2 ltac:(lia)).
    pose proof (Z.mod_pos_bound lines 2 ltac:(lia)). lia. }
  destruct H2 as [H2 EV].
  unfold sizeof_block_alvl in *.
  assert (JS : (j < Z.to_nat (lines / 2))%nat) by lia.
  assert (LM : (0 + 4 * Z.to_nat (lines / 2)
                <= length (zeros (lines / 2 * 4)))%nat).
  { unfold zeros. rewrite repeat_length. lia. }
  destruct (read_alvl_loop_fields h F c (Z.to_nat (lines / 2)) 0 fd
              (zeros (lines / 2 * 4)) mem j line1 line2 i q
              R LM JS N1 N2 S1 S2) as [LI LQ].
  cbn [Nat.add] in LI, LQ.
  split; [exact LI|]. split; [exact LQ|].
  unfold dump_block_alvl. cbn [size data]. unfold sizeof_block_alvl.
  rewrite SZ.
  destruct (Z.ltb_spec (4 * (lines / 2)) 4); [lia|].
  rewrite BF'.
  replace (4 * (lines / 2) / 4) with (lines / 2)
    by (rewrite Z.mul_comm, Z.div_mul; lia).
  unfold within.
  destruct (Nat.leb_spec (Z.to_nat (lines / 2 * 4)) (length mem)); [|lia].
  cbn [bind].
  replace (Z.to_nat (lines / 2))
    with (j + S (Z.to_nat (lines / 2) - S j))%nat at 1 by lia.
  rewrite dump_alvl_loop_split. cbn [Nat.add].
  now rewrite LI, LQ.
Qed.

Lemma alvl_pair_build_render_witness :
  match make_node_alvl (reference true)
          (Build_config (reference true) BINTYPE_FIX2 1%float 1%float)
          one_pair with
  | Ok (n, _) =>
      load_i16 true (data n) 0 = 16384 /\
      load_i16 true (data n) 2 = 8192 /\
      dump_block_alvl (reference true) n
        (Build_config (reference true) BINTYPE_FIX2 1%float 1%float)
      = Ok (Build_config (reference true) BINTYPE_FIX2 1%float 1%float,
            ("alvl" ++ nl
             ++ "i:0.50001525925473799816" ++ nl
             ++ "q:0.25000762962736899908" ++ nl
             ++ nl)%string)
  | _ => False
  end.
Proof.
  set (c := Build_config (reference true) BINTYPE_FIX2 1%float 1%float).
  assert (M : match make_node_alvl (reference true) c one_pair with
              | Ok _ => True
              | _ => False
              end) by (vm_compute; exact I).
  destruct (make_node_alvl (reference true) c one_pair) as [[n c1]|e|] eqn:B;
    try exact M.
  destruct (alvl_pair_build_render (reference true) c c1 c
              (ieee_of_int 32767) (ieee_of_int 32767) one_pair n 0
              "i:0.5" "q:0.25" 0.5%float 0.25%float
              ltac:(vm_compute; reflexivity) eq_refl eq_refl B
              ltac:(vm_compute; reflexivity) eq_refl eq_refl
              ltac:(vm_compute; reflexivity) ltac:(vm_compute; reflexivity))
    as (A1 & A2 & A3).
  split; [etransitivity; [exact A1|vm_compute; reflexivity]|].
  split; [etransitivity; [exact A2|vm_compute; reflexivity]|].
  etransitivity; [exact A3|]. repeat f_equal; vm_compute; reflexivity.
Defined.

(** ** [tsgen], again *)

Lemma make_key (h : platform) (bf : block_functions h) (c c' : config h)
    (fd : list string) (n : node) :
  In bf (Global_function_dictionary h) ->
  make bf c fd = Ok (n, c') ->
  key n = bf_key bf.
Proof.
  intros I. cbn in I.
  repeat (destruct I as [<-|I]); [..|destruct I]; cbn [make bf_key].
  - unfold make_node_alvl.
    destruct (count_alvl_lines fd <=? 0); [discriminate|].
    destruct (count_alvl_lines fd mod 2 =? 1); [discriminate|].
    destruct (read_alvl_samples _ _ _ _ _); cbn [bind]; try discriminate.
    now intros [= <- _].
  - unfold make_node_gtag. read_fields. now intros [= <- _].
  - unfold make_node_atag. read_fields. now intros [= <- _].
  - unfold make_node_indx. read_fields. now intros [= <- _].
  - unfold make_node_scal. read_fields. now intros [= <- _].
  - unfold make_node_sign. read_fields. now intros [= <- _].
  - unfold make_node_mcda. read_fields. now intros [= <- _].
  - unfold make_node_cnst. read_fields. now intros [= <- _].
  - unfold make_node_swep. read_fields. now intros [= <- _].
  - unfold make_node_fbin. read_fields. now intros [= <- _].
  - now intros [= <- _].
  - now intros [= <- _].
  - now intros [= <- _].
  - now intros [= <- _].
Qed.

(** X26.  [tsgen] builds one block for every stanza header of the text (a
    line longer than one character and without a colon), in the order of
    the text, and the key of each block is the one the first four bytes of
    its header line spell. *)
Theorem tsgen_loop_keys (h : platform) (infile : list string)
    (c c' : config h) (nodes : list node) :
  tsgen_loop h c infile = Ok (nodes, c') ->
  map key nodes = map (key_of_line h) (filter stanza_header infile).
Proof.
  revert c c' nodes.
  induction infile as [|line rest IH]; intros c c' nodes;
    cbn [tsgen_loop filter].
  - now intros [= <- _].
  - unfold stanza_header at 1.
    destruct (strlen line <=? 1); cbn [negb andb]; [apply IH|].
    destruct (has_colon line); cbn [negb]; [apply IH|].
    destruct (find_block_functions h (key_of_line h line)) as [bf|] eqn:F;
      [|discriminate].
    destruct (make bf c rest) as [[n c1]|e|] eqn:M; cbn [bind];
      try discriminate.
    destruct (tsgen_loop h c1 rest) as [[l c2]|e|] eqn:T; cbn [bind];
      try discriminate.
    intros [= <- _]. cbn [map]. f_equal; [|now apply (IH c1 c2)].
    rewrite (make_key h bf c c1 rest n (find_block_functions_In h _ bf F) M).
    now apply find_block_functions_key in F.
Qed.

Lemma tsgen_loop_keys_witness :
  match tsgen_loop (reference true) (config_zero (reference true))
          no_container_text with
  | Ok (nodes, _) =>
      map key nodes = [KEY_HEAD; KEY_gtag; KEY_BODY; KEY_atag; KEY_END]
  | _ => False
  end.
Proof.
  assert (M : match tsgen_loop (reference true) (config_zero (reference true))
                      no_container_text with
              | Ok _ => True
              | _ => False
              end) by (vm_compute; exact I).
  destruct (tsgen_loop (reference true) (config_zero (reference true))
              no_container_text) as [[nodes c']|e|] eqn:T; try exact M.
  exact (tsgen_loop_keys (reference true) no_container_text
           (config_zero (reference true)) c' nodes T).
Defined.




(** ** Reconciling twice *)

Lemma set_block_size_again (l l' : list node) (k sz : Z) :
  set_block_size l k sz = (0, l') -> set_block_size l' k sz = (0, l').
Proof.
  revert l'. induction l as [|n l IH]; intros l'; cbn [set_block_size].
  - discriminate.
  - destruct (key n =? k) eqn:E.
    + intros [= <-]. cbn [set_block_size key]. now rewrite E.
    + destruct (set_block_size l k sz) as [e l1] eqn:S.
      intros [= -> <-]. cbn [set_block_size]. now rewrite E, (IH l1 eq_refl).
Qed.

Lemma head_scan_set_body (l : list node) (sz : Z) :
  forall (in_head : bool) (acc : Z),
    calculate_head_size_from in_head acc (snd (set_block_size l KEY_BODY sz))
    = calculate_head_size_from in_head acc l.
Proof.
  induction l as [|n l IH]; intros in_head acc; cbn [set_block_size snd];
    [reflexivity|].
  destruct (key n =? KEY_BODY) eqn:E.
  - cbn [snd calculate_head_size_from key size]. now rewrite E.
  - destruct (set_block_size l KEY_BODY sz) as [e l1] eqn:S. cbn [snd] in *.
    cbn [calculate_head_size_from]. now rewrite IH.
Qed.

Lemma body_scan_set_body (l : list node) (sz : Z) :
  forall acc : Z,
    calculate_body_size_from false acc (snd (set_block_size l KEY_BODY sz))
    = calculate_body_size_from false acc l.
Proof.
  induction l as [|n l IH]; intros acc; cbn [set_block_size snd];
    [reflexivity|].
  destruct (key n =? KEY_BODY) eqn:E.
  - cbn [snd calculate_body_size_from key size]. rewrite E.
    now destruct (key n =? KEY_END).
  - destruct (set_block_size l KEY_BODY sz) as [e l1] eqn:S. cbn [snd] in *.
    cbn [calculate_body_size_from]. rewrite E.
    destruct (key n =? KEY_END); apply IH.
Qed.

Lemma set_block_size_skip (n : node) (l : list node) (k sz : Z) :
  (key n =? k) = false ->
  set_block_size (n :: l) k sz
  = (fst (set_block_size l k sz), n :: snd (set_block_size l k sz)).
Proof.
  intros E. cbn [set_block_size]. rewrite E.
  now destruct (set_block_size l k sz).
Qed.

Lemma set_block_size_hit (n : node) (l : list node) (k sz : Z) :
  (key n =? k) = true ->
  set_block_size (n :: l) k sz
  = (0, {| key := key n; size := sz; data := data n |} :: l).
Proof. intros E. cbn [set_block_size]. now rewrite E. Qed.

(** X28.  Reconciliation is idempotent on a sequence that starts with the
    outer container followed by the header container: when [fixup_sizes]
    has succeeded, a second call on the list it left succeeds and changes
    nothing. *)
Theorem fixup_sizes_idempotent (a hd : node) (rest l' : list node) :
  key a = KEY_AQLV ->
  key hd = KEY_HEAD ->
  fixup_sizes (a :: hd :: rest) = (0, l') ->
  fixup_sizes l' = (0, l').
Proof.
  destruct a as [ka sa da], hd as [kh sh dh]. cbn [key]. intros -> ->.
  assert (CH : forall (s1 s2 : Z) (r : list node),
             calculate_head_size
               ({| key := KEY_AQLV; size := s1; data := da |}
                :: {| key := KEY_HEAD; size := s2; data := dh |} :: r)
             = calculate_head_size_from true 0 r) by reflexivity.
  assert (CB : forall (s1 s2 : Z) (r : list node),
             calculate_body_size
               ({| key := KEY_AQLV; size := s1; data := da |}
                :: {| key := KEY_HEAD; size := s2; data := dh |} :: r)
             = calculate_body_size_from false 0 r) by reflexivity.
  assert (ST : forall (s1 s2 A H B : Z) (r : list node),
             (let (e1, l1) :=
                set_block_size
                  ({| key := KEY_AQLV; size := s1; data := da |}
                   :: {| key := KEY_HEAD; size := s2; data := dh |} :: r)
                  KEY_AQLV A in
              if negb (e1 =? 0) then (1, l1) else
              let (e2, l2) := set_block_size l1 KEY_HEAD H in
              if negb (e2 =? 0) then (1, l2) else
              let (e3, l3) := set_block_size l2 KEY_BODY B in
              if negb (e3 =? 0) then (1, l3) else (0, l3))
             = (if negb (fst (set_block_size r KEY_BODY B) =? 0) then 1 else 0,
                {| key := KEY_AQLV; size := A; data := da |}
                :: {| key := KEY_HEAD; size := H; data := dh |}
                :: snd (set_block_size r KEY_BODY B))).
  { intros. rewrite set_block_size_hit by reflexivity. cbn [key data Z.eqb negb].
    rewrite set_block_size_skip, set_block_size_hit by reflexivity.
    cbn [fst snd key data Z.eqb negb].
    rewrite !(set_block_size_skip _ _ KEY_BODY) by reflexivity.
    cbn [fst snd]. now destruct (negb _). }
  unfold fixup_sizes. rewrite CH, CB.
  set (H := calculate_head_size_from true 0 rest).
  set (B := calculate_body_size_from false 0 rest).
  destruct (H =? 0) eqn:EH; [discriminate|].
  destruct (B =? 0) eqn:EB; [discriminate|].
  rewrite ST.
  pose proof (head_scan_set_body rest B true 0) as SH.
  pose proof (body_scan_set_body rest B 0) as SB.
  destruct (set_block_size rest KEY_BODY B) as [e3 rest'] eqn:S3.
  cbn [fst snd] in *.
  destruct (e3 =? 0) eqn:E3; cbn [negb]; [|discriminate].
  apply Z.eqb_eq in E3. subst e3. intros [= <-].
  rewrite CH, CB, SH, SB. fold H B. rewrite EH, EB, ST.
  rewrite (set_block_size_again rest rest' KEY_BODY B S3). reflexivity.
Qed.

Lemma fixup_sizes_idempotent_witness :
  fixup_sizes reconciled_sequence = (0, reconciled_sequence).
Proof.
  apply (fixup_sizes_idempotent (block KEY_AQLV []) (block KEY_HEAD [])
           [ block KEY_mcda [xd5; x8d; xdf; x80]; block KEY_BODY [];
             block KEY_gtag [x00; x00; x00; x07]; block KEY_END [] ]
           reconciled_sequence); reflexivity.
Defined.

(** ** Signed decimal text *)

Lemma fmt_d_nonneg (v : Z) : 0 <= v -> fmt_d v = fmt_u v.
Proof. destruct v; [reflexivity|reflexivity|lia]. Qed.

Lemma fmt_d_neg (p : positive) :
  fmt_d (Zneg p) = String "-" (fmt_u (Zpos p)).
Proof. reflexivity. Qed.

Lemma no_hex_prefix (cs : list ascii) :
  match cs with
  | "0"%char :: x :: d :: t => cs
  | _ => cs
  end = cs.
Proof.
  destruct cs as [|c t]; [reflexivity|].
  destruct c as [[] [] [] [] [] [] [] []]; try reflexivity;
    destruct t as [|x [|d t0]]; reflexivity.
Qed.

(** ["%d"] on what ["%d"] prints for a value of an [int]. *)
Lemma scan_integer_signed (le : bool) (v : Z) :
  - 2 ^ 31 <= v < 2 ^ 31 ->
  scan_integer le 10 true (list_ascii_of_string (fmt_d v))
  = Stored (store_uint le 4 (wrap32 v)).
Proof.
  intros R. destruct (Z.ltb_spec v 0) as [N|P].
  - destruct v as [|p|p]; try lia. rewrite fmt_d_neg.
    cbn [list_ascii_of_string].
    destruct (fmt_u_head (Zpos p)) as (c & t & E & D).
    destruct (take_digits_fmt_u (Zpos p) ltac:(lia)) as (count & C & T).
    rewrite E in *. unfold scan_integer.
    change (skip_spaces ("-"%char :: c :: t)) with ("-"%char :: c :: t).
    change (10 =? 16) with false. cbn [andb].
    change (take_sign ("-"%char :: c :: t)) with (true, c :: t).
    cbv beta iota.
    match goal with
    | |- context [take_digits 10 0 0 ?m] =>
        replace m with (c :: t)
          by (symmetry; exact (no_hex_prefix (c :: t)))
    end.
    rewrite T.
    destruct count; [congruence|]. cbn [Nat.eqb].
    now rewrite Z.max_l by lia.
  - rewrite fmt_d_nonneg by exact P.
    destruct (fmt_u_head v) as (c & t & E & D).
    destruct (take_digits_fmt_u v P) as (count & C & T).
    rewrite E in *. unfold scan_integer. cbn [skip_spaces].
    rewrite (digit_not_space c D), (take_sign_digit c t D).
    change (10 =? 16) with false. cbn [andb].
    match goal with
    | |- context [take_digits 10 0 0 ?m] =>
        replace m with (c :: t)
          by (symmetry; exact (no_hex_prefix (c :: t)))
    end.
    rewrite T.
    destruct count; [congruence|]. cbn [Nat.eqb].
    now rewrite Z.min_l by lia.
Qed.

Lemma reference_sscanf_d (le : bool) (lit : string) (v : Z) :
  Forall (fun c => Ascii.eqb c "%" = false) (list_ascii_of_string lit) ->
  - 2 ^ 31 <= v < 2 ^ 31 ->
  reference_sscanf le (lit ++ fmt_d v) (lit ++ "%d")
  = (1, store_uint le 4 (wrap32 v)).
Proof.
  intros L R. unfold reference_sscanf. rewrite !list_ascii_of_string_app.
  change (list_ascii_of_string "%d") with ["%"%char; "d"%char].
  rewrite split_format_literal by exact L. rewrite match_literal_prefix.
  change (reference_conversion le ["d"%char])
    with (scan_integer le 10 true).
  now rewrite scan_integer_signed.
Qed.

Lemma store_uint_wrap32 (le : bool) (v : Z) :
  store_uint le 4 (wrap32 v) = store_uint le 4 v.
Proof.
  assert (E : bytes_le 4 (wrap32 v) = bytes_le 4 v).
  { unfold wrap32. change 4294967296 with (256 ^ Z.of_nat 4).
    rewrite <- (Z_of_le_bytes_le 4 v).
    rewrite <- (length_bytes_le 4 v) at 1. apply bytes_le_Z_of_le. }
  unfold store_uint. now rewrite E.
Qed.

Lemma read_parameter_skip (h : platform) (line : string)
    (rest : list string) (format : string) :
  (strlen line =? 0) = false ->
  sscanf h line format = (0, []) ->
  read_parameter h (line :: rest) format = read_parameter h rest format.
Proof. intros S E. cbn [read_parameter]. now rewrite S, E. Qed.

Lemma read_parameter_hit (h : platform) (line : string)
    (rest : list string) (format : string) (stored : list byte) :
  (strlen line =? 0) = false ->
  sscanf h line format = (1, stored) ->
  read_parameter h (line :: rest) format = (0, stored).
Proof. intros S E. cbn [read_parameter]. now rewrite S, E. Qed.

Lemma blit_app (p m src : list byte) (off : nat) :
  off = length p ->
  (length src <= length m)%nat ->
  blit (p ++ m) off src = p ++ src ++ skipn (length src) m.
Proof.
  intros -> L. unfold blit.
  rewrite firstn_app, Nat.sub_diag, firstn_all. cbn [firstn].
  rewrite app_nil_r, length_app.
  rewrite firstn_all2 by lia.
  rewrite skipn_app, skipn_all2 by lia. cbn [app].
  do 3 f_equal. lia.
Qed.

Lemma load_i32_at (le : bool) (p r : list byte) (v : Z) (off : nat) :
  off = length p ->
  - 2 ^ 31 <= v < 2 ^ 31 ->
  load_i32 le (p ++ store_uint le 4 v ++ r) off = v.
Proof.
  intros -> R. unfold load_i32, load_u32, slice.
  rewrite skipn_app, skipn_all, Nat.sub_diag. cbn [app skipn].
  rewrite firstn_app, length_store_uint, Nat.sub_diag, firstn_O.
  rewrite app_nil_r, firstn_all2 by (rewrite length_store_uint; lia).
  rewrite load_store_uint. change (256 ^ Z.of_nat 4) with 4294967296.
  unfold wrap32s.
  destruct (Z.ltb_spec v 0).
  - replace (v mod 4294967296) with (v + 4294967296)
      by (apply Z.mod_unique with (-1); lia).
    replace ((v + 4294967296 + 2147483648) mod 4294967296)
      with (v + 2147483648) by (apply Z.mod_unique with 1; lia). lia.
  - rewrite (Z.mod_small v) by lia. rewrite Z.mod_small by lia. lia.
Qed.

(** X29.  On the reference platform, the text the renderer prints for a
    constants block (four signed 32-bit integers, negative ones with their
    sign) is read back by the builder as the same block: the same key,
    length and payload, on either host. *)
Theorem cnst_text_round_trip (le : bool) (c : config (reference le))
    (nchannels nsweeps nsamples iqindicator : Z) (rest : list string) :
  - 2 ^ 31 <= nchannels < 2 ^ 31 ->
  - 2 ^ 31 <= nsweeps < 2 ^ 31 ->
  - 2 ^ 31 <= nsamples < 2 ^ 31 ->
  - 2 ^ 31 <= iqindicator < 2 ^ 31 ->
  let h := reference le in
  let n := {| key := KEY_cnst; size := 16;
              data := store_uint le 4 nchannels ++ store_uint le 4 nsweeps
                      ++ store_uint le 4 nsamples
                      ++ store_uint le 4 iqindicator |} in
  dump_block_cnst h n c
  = Ok (c, ("cnst" ++ nl
            ++ "nchannels:" ++ fmt_d nchannels ++ nl
            ++ "nsweeps:" ++ fmt_d nsweeps ++ nl
            ++ "nsamples:" ++ fmt_d nsamples ++ nl
            ++ "iqindicator:" ++ fmt_d iqindicator ++ nl
            ++ nl)%string) /\
  make_node_cnst h c
    (("nchannels:" ++ fmt_d nchannels)%string
     :: ("nsweeps:" ++ fmt_d nsweeps)%string
     :: ("nsamples:" ++ fmt_d nsamples)%string
     :: ("iqindicator:" ++ fmt_d iqindicator)%string
     :: ""%string :: rest)
  = Ok (n, c).
Proof.
  intros Ra Rb Rs Rq h n. subst n.
  set (s1 := store_uint le 4 nchannels). set (s2 := store_uint le 4 nsweeps).
  set (s3 := store_uint le 4 nsamples). set (s4 := store_uint le 4 iqindicator).
  assert (L1 : length s1 = 4%nat) by apply length_store_uint.
  assert (L2 : length s2 = 4%nat) by apply length_store_uint.
  assert (L3 : length s3 = 4%nat) by apply length_store_uint.
  assert (L4 : length s4 = 4%nat) by apply length_store_uint.
  split.
  - unfold dump_block_cnst, sizeof_block_cnst. cbn [size data Z.ltb Z.compare].
    assert (W : within 16 (s1 ++ s2 ++ s3 ++ s4) = Ok tt).
    { unfold within. rewrite !length_app, L1, L2, L3, L4. reflexivity. }
    rewrite W. cbn [bind].
    assert (K : strkey h KEY_cnst = "cnst"%string)
      by (unfold strkey; destruct (little_endian h); reflexivity).
    rewrite K.
    change (little_endian h) with le.
    assert (V1 : load_i32 le (s1 ++ s2 ++ s3 ++ s4) 0 = nchannels)
      by (apply (load_i32_at le [] (s2 ++ s3 ++ s4) nchannels 0 eq_refl Ra)).
    assert (V2 : load_i32 le (s1 ++ s2 ++ s3 ++ s4) 4 = nsweeps)
      by (apply (load_i32_at le s1 (s3 ++ s4) nsweeps 4);
          [now rewrite L1|exact Rb]).
    assert (V3 : load_i32 le (s1 ++ s2 ++ s3 ++ s4) 8 = nsamples).
    { rewrite (app_assoc s1 s2).
      apply (load_i32_at le (s1 ++ s2) s4 nsamples 8);
        [now rewrite length_app, L1, L2|exact Rs]. }
    assert (V4 : load_i32 le (s1 ++ s2 ++ s3 ++ s4) 12 = iqindicator).
    { rewrite (app_assoc s2 s3), (app_assoc s1 (s2 ++ s3)).
      rewrite <- (app_nil_r s4).
      apply (load_i32_at le (s1 ++ s2 ++ s3) [] iqindicator 12);
        [now rewrite !length_app, L1, L2, L3|exact Rq]. }
    now rewrite V1, V2, V3, V4.
  - unfold make_node_cnst.
    set (l1 := ("nchannels:" ++ fmt_d nchannels)%string).
    set (l2 := ("nsweeps:" ++ fmt_d nsweeps)%string).
    set (l3 := ("nsamples:" ++ fmt_d nsamples)%string).
    set (l4 := ("iqindicator:" ++ fmt_d iqindicator)%string).
    assert (N1 : (strlen l1 =? 0) = false) by apply strlen_cons.
    assert (N2 : (strlen l2 =? 0) = false) by apply strlen_cons.
    assert (N3 : (strlen l3 =? 0) = false) by apply strlen_cons.
    assert (P : forall (lit : string) (v : Z),
              Forall (fun c => Ascii.eqb c "%" = false)
                     (list_ascii_of_string lit) ->
              - 2 ^ 31 <= v < 2 ^ 31 ->
              sscanf h (lit ++ fmt_d v) (lit ++ "%d")
              = (1, store_uint le 4 v)).
    { intros lit v F R. change (sscanf h) with (reference_sscanf le).
      now rewrite reference_sscanf_d, store_uint_wrap32. }
    assert (F1 : read_parameter h (l1 :: l2 :: l3 :: l4 :: ""%string :: rest)
                   "nchannels:%d" = (0, s1)).
    { apply read_parameter_hit; [exact N1|].
      apply (P "nchannels:"%string); [repeat constructor|exact Ra]. }
    assert (F2 : read_parameter h (l1 :: l2 :: l3 :: l4 :: ""%string :: rest)
                   "nsweeps:%d" = (0, s2)).
    { rewrite read_parameter_skip; [|exact N1|reflexivity].
      apply read_parameter_hit; [exact N2|].
      apply (P "nsweeps:"%string); [repeat constructor|exact Rb]. }
    assert (F3 : read_parameter h (l1 :: l2 :: l3 :: l4 :: ""%string :: rest)
                   "nsamples:%d" = (0, s3)).
    { rewrite read_parameter_skip; [|exact N1|reflexivity].
      rewrite read_parameter_skip; [|exact N2|reflexivity].
      apply read_parameter_hit; [exact N3|].
      apply (P "nsamples:"%string); [repeat constructor|exact Rs]. }
    assert (F4 : read_parameter h (l1 :: l2 :: l3 :: l4 :: ""%string :: rest)
                   "iqindicator:%d" = (0, s4)).
    { rewrite read_parameter_skip; [|exact N1|reflexivity].
      rewrite read_parameter_skip; [|exact N2|reflexivity].
      rewrite read_parameter_skip; [|exact N3|reflexivity].
      apply read_parameter_hit; [apply strlen_cons|].
      apply (P "iqindicator:"%string); [repeat constructor|exact Rq]. }
    rewrite (read_field_stored h _ _ 0 _ s1 F1)
      by (rewrite ?length_app, ?length_skipn, ?repeat_length, ?L1, ?L2, ?L3, ?L4;
          vm_compute; lia).
    cbn [bind].
    change (zeros sizeof_block_cnst) with ([] ++ repeat x00 16).
    rewrite blit_app by (try reflexivity; rewrite L1; cbn; lia).
    rewrite L1. cbn [app skipn repeat].
    rewrite (read_field_stored h _ _ 4 _ s2 F2)
      by (rewrite ?length_app, ?length_skipn, ?repeat_length, ?L1, ?L2, ?L3, ?L4;
          vm_compute; lia).
    cbn [bind].
    rewrite (blit_app s1 _ s2 4) by (rewrite ?L1, ?L2; cbn; lia).
    rewrite L2. cbn [skipn].
    rewrite (read_field_stored h _ _ 8 _ s3 F3)
      by (rewrite ?length_app, ?length_skipn, ?repeat_length, ?L1, ?L2, ?L3, ?L4;
          vm_compute; lia).
    cbn [bind].
    rewrite (app_assoc s1 s2).
    rewrite (blit_app (s1 ++ s2) _ s3 8)
      by (rewrite ?length_app, ?L1, ?L2, ?L3; cbn; lia).
    rewrite L3. cbn [skipn].
    rewrite (read_field_stored h _ _ 12 _ s4 F4)
      by (rewrite ?length_app, ?length_skipn, ?repeat_length, ?L1, ?L2, ?L3, ?L4;
          vm_compute; lia).
    cbn [bind].
    rewrite (app_assoc (s1 ++ s2) s3).
    rewrite (blit_app ((s1 ++ s2) ++ s3) _ s4 12)
      by (rewrite ?length_app, ?L1, ?L2, ?L3, ?L4; cbn; lia).
    rewrite L4. cbn [skipn].
    rewrite app_nil_r, <- !app_assoc. reflexivity.
Qed.

Lemma cnst_text_round_trip_witness :
  make_node_cnst (reference true) (config_zero (reference true))
    ["nchannels:3"; "nsweeps:32"; "nsamples:2048"; "iqindicator:-2"; ""]%string
  = Ok ({| key := KEY_cnst; size := 16;
           data := [x03; x00; x00; x00; x20; x00; x00; x00;
                    x00; x08; x00; x00; xfe; xff; xff; xff] |},
        config_zero (reference true)).
Proof.
  destruct (cnst_text_round_trip true (config_zero (reference true))
              3 32 2048 (-2) [] ltac:(lia) ltac:(lia) ltac:(lia) ltac:(lia))
    as [_ B].
  exact B.
Defined.

(** ** Line buffers *)

Lemma poke_length (mem : list byte) (i : nat) (b : byte) :
  length (poke mem i b) = length mem.
Proof.
  revert i. induction mem as [|x mem IH]; intros [|i]; cbn [poke length];
    try reflexivity. now rewrite IH.
Qed.

Lemma poke_app (pre post : list byte) (x b : byte) :
  poke (pre ++ x :: post) (length pre) b = pre ++ b :: post.
Proof.
  induction pre as [|y pre IH]; cbn [app length poke]; [reflexivity|].
  now rewrite IH.
Qed.

Lemma line_text_no_newline (bs : list byte) : ~ In x0a (line_text bs).
Proof.
  induction bs as [|b t IH]; cbn [line_text]; [tauto|].
  destruct (Byte.eqb b x00); cbn [orb]; [cbn; tauto|].
  destruct (Byte.eqb b x0a) eqn:E; [cbn; tauto|].
  intros [->|I]; [discriminate|tauto].
Qed.

Lemma chomp_search (pre post : list byte) :
  exists line' : list byte,
    (nl <- index_char (pre ++ x00 :: post) x0a ;;
     match nl with
     | Some i => Ok (poke (pre ++ x00 :: post) i x00)
     | None => Ok (pre ++ x00 :: post)
     end) = Ok line' /\
    length line' = length (pre ++ x00 :: post) /\
    cstring line' = line_text pre.
Proof.
  induction pre as [|b pre (line' & E & L & C)]; cbn [app index_char].
  - change (Byte.eqb x00 x0a) with false. change (Byte.eqb x00 x00) with true.
    cbn [bind]. eexists. repeat split.
  - destruct (Byte.eqb b x0a) eqn:N.
    + cbn [bind poke]. eexists. split; [reflexivity|].
      split; [reflexivity|]. cbn [cstring line_text].
      change (Byte.eqb x00 x00) with true. rewrite N, orb_true_r. reflexivity.
    + destruct (Byte.eqb b x00) eqn:Z0.
      * cbn [bind]. eexists. split; [reflexivity|].
        split; [reflexivity|]. cbn [cstring line_text]. now rewrite Z0.
      * destruct (index_char (pre ++ x00 :: post) x0a) as [[i|]| |];
          cbn [bind option_map] in *; try discriminate.
        -- injection E as <-. eexists. split; [reflexivity|].
           cbn [poke length cstring line_text]. rewrite Z0, N. cbn [orb].
           split; [now rewrite poke_length|now rewrite C].
        -- injection E as <-. eexists. split; [reflexivity|].
           cbn [length cstring line_text]. rewrite Z0, N. cbn [orb].
           split; [reflexivity|now rewrite C].
Qed.

(** X30.  [chomp] on a line buffer of at least [max] bytes ([max]
    positive) ends the string at its first newline: the buffer keeps its
    length, and the C string it then holds is the text in front of the
    first NUL or newline among the first [max - 1] bytes, with no newline
    in it.  The search stays inside the buffer. *)
Theorem chomp_line (line : list byte) (max : Z) :
  0 < max <= Z.of_nat (length line) ->
  exists line' : list byte,
    chomp line max = Ok line' /\
    length line' = length line /\
    cstring line' = line_text (firstn (Z.to_nat (max - 1)) line) /\
    ~ In x0a (cstring line').
Proof.
  intros R. unfold chomp.
  destruct (Z.ltb_spec 0 max); [|lia].
  destruct (Z.leb_spec max (Z.of_nat (length line))); [|lia]. cbn [andb].
  set (m := Z.to_nat (max - 1)).
  assert (M : (m < length line)%nat) by lia.
  pose proof (firstn_skipn m line) as S.
  destruct (skipn m line) as [|x post] eqn:K.
  { apply (f_equal (@length byte)) in K. rewrite length_skipn in K.
    cbn in K. lia. }
  assert (LP : length (firstn m line) = m) by (apply firstn_length_le; lia).
  assert (PK : poke line m x00 = firstn m line ++ x00 :: post).
  { transitivity (poke (firstn m line ++ x :: post)
                    (length (firstn m line)) x00);
      [now rewrite S, LP|apply poke_app]. }
  cbv zeta. rewrite PK.
  destruct (chomp_search (firstn m line) post) as (line' & E & L & C).
  exists line'. split; [exact E|].
  split.
  { rewrite L. apply (f_equal (@length byte)) in S.
    rewrite length_app in *. cbn [length] in *. lia. }
  split; [exact C|]. rewrite C. apply line_text_no_newline.
Qed.

Lemma chomp_line_witness :
  exists line' : list byte,
    chomp (list_byte_of_string "gtag:7" ++ [x0a; x00; x55; x55]) 10
    = Ok line' /\
    length line' = 10%nat /\
    cstring line' = list_byte_of_string "gtag:7" /\
    ~ In x0a (cstring line').
Proof.
  apply (chomp_line (list_byte_of_string "gtag:7" ++ [x0a; x00; x55; x55]) 10).
  cbn. lia.
Defined.
